(** * Voice services: the Piper text-to-speech service and the Whisper
      speech-recognition service

    A shallow embedding of [piper-service/service.py], [piper-service/config.py]
    and [whisper-service/service.py].  Stateful code is written in a small
    state-and-exception monad over an explicit world (file system, model cache
    and the trace of input/output operations performed so far); the wrapped
    libraries and the network are oracles that see that trace. *)

From Stdlib Require Import ZArith QArith Qround Qabs Qpower Lia Lqa List Ascii String.
From Stdlib Require PrimFloat FloatOps.
From stdpp Require Import gmap strings list fin_maps.

Local Open Scope Z_scope.

(** ** Python values shared by both services *)

Module Py.

(** Exceptions.  [HTTPException] is FastAPI's; a request that fails the
    pydantic schema never reaches its handler and is answered with status 422;
    every other exception is a named Python error with its message. *)
Inductive exn :=
| HTTPException (status_code : Z) (detail : string)
| RequestValidationError (field : string)
| PyError (kind msg : string).

(** [str(n)] for an integer: its decimal digits, with a minus sign when
    negative.  The fuel bounds the number of digits. *)
Definition digit_char (d : Z) : ascii := ascii_of_nat (48 + Z.to_nat d).

Fixpoint digits_aux (fuel : nat) (n : Z) (acc : string) : string :=
  match fuel with
  | O => acc
  | S fuel' =>
      let acc' := String (digit_char (n mod 10)) acc in
      if n <? 10 then acc' else digits_aux fuel' (n / 10) acc'
  end.

Definition digits (n : Z) : string :=
  digits_aux (S (Z.to_nat (Z.log2 n))) n "".

Definition str_Z (n : Z) : string :=
  if n <? 0 then "-" +:+ digits (- n) else digits n.

Fixpoint zeros (k : nat) : string :=
  match k with
  | O => ""
  | S k' => String "0" (zeros k')
  end.

(** The format specification [0<width>d]: the sign first, then zeros up to
    the width, then the digits. *)
Definition format_0d (width : nat) (n : Z) : string :=
  if n <? 0
  then "-" +:+ zeros (width - 1 - String.length (digits (- n))) +:+ digits (- n)
  else zeros (width - String.length (digits n)) +:+ digits n.

(** [str(e)]: Starlette renders an [HTTPException] as [status: detail]. *)
Definition str (e : exn) : string :=
  match e with
  | HTTPException s d => str_Z s +:+ ": " +:+ d
  | RequestValidationError f => "validation error: " +:+ f
  | PyError _ msg => msg
  end.

(** The status an exception that escapes a route handler is answered with. *)
Definition status_of (e : exn) : Z :=
  match e with
  | HTTPException s _ => s
  | RequestValidationError _ => 422
  | PyError _ _ => 500
  end.

Definition is_client_error (e : exn) : bool :=
  (400 <=? status_of e) && (status_of e <? 500).

Inductive result (A : Type) :=
| Ok (a : A)
| Raise (e : exn).
Arguments Ok {A} a.
Arguments Raise {A} e.

(** [sep.join(xs)] *)
Fixpoint join_from (sep : string) (acc : string) (xs : list string) : string :=
  match xs with
  | [] => acc
  | x :: xs' => join_from sep (acc +:+ sep +:+ x) xs'
  end.

Definition join (sep : string) (xs : list string) : string :=
  match xs with
  | [] => ""
  | x :: xs' => join_from sep x xs'
  end.

(** The monad of the service code: a computation runs in a world [W] and
    either returns or raises, leaving a world behind. *)
Definition M (W A : Type) : Type := W -> result A * W.

Section Monad.
Context {W : Type}.

Definition ret {A} (a : A) : M W A := fun w => (Ok a, w).

Definition raise {A} (e : exn) : M W A := fun w => (Raise e, w).

Definition bind {A B} (m : M W A) (k : A -> M W B) : M W B :=
  fun w =>
    match m w with
    | (Ok a, w') => k a w'
    | (Raise e, w') => (Raise e, w')
    end.

(** [try: m  except Exception as e: handler e] *)
Definition try_except {A} (m : M W A) (handler : exn -> M W A) : M W A :=
  fun w =>
    match m w with
    | (Ok a, w') => (Ok a, w')
    | (Raise e, w') => handler e w'
    end.

(** [try: m  except <class> as e: handler e], for the exceptions of a class *)
Definition try_except_of {A} (class : exn -> bool) (m : M W A)
    (handler : exn -> M W A) : M W A :=
  fun w =>
    match m w with
    | (Ok a, w') => (Ok a, w')
    | (Raise e, w') => if class e then handler e w' else (Raise e, w')
    end.

(** [try: m  finally: cleanup]: the cleanup runs however [m] ends, and the
    outcome of [m] stands unless the cleanup itself raises. *)
Definition try_finally {A} (m : M W A) (cleanup : M W unit) : M W A :=
  fun w =>
    match m w with
    | (r, w') =>
        match cleanup w' with
        | (Ok _, w'') => (r, w'')
        | (Raise e, w'') => (Raise e, w'')
        end
    end.

End Monad.

(** Reasoning about computations: [wp m w Q] says that running [m] in [w]
    ends in a result and a world that satisfy [Q]. *)
Definition wp {W A} (m : M W A) (w : W) (Q : result A -> W -> Prop) : Prop :=
  Q (m w).1 (m w).2.

Declare Scope py_scope.
Delimit Scope py_scope with py.
Notation "x <- m ;; k" := (bind m (fun x => k))
  (at level 100, m at next level, right associativity) : py_scope.
Notation "m ;;; k" := (bind m (fun _ => k))
  (at level 100, right associativity) : py_scope.

End Py.

Import Py.

(** ** piper-service/config.py *)

Module PiperConfig.

(** [int(s)] on a string: surrounding whitespace is dropped, a sign may come
    first, and single underscores may separate digits. *)
Definition is_space (c : ascii) : bool :=
  let n := nat_of_ascii c in
  ((9 <=? n) && (n <=? 13) || (n =? 32))%nat.

Definition is_digit (c : ascii) : bool :=
  let n := nat_of_ascii c in ((48 <=? n) && (n <=? 57))%nat.

Fixpoint lstrip (s : string) : string :=
  match s with
  | String c s' => if is_space c then lstrip s' else s
  | EmptyString => EmptyString
  end.

Fixpoint rstrip (s : string) : string :=
  match s with
  | String c s' =>
      match rstrip s' with
      | EmptyString => if is_space c then EmptyString else String c EmptyString
      | r => String c r
      end
  | EmptyString => EmptyString
  end.

Fixpoint int_digits (s : string) (acc : Z) (after_digit : bool) : option Z :=
  match s with
  | EmptyString => if after_digit then Some acc else None
  | String c s' =>
      if is_digit c
      then int_digits s' (10 * acc + (Z.of_nat (nat_of_ascii c) - 48)) true
      else if Ascii.eqb c "_" && after_digit
           then int_digits s' acc false
           else None
  end.

Definition int (s : string) : result Z :=
  let t := rstrip (lstrip s) in
  let parsed :=
    match t with
    | String "-" r => Z.opp <$> int_digits r 0 false
    | String "+" r => int_digits r 0 false
    | _ => int_digits t 0 false
    end in
  match parsed with
  | Some n => Ok n
  | None => Raise (PyError "ValueError" ("invalid literal for int() with base 10: " +:+ s))
  end.

(** [s.upper()] on ASCII letters. *)
Definition upper_char (c : ascii) : ascii :=
  let n := nat_of_ascii c in
  if ((97 <=? n) && (n <=? 122))%nat then ascii_of_nat (n - 32) else c.

Fixpoint upper (s : string) : string :=
  match s with
  | String c s' => String (upper_char c) (upper s')
  | EmptyString => EmptyString
  end.

Record ServiceConfig := {
  host : string;
  port : Z;
  models_dir : string;
  default_voice : string;
  max_text_length : Z;
  max_concurrent_requests : Z;
  model_cache_size : Z;
  log_level : string;
  log_file : string
}.

Definition valid_log_levels : list string :=
  ["DEBUG"; "INFO"; "WARNING"; "ERROR"; "CRITICAL"].

Definition value_error (msg : string) : exn := PyError "ValueError" msg.

(** [ServiceConfig._validate] *)
Definition _validate (self : ServiceConfig) : result unit :=
  if (port self <? 1) || (port self >? 65535)
  then Raise (value_error ("Invalid port number: " +:+ str_Z (port self)))
  else if max_text_length self <? 1
  then Raise (value_error ("Invalid max text length: " +:+ str_Z (max_text_length self)))
  else if max_concurrent_requests self <? 1
  then Raise (value_error ("Invalid max concurrent requests: "
                           +:+ str_Z (max_concurrent_requests self)))
  else if model_cache_size self <? 1
  then Raise (value_error ("Invalid model cache size: " +:+ str_Z (model_cache_size self)))
  else if bool_decide (log_level self ∈ valid_log_levels)
  then Ok tt
  else Raise (value_error ("Invalid log level: " +:+ log_level self)).

(** [os.getenv(name, default)] over the process environment. *)
Definition getenv (environ : gmap string string) (name default : string) : string :=
  match environ !! name with
  | Some v => v
  | None => default
  end.

(** The directories the constructor makes sure of: [Path(p)] and
    [Path(p).parent]. *)
Inductive directory :=
| PathOf (p : string)
| ParentOf (p : string).

(** A call of [mkdir(parents=True, exist_ok=True)], and whether it returned. *)
Inductive mkdir_call :=
| Mkdir (d : directory) (made : bool).

Section Init.
(** What the machine answers to a [mkdir], given the calls before it (most
    recent first): the directory is there afterwards, or the call raises, a
    [FileExistsError] when a file is in the way, another [OSError] when the
    directory cannot be written. *)
Context (mkdir_outcome : list mkdir_call -> directory -> result unit).
Local Open Scope py_scope.

Definition mkdir (d : directory) : M (list mkdir_call) unit :=
  fun calls =>
    match mkdir_outcome calls d with
    | Ok _ => (Ok tt, Mkdir d true :: calls)
    | Raise e => (Raise e, Mkdir d false :: calls)
    end.

(** A step that touches nothing: a setting is read, the values are checked. *)
Definition pure {A} (r : result A) : M (list mkdir_call) A :=
  fun calls => (r, calls).

(** [ServiceConfig.__init__]: the settings are read in order, then validated,
    and then the models directory and the directory of the log file are
    made. *)
Definition ServiceConfig_init (environ : gmap string string)
  : M (list mkdir_call) ServiceConfig :=
  let host := getenv environ "PIPER_HOST" "0.0.0.0" in
  port <- pure (int (getenv environ "PIPER_PORT" "9001")) ;;
  let models_dir := getenv environ "PIPER_MODELS_DIR" "models/piper" in
  let default_voice := getenv environ "PIPER_DEFAULT_VOICE" "en_US-lessac-low" in
  max_text_length <- pure (int (getenv environ "PIPER_MAX_TEXT_LENGTH" "10000")) ;;
  max_concurrent_requests <- pure (int (getenv environ "PIPER_MAX_CONCURRENT" "10")) ;;
  model_cache_size <- pure (int (getenv environ "PIPER_MODEL_CACHE_SIZE" "5")) ;;
  let log_level := upper (getenv environ "LOG_LEVEL" "INFO") in
  let log_file := getenv environ "PIPER_LOG_FILE" "logs/piper-service.log" in
  let self := {| host := host; port := port; models_dir := models_dir;
                 default_voice := default_voice; max_text_length := max_text_length;
                 max_concurrent_requests := max_concurrent_requests;
                 model_cache_size := model_cache_size;
                 log_level := log_level; log_file := log_file |} in
  pure (_validate self) ;;;
  mkdir (PathOf models_dir) ;;;
  mkdir (ParentOf log_file) ;;;
  ret self.

End Init.

(** A machine on which every directory can be made, and one on which the
    models directory is made and the directory of the log file is not. *)
Definition mkdir_succeeds (calls : list mkdir_call) (d : directory) : result unit :=
  Ok tt.

Definition log_directory_denied (calls : list mkdir_call) (d : directory) : result unit :=
  match d with
  | PathOf _ => Ok tt
  | ParentOf p => Raise (PyError "PermissionError" ("[Errno 13] Permission denied: " +:+ p))
  end.

(** One entry of the voice catalog. *)
Record VoiceEntry := {
  language : string;
  speaker : string;
  quality : string;
  sample_rate : Z;
  gender : string;
  base_url : string
}.

Definition hf (path : string) : string :=
  "https://huggingface.co/rhasspy/piper-voices/resolve/v1.0.0/" +:+ path.

Definition EXTENDED_VOICE_CATALOG_items : list (string * VoiceEntry) := [
  ("en_US-lessac-medium",
   {| language := "English (US)"; speaker := "Lessac"; quality := "medium";
      sample_rate := 22050; gender := "female";
      base_url := hf "en/en_US/lessac/medium" |});
  ("en_US-lessac-low",
   {| language := "English (US)"; speaker := "Lessac"; quality := "low";
      sample_rate := 16000; gender := "female";
      base_url := hf "en/en_US/lessac/low" |});
  ("en_US-amy-medium",
   {| language := "English (US)"; speaker := "Amy"; quality := "medium";
      sample_rate := 22050; gender := "female";
      base_url := hf "en/en_US/amy/medium" |});
  ("en_US-amy-low",
   {| language := "English (US)"; speaker := "Amy"; quality := "low";
      sample_rate := 16000; gender := "female";
      base_url := hf "en/en_US/amy/low" |});
  ("en_US-danny-low",
   {| language := "English (US)"; speaker := "Danny"; quality := "low";
      sample_rate := 16000; gender := "male";
      base_url := hf "en/en_US/danny/low" |});
  ("en_GB-alan-medium",
   {| language := "English (GB)"; speaker := "Alan"; quality := "medium";
      sample_rate := 22050; gender := "male";
      base_url := hf "en/en_GB/alan/medium" |});
  ("en_GB-alan-low",
   {| language := "English (GB)"; speaker := "Alan"; quality := "low";
      sample_rate := 16000; gender := "male";
      base_url := hf "en/en_GB/alan/low" |});
  ("es_ES-marta-medium",
   {| language := "Spanish (Spain)"; speaker := "Marta"; quality := "medium";
      sample_rate := 22050; gender := "female";
      base_url := hf "es/es_ES/marta/medium" |});
  ("fr_FR-upmc-medium",
   {| language := "French (France)"; speaker := "UPMC"; quality := "medium";
      sample_rate := 22050; gender := "female";
      base_url := hf "fr/fr_FR/upmc/medium" |});
  ("de_DE-thorsten-medium",
   {| language := "German (Germany)"; speaker := "Thorsten"; quality := "medium";
      sample_rate := 22050; gender := "male";
      base_url := hf "de/de_DE/thorsten/medium" |})
].

Definition EXTENDED_VOICE_CATALOG : gmap string VoiceEntry :=
  list_to_map EXTENDED_VOICE_CATALOG_items.

End PiperConfig.

(** ** piper-service/service.py *)

Module Piper.
Import PiperConfig.

(** A file on disk is either complete or the remains of an interrupted
    transfer. *)
Inductive file_state := Complete | Partial.

(** The input/output operations of the service, as they are recorded in the
    trace (most recent first). *)
Inductive event (PiperVoice : Type) :=
| PathExists (path : string) (answer : bool)
| PathStat (path : string)
| PathUnlink (path : string)
| UrlRetrieve (url filename : string) (fetched : bool)
| VoiceLoad (model_path config_path : string) (loaded : option PiperVoice)
| VoiceSynthesize (text : string) (voice_model : PiperVoice).
Arguments PathExists {PiperVoice}.
Arguments PathStat {PiperVoice}.
Arguments PathUnlink {PiperVoice}.
Arguments UrlRetrieve {PiperVoice}.
Arguments VoiceLoad {PiperVoice}.
Arguments VoiceSynthesize {PiperVoice}.

(** The state the service runs in: the models directory, the global
    [voice_models] dictionary and the trace. *)
Record world (PiperVoice : Type) := World {
  fs : gmap string file_state;
  voice_models : gmap string PiperVoice;
  trace : list (event PiperVoice)
}.
Arguments World {PiperVoice}.
Arguments fs {PiperVoice}.
Arguments voice_models {PiperVoice}.
Arguments trace {PiperVoice}.

(** How a transfer ends: the file is written in full, or the transfer raises,
    possibly leaving a partly written file behind. *)
Inductive fetch_outcome :=
| Fetched
| FetchFailed (partial : bool) (msg : string).

(** The content of the WAV buffer: the parameters set on the writer and the
    frames the voice wrote. *)
Record WavData := {
  nchannels : Z;
  sampwidth : Z;
  framerate : Z;
  frames : list Byte.byte
}.

(** What the service does not decide itself: its configuration, the network,
    and the Piper library.  Each oracle sees the trace so far, so that the same
    call may end differently at different times. *)
Record Env (PiperVoice : Type) := {
  config : ServiceConfig;
  urlretrieve_outcome : list (event PiperVoice) -> string -> string -> fetch_outcome;
  PiperVoice_load : list (event PiperVoice) -> string -> string -> result PiperVoice;
  voice_sample_rate : PiperVoice -> Z;
  voice_synthesize : list (event PiperVoice) -> PiperVoice -> string -> result (list Byte.byte)
}.
Arguments config {PiperVoice}.
Arguments urlretrieve_outcome {PiperVoice}.
Arguments PiperVoice_load {PiperVoice}.
Arguments voice_sample_rate {PiperVoice}.
Arguments voice_synthesize {PiperVoice}.

(** Request and response models. *)
Record TTSRequest := {
  text : string;
  voice : option string;
  speed : option Q
}.

Record Response := {
  content : WavData;
  media_type : string
}.

Record VoiceInfo := {
  vi_name : string;
  vi_language : string;
  vi_speaker : string;
  vi_quality : string;
  vi_sample_rate : Z;
  vi_gender : string;
  vi_file_size_known : bool;
  vi_available : bool
}.

Record HealthResponse := {
  status : string;
  voice_models_loaded : nat;
  hr_default_voice : string;
  models_directory : string
}.

Record DownloadVoiceRequest := {
  voice_name : string;
  dv_language : string;
  dv_country : string;
  dv_speaker : string;
  dv_quality : string
}.

Definition VOICE_CATALOG : gmap string VoiceEntry := EXTENDED_VOICE_CATALOG.

Section Service.
Context {PiperVoice : Type} (env : Env PiperVoice).
Local Abbreviation M := (M (world PiperVoice)).

Definition record (e : event PiperVoice) (w : world PiperVoice) : world PiperVoice :=
  World (fs w) (voice_models w) (e :: trace w).

(** [path.exists()] *)
Definition path_exists (path : string) : M bool :=
  fun w =>
    let answer := bool_decide (is_Some (fs w !! path)) in
    (Ok answer, record (PathExists path answer) w).

(** [path.unlink()] *)
Definition path_unlink (path : string) : M unit :=
  fun w =>
    match fs w !! path with
    | Some _ =>
        (Ok tt, World (delete path (fs w)) (voice_models w) (PathUnlink path :: trace w))
    | None =>
        (Raise (PyError "FileNotFoundError" path), record (PathUnlink path) w)
    end.

(** [path.stat()] *)
Definition path_stat (path : string) : M unit :=
  fun w =>
    match fs w !! path with
    | Some _ => (Ok tt, record (PathStat path) w)
    | None => (Raise (PyError "FileNotFoundError" path), record (PathStat path) w)
    end.

(** [urllib.request.urlretrieve(url, filename)] *)
Definition urlretrieve (url filename : string) : M unit :=
  fun w =>
    match urlretrieve_outcome env (trace w) url filename with
    | Fetched =>
        (Ok tt, World (<[filename := Complete]> (fs w)) (voice_models w)
                      (UrlRetrieve url filename true :: trace w))
    | FetchFailed partial msg =>
        (Raise (PyError "URLError" msg),
         World (if partial then <[filename := Partial]> (fs w) else fs w)
               (voice_models w)
               (UrlRetrieve url filename false :: trace w))
    end.

(** [piper.PiperVoice.load(model_path, config_path)], run in the executor. *)
Definition run_PiperVoice_load (model_path config_path : string) : M PiperVoice :=
  fun w =>
    match PiperVoice_load env (trace w) model_path config_path with
    | Ok vm => (Ok vm, record (VoiceLoad model_path config_path (Some vm)) w)
    | Raise e => (Raise e, record (VoiceLoad model_path config_path None) w)
    end.

(** [voice_name in voice_models] and [voice_models[voice_name]] *)
Definition voice_models_get (voice_name : string) : M (option PiperVoice) :=
  fun w => (Ok (voice_models w !! voice_name), w).

(** [voice_models[voice_name] = voice_model] *)
Definition voice_models_set (voice_name : string) (voice_model : PiperVoice) : M unit :=
  fun w => (Ok tt, World (fs w) (<[voice_name := voice_model]> (voice_models w)) (trace w)).

(** [voice_models.clear()] *)
Definition voice_models_clear : M unit :=
  fun w => (Ok tt, World (fs w) ∅ (trace w)).

(** [len(voice_models)] *)
Definition voice_models_len : M nat :=
  fun w => (Ok (size (voice_models w)), w).

End Service.

Section Handlers.
Context {PiperVoice : Type} (env : Env PiperVoice).
Local Abbreviation M := (M (world PiperVoice)).
Local Open Scope py_scope.

Definition model_path_of (voice_name : string) : string :=
  models_dir (config env) +:+ "/" +:+ voice_name +:+ ".onnx".

Definition config_path_of (voice_name : string) : string :=
  models_dir (config env) +:+ "/" +:+ voice_name +:+ ".onnx.json".

Definition catalog_miss (voice_name : string) : exn :=
  HTTPException 404 ("Voice '" +:+ voice_name +:+ "' not found in catalog").

(** [if path.exists(): path.unlink()] for each path in turn. *)
Fixpoint unlink_existing (paths : list string) : M unit :=
  match paths with
  | [] => ret tt
  | path :: rest =>
      present <- path_exists path ;;
      (if present then path_unlink path else ret tt) ;;;
      unlink_existing rest
  end.

(** [download_voice_model] *)
Definition download_voice_model (voice_name : string) : M (string * string) :=
  match VOICE_CATALOG !! voice_name with
  | None => raise (catalog_miss voice_name)
  | Some voice_info =>
      let model_path := model_path_of voice_name in
      let config_path := config_path_of voice_name in
      model_present <- path_exists model_path ;;
      both_present <- (if model_present then path_exists config_path else ret false) ;;
      if both_present then ret (model_path, config_path)
      else
        let base_url := base_url voice_info in
        try_except
          (model_present <- path_exists model_path ;;
           (if negb model_present
            then urlretrieve env (base_url +:+ "/" +:+ voice_name +:+ ".onnx") model_path
            else ret tt) ;;;
           config_present <- path_exists config_path ;;
           (if negb config_present
            then urlretrieve env (base_url +:+ "/" +:+ voice_name +:+ ".onnx.json") config_path
            else ret tt) ;;;
           ret (model_path, config_path))
          (fun e =>
             unlink_existing [model_path; config_path] ;;;
             raise (HTTPException 500 ("Failed to download voice model: " +:+ str e)))
  end.

Definition load_failure (e : exn) : exn :=
  HTTPException 500 ("Failed to load voice model: " +:+ str e).

(** [load_voice_model] *)
Definition load_voice_model (voice_name : string) : M PiperVoice :=
  cached <- voice_models_get voice_name ;;
  match cached with
  | Some voice_model => ret voice_model
  | None =>
      try_except
        (paths <- download_voice_model voice_name ;;
         voice_model <- run_PiperVoice_load env (fst paths) (snd paths) ;;
         voice_models_set voice_name voice_model ;;;
         ret voice_model)
        (fun e => raise (load_failure e))
  end.

(** [synthesize_audio_sync]: the WAV writer is set to one channel of 16-bit
    samples at the model's rate, and the voice writes the frames. *)
Definition synthesize_audio_sync (text : string) (voice_model : PiperVoice) : M WavData :=
  fun w =>
    match voice_synthesize env (trace w) voice_model text with
    | Ok written =>
        (Ok {| nchannels := 1; sampwidth := 2;
               framerate := voice_sample_rate env voice_model;
               frames := written |},
         record (VoiceSynthesize text voice_model) w)
    | Raise e => (Raise e, record (VoiceSynthesize text voice_model) w)
    end.

(** [request.voice or config.default_voice] *)
Definition voice_or_default (request : TTSRequest) : string :=
  match voice request with
  | Some v => if String.eqb v "" then default_voice (config env) else v
  | None => default_voice (config env)
  end.

Definition tts_failure (e : exn) : exn :=
  HTTPException 500 ("TTS generation failed: " +:+ str e).

(** [text_to_speech], the handler of [POST /tts]. *)
Definition text_to_speech (request : TTSRequest) : M Response :=
  try_except
    (let voice_name := voice_or_default request in
     voice_model <- load_voice_model voice_name ;;
     audio_data <- synthesize_audio_sync (text request) voice_model ;;
     ret {| content := audio_data; media_type := "audio/wav" |})
    (fun e => raise (tts_failure e)).

(** The field constraints of [TTSRequest]: [min_length=1], [max_length=10000]
    on the text, [ge=0.5], [le=2.0] on the speed.  The length of a Python
    string counts its characters. *)
Definition TTSRequest_validate (request : TTSRequest) : result TTSRequest :=
  let n := Z.of_nat (String.length (text request)) in
  if n <? 1 then Raise (RequestValidationError "text")
  else if n >? 10000 then Raise (RequestValidationError "text")
  else match speed request with
       | None => Ok request
       | Some s =>
           if Qle_bool (1 # 2) s && Qle_bool s 2 then Ok request
           else Raise (RequestValidationError "speed")
       end.

(** [POST /tts] as the framework runs it: the body is validated against the
    request model, and only a valid request is handed to the handler. *)
Definition post_tts (request : TTSRequest) : M Response :=
  match TTSRequest_validate request with
  | Raise e => raise e
  | Ok request => text_to_speech request
  end.

(** [list_voices], the handler of [GET /voices]. *)
Definition voice_info_of (name : string) (info : VoiceEntry) : M VoiceInfo :=
  let model_path := model_path_of name in
  let config_path := config_path_of name in
  model_present <- path_exists model_path ;;
  available <- (if model_present then path_exists config_path else ret false) ;;
  still_present <- (if available then path_exists model_path else ret false) ;;
  (if still_present then path_stat model_path else ret tt) ;;;
  ret {| vi_name := name; vi_language := language info; vi_speaker := speaker info;
         vi_quality := quality info; vi_sample_rate := sample_rate info;
         vi_gender := gender info; vi_file_size_known := still_present;
         vi_available := available |}.

Fixpoint list_voices_from (items : list (string * VoiceEntry)) : M (list VoiceInfo) :=
  match items with
  | [] => ret []
  | (name, info) :: rest =>
      v <- voice_info_of name info ;;
      vs <- list_voices_from rest ;;
      ret (v :: vs)
  end.

Definition list_voices : M (list VoiceInfo) :=
  list_voices_from EXTENDED_VOICE_CATALOG_items.

(** [health_check], the handler of [GET /health]. *)
Definition health_check : M HealthResponse :=
  loaded <- voice_models_len ;;
  ret {| status := "healthy"; voice_models_loaded := loaded;
         hr_default_voice := default_voice (config env);
         models_directory := models_dir (config env) |}.

(** [download_voice], the handler of [POST /download-voice].  The answer says
    whether a background download of the voice was scheduled. *)
Inductive download_status := already_exists | downloading.

Definition download_voice (request : DownloadVoiceRequest) : M download_status :=
  let voice_name := voice_name request in
  match VOICE_CATALOG !! voice_name with
  | None => raise (catalog_miss voice_name)
  | Some _ =>
      model_present <- path_exists (model_path_of voice_name) ;;
      both_present <- (if model_present
                       then path_exists (config_path_of voice_name) else ret false) ;;
      if both_present then ret already_exists else ret downloading
  end.

(** The background task [download_voice] schedules: its exception, if any,
    has no caller left to reach. *)
Definition background_download (voice_name : string) : M unit :=
  try_except (download_voice_model voice_name ;;; ret tt) (fun _ => ret tt).

(** [startup_event]: the default voice is loaded ahead of the first request;
    a failure is logged and the service starts all the same. *)
Definition startup_event : M unit :=
  try_except (load_voice_model (default_voice (config env)) ;;; ret tt)
             (fun _ => ret tt).

(** [shutdown_event] *)
Definition shutdown_event : M unit := voice_models_clear.

(** *** The two halves of [load_voice_model]

    [load_voice_model] gives up control once, while the executor runs
    [PiperVoice.load]; [download_voice_model] has no such point.  Other
    requests run between the two halves. *)
Definition load_voice_model_begin (voice_name : string)
  : M (PiperVoice + string * string) :=
  cached <- voice_models_get voice_name ;;
  match cached with
  | Some voice_model => ret (inl voice_model)
  | None =>
      try_except
        (paths <- download_voice_model voice_name ;; ret (inr paths))
        (fun e => raise (load_failure e))
  end.

Definition load_voice_model_resume (voice_name : string) (paths : string * string)
  : M PiperVoice :=
  try_except
    (voice_model <- run_PiperVoice_load env (fst paths) (snd paths) ;;
     voice_models_set voice_name voice_model ;;;
     ret voice_model)
    (fun e => raise (load_failure e)).

(** *** The service as a whole

    The atomic steps of the event loop.  A load that has given up control is
    kept with the paths it will load from. *)
Record pending_load := PendingLoad {
  pl_voice : string;
  pl_paths : string * string
}.

Record system := System {
  sys_world : world PiperVoice;
  sys_pending : list pending_load
}.

Inductive action :=
| LoadBegin (voice_name : string)
| LoadResume (index : nat)
| Synthesize (text : string) (voice_model : PiperVoice)
| ListVoices
| HealthCheck
| DownloadVoice (request : DownloadVoiceRequest)
| BackgroundDownload (voice_name : string)
| Shutdown.

Definition perform (a : action) (s : system) : system :=
  match a with
  | LoadBegin voice_name =>
      match load_voice_model_begin voice_name (sys_world s) with
      | (Ok (inr paths), w') => System w' (PendingLoad voice_name paths :: sys_pending s)
      | (_, w') => System w' (sys_pending s)
      end
  | LoadResume index =>
      match sys_pending s !! index with
      | Some p =>
          System (snd (load_voice_model_resume (pl_voice p) (pl_paths p) (sys_world s)))
                 (delete index (sys_pending s))
      | None => s
      end
  | Synthesize text voice_model =>
      System (snd (synthesize_audio_sync text voice_model (sys_world s))) (sys_pending s)
  | ListVoices => System (snd (list_voices (sys_world s))) (sys_pending s)
  | HealthCheck => System (snd (health_check (sys_world s))) (sys_pending s)
  | DownloadVoice request =>
      System (snd (download_voice request (sys_world s))) (sys_pending s)
  | BackgroundDownload voice_name =>
      System (snd (background_download voice_name (sys_world s))) (sys_pending s)
  | Shutdown => System (snd (shutdown_event (sys_world s))) (sys_pending s)
  end.

Definition run (actions : list action) (s : system) : system :=
  fold_left (fun s a => perform a s) actions s.

(** *** [text_to_speech] among other requests

    [text_to_speech] gives up control twice: inside [load_voice_model], when
    the voice is not in the dictionary, and while the executor runs
    [synthesize_audio_sync] with the handle the load returned.  The steps of
    other requests run in between: [during_load] while the load waits, and
    [before_synthesis] until the executor gets to the synthesis. *)
Definition synthesize_response (request : TTSRequest) (voice_model : PiperVoice)
    (s : system) : result Response * system :=
  match synthesize_audio_sync (text request) voice_model (sys_world s) with
  | (Ok audio_data, w') =>
      (Ok {| content := audio_data; media_type := "audio/wav" |},
       System w' (sys_pending s))
  | (Raise e, w') => (Raise (tts_failure e), System w' (sys_pending s))
  end.

Definition text_to_speech_among (request : TTSRequest)
    (during_load before_synthesis : list action) (s : system)
  : result Response * system :=
  let voice_name := voice_or_default request in
  match load_voice_model_begin voice_name (sys_world s) with
  | (Ok (inl voice_model), w1) =>
      synthesize_response request voice_model
        (run before_synthesis (System w1 (sys_pending s)))
  | (Ok (inr paths), w1) =>
      let s1 := run during_load (System w1 (sys_pending s)) in
      match load_voice_model_resume voice_name paths (sys_world s1) with
      | (Ok voice_model, w2) =>
          synthesize_response request voice_model
            (run before_synthesis (System w2 (sys_pending s1)))
      | (Raise e, w2) => (Raise (tts_failure e), System w2 (sys_pending s1))
      end
  | (Raise e, w1) => (Raise (tts_failure e), System w1 (sys_pending s))
  end.

(** The service starts with an empty dictionary and nothing done yet. *)
Definition boot (disk : gmap string file_state) : system :=
  System (World disk ∅ []) [].

(** *** What the cache promises

    An artifact is ready when the trace shows it on disk or fetched in full;
    a handle is a loaded model of a voice when the trace holds a successful
    [PiperVoice.load] of the voice's two artifacts, both ready by then. *)
Definition artifact_ready (path : string) (tr : list (event PiperVoice)) : Prop :=
  PathExists path true ∈ tr ∨ ∃ url, UrlRetrieve url path true ∈ tr.

Definition loaded_model (voice_name : string) (voice_model : PiperVoice)
    (tr : list (event PiperVoice)) : Prop :=
  is_Some (VOICE_CATALOG !! voice_name) ∧
  ∃ later earlier,
    tr = later ++ VoiceLoad (model_path_of voice_name) (config_path_of voice_name)
                            (Some voice_model) :: earlier ∧
    artifact_ready (model_path_of voice_name) earlier ∧
    artifact_ready (config_path_of voice_name) earlier.

(** *** Invariants of the service

    [grows w w'] says that [w'] has the cache of [w] and a trace that
    continues the trace of [w]; a computation is quiet when it takes every
    world to one that grows it. *)
Definition grows (w w' : world PiperVoice) : Prop :=
  voice_models w' = voice_models w ∧ ∃ evs, trace w' = evs ++ trace w.

Definition quiet {A} (m : M A) : Prop :=
  forall w, wp m w (fun _ w' => grows w w').

(** [keeps_files w w'] says that every file of [w] is still on the disk of
    [w'], and that the trace of [w'] continues the trace of [w]. *)
Definition keeps_files (w w' : world PiperVoice) : Prop :=
  (forall path, is_Some (fs w !! path) -> is_Some (fs w' !! path)) ∧
  ∃ evs, trace w' = evs ++ trace w.

Definition keeps {A} (m : M A) : Prop :=
  forall w, wp m w (fun _ w' => keeps_files w w').

(** [spares paths w w'] says that [w'] has the cache of [w] and, away from
    [paths], the disk of [w]; a computation is confined to [paths] when it
    takes every world to one that it spares in this sense. *)
Definition spares (paths : list string) (w w' : world PiperVoice) : Prop :=
  voice_models w' = voice_models w ∧
  forall path, path ∉ paths -> fs w' !! path = fs w !! path.

Definition confined (paths : list string) {A} (m : M A) : Prop :=
  forall w, wp m w (fun _ w' => spares paths w w').

(** [same_disk w w'] says that [w'] has the disk and the cache of [w]; a
    computation only looks when it takes every world to such a one. *)
Definition same_disk (w w' : world PiperVoice) : Prop :=
  fs w' = fs w ∧ voice_models w' = voice_models w.

Definition only_looks {A} (m : M A) : Prop :=
  forall w, wp m w (fun _ w' => same_disk w w').

(** Every cached handle is a loaded model, and every load that has given up
    control holds the paths of a catalog voice whose artifacts are ready. *)
Definition sound (s : system) : Prop :=
  (forall voice_name vm,
      voice_models (sys_world s) !! voice_name = Some vm ->
      loaded_model voice_name vm (trace (sys_world s))) ∧
  (forall p, p ∈ sys_pending s ->
      is_Some (VOICE_CATALOG !! pl_voice p) ∧
      pl_paths p = (model_path_of (pl_voice p), config_path_of (pl_voice p)) ∧
      artifact_ready (model_path_of (pl_voice p)) (trace (sys_world s)) ∧
      artifact_ready (config_path_of (pl_voice p)) (trace (sys_world s))).

End Handlers.

(** *** Sample deployments

    A handle is named after the model file it was loaded from; the network
    answers by URL; the library loads and synthesizes whatever it is given. *)
Definition fallback_config : ServiceConfig :=
  {| host := "0.0.0.0"; port := 9001; models_dir := "models/piper";
     default_voice := "en_US-lessac-low"; max_text_length := 10000;
     max_concurrent_requests := 10; model_cache_size := 5;
     log_level := "INFO"; log_file := "logs/piper-service.log" |}.

Definition config_from (environ : gmap string string) : ServiceConfig :=
  match (ServiceConfig_init mkdir_succeeds environ []).1 with
  | Ok c => c
  | Raise _ => fallback_config
  end.

Definition deployment (environ : gmap string string)
    (network : string -> fetch_outcome) : Env string :=
  {| config := config_from environ;
     urlretrieve_outcome := fun _ url _ => network url;
     PiperVoice_load := fun _ model_path _ => Ok model_path;
     voice_sample_rate := fun _ => 16000;
     voice_synthesize := fun _ _ _ => Ok [] |}.

Definition network_up (url : string) : fetch_outcome := Fetched.

(** A network on which model files arrive and metadata files break off. *)
Definition ends_with (suffix s : string) : bool :=
  let n := String.length s in
  let k := String.length suffix in
  (k <=? n)%nat && String.eqb (String.substring (n - k) k s) suffix.

Definition network_drops_metadata (url : string) : fetch_outcome :=
  if ends_with ".json" url then FetchFailed true "retrieval incomplete" else Fetched.

Definition empty_world : world string := World ∅ ∅ [].

Definition disk_with_amy_model : world string :=
  World {[ "models/piper/en_US-amy-low.onnx" := Complete ]} ∅ [].

Fixpoint repeat_char (c : ascii) (n : nat) : string :=
  match n with
  | O => ""
  | S n' => String c (repeat_char c n')
  end.

Definition long_text : string := repeat_char "a" (Z.to_nat 10001).

(** A deployment whose environment sets the maximum text length to five. *)
Definition short_limit_environ : gmap string string :=
  {[ "PIPER_MAX_TEXT_LENGTH" := "5" ]}.

End Piper.

(** ** Python floats

    A finite [float] is the rational number it denotes.  Arithmetic that
    rounds is written with the rounding to the nearest binary64 value, ties to
    even, made explicit; overflow to infinity and the sign of zero are not
    modelled. *)

Module PyFloat.
Local Open Scope Q_scope.

Definition float : Type := Q.
Bind Scope Q_scope with float.

(** [2 ** e] for an integer [e] of either sign. *)
Definition pow2 (e : Z) : Q := 2 ^ e.

(** The nearest integer, ties to even. *)
Definition round_half_even (q : Q) : Z :=
  let f := Qfloor q in
  match Qcompare (q - inject_Z f) (1 # 2) with
  | Lt => f
  | Gt => (f + 1)%Z
  | Eq => if Z.even f then f else (f + 1)%Z
  end.

(** The largest [e] with [2 ** e <= q], for positive [q]. *)
Definition ilog2 (q : Q) : Z :=
  let e := (Z.log2 (Qnum q) - Z.log2 (Zpos (Qden q)))%Z in
  if Qle_bool (pow2 e) q then e else (e - 1)%Z.

(** Rounding to binary64: 53 significant bits, exponent no less than -1074. *)
Definition round64 (q : Q) : float :=
  if Qeq_bool q 0 then 0
  else
    let a := Qabs q in
    let e := Z.max (ilog2 a - 52) (-1074) in
    let r := Qred (inject_Z (round_half_even (a / pow2 e)) * pow2 e) in
    if Qle_bool 0 q then r else - r.

(** The values a binary64 can hold. *)
Definition is_binary64 (q : Q) : bool := Qeq_bool (round64 q) q.

Definition mul (x y : float) : float := round64 (x * y).
Definition add (x y : float) : float := round64 (x + y).
Definition sub (x y : float) : float := round64 (x - y).
Definition div (x y : float) : float := round64 (x / y).

(** [int(x)]: truncation towards zero. *)
Definition int (x : float) : Z :=
  if Qle_bool 0 x then Qfloor x else Qceiling x.

(** C's [fmod]: the remainder with the sign of [x]; it is exact. *)
Definition fmod (x y : float) : float :=
  Qred (x - y * inject_Z (int (x / y))).

Definition negative (x : float) : bool := negb (Qle_bool 0 x).

(** [divmod] on floats, as CPython computes it.  The divisor is not zero at
    any call in the service. *)
Definition float_divmod (vx wx : float) : float * float :=
  let md := fmod vx wx in
  let dv := div (sub vx md) wx in
  let '(md, dv) :=
    if Qeq_bool md 0 then (0, dv)
    else if xorb (negative wx) (negative md) then (add md wx, sub dv 1)
    else (md, dv) in
  let floordiv :=
    if Qeq_bool dv 0 then 0
    else
      let fl := inject_Z (Qfloor dv) in
      if Qle_bool (dv - fl) (1 # 2) then fl else add fl 1 in
  (floordiv, md).

(** [x // y] and [x % y] *)
Definition floordiv (x y : float) : float := fst (float_divmod x y).
Definition modulo (x y : float) : float := snd (float_divmod x y).

(** The format specification [0<width>.3f]: the value rounded to three
    decimals, ties to even, with the sign first and zeros up to the width.
    [format_thousandths] prints the rounded value, counted in thousandths. *)
Definition format_thousandths (width : nat) (minus : bool) (r : Z) : string :=
  let body := digits (r / 1000) +:+ "." +:+ format_0d 3 (r mod 1000) in
  if minus
  then "-" +:+ zeros (width - 1 - String.length body) +:+ body
  else zeros (width - String.length body) +:+ body.

Definition format_03f (width : nat) (x : float) : string :=
  format_thousandths width (negative x) (round_half_even (Qabs x * 1000)).

(** The processor's floats, to compare the rounding with: the exact value of
    a finite binary64, and whether an operation of the model agrees with the
    processor's on a pair of operands. *)
Module Hardware.
Import PrimFloat.

Definition value (f : PrimFloat.float) : option Q :=
  match FloatOps.Prim2SF f with
  | SpecFloat.S754_zero _ => Some 0
  | SpecFloat.S754_finite s m e =>
      Some ((if s then - (1) else 1) * inject_Z (Zpos m) * pow2 e)
  | _ => None
  end.

Definition agree (op : Q -> Q -> Q)
    (hw : PrimFloat.float -> PrimFloat.float -> PrimFloat.float)
    (operands : PrimFloat.float * PrimFloat.float) : bool :=
  match value (fst operands), value (snd operands),
        value (hw (fst operands) (snd operands)) with
  | Some x, Some y, Some z => Qeq_bool (op x y) z
  | _, _, _ => false
  end.

(** Among them 0.007, 0.001, 1.1, 0.1, the largest float below one, the
    smallest positive float and its neighbours, and 3661.5. *)
Definition samples : list (PrimFloat.float * PrimFloat.float) :=
  [ (0x1.cac083126e979p-8, 1000); (0x1.0624dd2f1a9fcp-10, 1000);
    (0x1.199999999999ap+0, 0x1.199999999999ap+0);
    (0x0.012688b70e62bp-1022, 0x1.3333333333333p-2);
    (0x0.00000000007e8p-1022, 1000); (0x1.fffffff768fa1p-1, 1000);
    (0x1.e240c9fbe76c9p+16, 1000); (3, 0x1.999999999999ap-4);
    (0x0.0000000000001p-1022, 0.5); (0x0.0000000000001p-1022, 1.5);
    (0x1.fffffffffffffp-1, 1000); (3661.5, 3600);
    (0x1.7e43c8800759cp+996, 7) ]%float.

End Hardware.

End PyFloat.

(** ** whisper-service/service.py *)

Module Whisper.
Import PyFloat.
Local Open Scope py_scope.

(** What the recognizer returns. *)
Record Word := {
  word : string;
  word_start : float;
  word_end : float;
  probability : float
}.

Record Segment := {
  seg_start : float;
  seg_end : float;
  seg_text : string;
  seg_words : option (list Word)
}.

Record TranscriptionInfo := {
  info_language : string;
  language_probability : float;
  duration : float
}.

(** The arguments of [model.transcribe]; [None] leaves an argument at the
    library's default. *)
Record TranscribeOptions := {
  task : option string;
  language : option string;
  initial_prompt : option string;
  beam_size : Z;
  best_of : Z;
  temperature : option float;
  compression_ratio_threshold : option float;
  log_prob_threshold : option float;
  no_speech_threshold : option float;
  condition_on_previous_text : option bool;
  word_timestamps : option bool
}.

(** [Settings.get_whisper_config()] of whisper-service/config.py. *)
Record WhisperConfig := {
  wc_beam_size : Z;
  wc_temperature : float;
  wc_no_speech_threshold : float;
  wc_condition_on_previous_text : bool
}.

Definition get_whisper_config : WhisperConfig :=
  {| wc_beam_size := 5; wc_temperature := 0; wc_no_speech_threshold := 6 # 10;
     wc_condition_on_previous_text := true |}.

Inductive event :=
| TempFileWritten (path : string) (content : list Byte.byte)
| TempFileFailed (path : string) (remains : option (list Byte.byte))
| Unlink (path : string)
| UnlinkFailed (path : string)
| Transcribe (path : string) (options : TranscribeOptions)
             (returned : option (list Segment * TranscriptionInfo)).

(** How the staging of an upload ends: the temporary file holds the upload,
    or the block raises, before the file is created or with the file left
    behind holding what had been written by then. *)
Inductive staging :=
| Staged
| StagingFailed (remains : option (list Byte.byte)) (e : exn).

(** The disk, with the content of each file, and the trace (most recent
    first). *)
Record world := World {
  fs : gmap string (list Byte.byte);
  trace : list event
}.

(** The name the system picks for a temporary file, how the staging of an
    upload ends, the message of the [OSError] with which [os.unlink] fails on
    a file that is there, if it does, and the recognizer.  An exception of the
    recognizer stands for one raised by [model.transcribe] or while the
    segments are read. *)
Record Env := {
  temp_name : list event -> string;
  stage_outcome : list event -> list Byte.byte -> staging;
  unlink_error : list event -> string -> option string;
  model_transcribe :
    list event -> string -> TranscribeOptions -> result (list Segment * TranscriptionInfo)
}.

(** What [transcribe_audio] returns: the dictionary with the one key [text],
    [vtt] or [srt], or the document [_format_json_output] builds from the
    segments and the info. *)
Inductive transcript :=
| text_of (text : string)
| vtt_of (vtt : string)
| srt_of (srt : string)
| json_of (segments : list Segment) (info : TranscriptionInfo).

Definition newline : string := String (ascii_of_nat 10) "".

(** [_seconds_to_vtt_time] *)
Definition _seconds_to_vtt_time (seconds : float) : string :=
  let hours := int (floordiv seconds 3600) in
  let minutes := int (floordiv (modulo seconds 3600) 60) in
  let seconds := modulo seconds 60 in
  format_0d 2 hours +:+ ":" +:+ format_0d 2 minutes +:+ ":" +:+ format_03f 6 seconds.

(** [_seconds_to_srt_time] *)
Definition _seconds_to_srt_time (seconds : float) : string :=
  let hours := int (floordiv seconds 3600) in
  let minutes := int (floordiv (modulo seconds 3600) 60) in
  let seconds := modulo seconds 60 in
  let milliseconds := int (mul (modulo seconds 1) 1000) in
  let seconds := int seconds in
  format_0d 2 hours +:+ ":" +:+ format_0d 2 minutes +:+ ":" +:+ format_0d 2 seconds
    +:+ "," +:+ format_0d 3 milliseconds.

(** [enumerate(xs, start)] *)
Fixpoint enumerate {A} (start : Z) (xs : list A) : list (Z * A) :=
  match xs with
  | [] => []
  | x :: xs' => (start, x) :: enumerate (start + 1) xs'
  end.

(** The lines [_format_vtt_output] collects, one cue after the other. *)
Definition vtt_lines (segments : list Segment) : list string :=
  fold_left
    (fun lines segment =>
       let start_time := _seconds_to_vtt_time (seg_start segment) in
       let end_time := _seconds_to_vtt_time (seg_end segment) in
       lines ++ [start_time +:+ " --> " +:+ end_time] ++ [seg_text segment] ++ [""])
    segments ["WEBVTT"; ""].

(** [_format_vtt_output] *)
Definition _format_vtt_output (segments : list Segment) : string :=
  join newline (vtt_lines segments).

(** The lines [_format_srt_output] collects. *)
Definition srt_lines (segments : list Segment) : list string :=
  fold_left
    (fun lines '(i, segment) =>
       let start_time := _seconds_to_srt_time (seg_start segment) in
       let end_time := _seconds_to_srt_time (seg_end segment) in
       lines ++ [str_Z i] ++ [start_time +:+ " --> " +:+ end_time]
             ++ [seg_text segment] ++ [""])
    (enumerate 1 segments) [].

(** [_format_srt_output] *)
Definition _format_srt_output (segments : list Segment) : string :=
  join newline (srt_lines segments).

Section Service.
Context (env : Env).
Local Abbreviation M := (M world).

Definition record (e : event) (w : world) : world :=
  World (fs w) (e :: trace w).

(** [with tempfile.NamedTemporaryFile(delete=False, suffix=".wav")]: the
    upload is written to a file of the system's choosing, which stays on disk
    when the block is left, also when the block is left by an exception of
    the read or of the write. *)
Definition stage_upload (content : list Byte.byte) : M string :=
  fun w =>
    let temp_path := temp_name env (trace w) in
    match stage_outcome env (trace w) content with
    | Staged =>
        (Ok temp_path,
         World (<[temp_path := content]> (fs w))
               (TempFileWritten temp_path content :: trace w))
    | StagingFailed remains e =>
        (Raise e,
         World (match remains with
                | Some written => <[temp_path := written]> (fs w)
                | None => fs w
                end)
               (TempFileFailed temp_path remains :: trace w))
    end.

(** [os.unlink(path)] *)
Definition os_unlink (path : string) : M unit :=
  fun w =>
    match fs w !! path with
    | Some _ =>
        match unlink_error env (trace w) path with
        | None => (Ok tt, World (delete path (fs w)) (Unlink path :: trace w))
        | Some msg => (Raise (PyError "OSError" msg), record (UnlinkFailed path) w)
        end
    | None => (Raise (PyError "FileNotFoundError" path), record (UnlinkFailed path) w)
    end.

Definition is_OSError (e : exn) : bool :=
  match e with
  | PyError kind _ =>
      bool_decide (kind ∈ ["OSError"; "FileNotFoundError"; "PermissionError";
                           "IsADirectoryError"])
  | _ => false
  end.

(** [self.model.transcribe(path, ...)], the segments read to the end. *)
Definition transcribe_call (path : string) (options : TranscribeOptions)
  : M (list Segment * TranscriptionInfo) :=
  fun w =>
    match model_transcribe env (trace w) path options with
    | Ok r => (Ok r, record (Transcribe path options (Some r)) w)
    | Raise e => (Raise e, record (Transcribe path options None) w)
    end.

(** The [finally] clause of both methods. *)
Definition remove_temp_file (temp_path : string) : M unit :=
  try_except_of is_OSError (os_unlink temp_path) (fun _ => ret tt).

(** [WhisperService.transcribe_audio] *)
Definition transcribe_audio (audio : list Byte.byte) (task : string)
    (language initial_prompt : option string) (output_format : string)
  : M transcript :=
  temp_path <- stage_upload audio ;;
  try_finally
    (try_except
       (let whisper_config := get_whisper_config in
        r <- transcribe_call temp_path
               {| task := Some task;
                  language := language;
                  initial_prompt := initial_prompt;
                  beam_size := wc_beam_size whisper_config;
                  best_of := 5;
                  temperature := Some (wc_temperature whisper_config);
                  compression_ratio_threshold := Some (24 # 10)%Q;
                  log_prob_threshold := Some (- (1))%Q;
                  no_speech_threshold := Some (wc_no_speech_threshold whisper_config);
                  condition_on_previous_text :=
                    Some (wc_condition_on_previous_text whisper_config);
                  word_timestamps := Some (String.eqb output_format "json") |} ;;
        let segments := fst r in
        let info := snd r in
        if String.eqb output_format "json" then ret (json_of segments info)
        else if String.eqb output_format "txt"
        then ret (text_of (join " " (map seg_text segments)))
        else if String.eqb output_format "vtt"
        then ret (vtt_of (_format_vtt_output segments))
        else if String.eqb output_format "srt"
        then ret (srt_of (_format_srt_output segments))
        else ret (text_of (join " " (map seg_text segments))))
       (fun e => raise (HTTPException 500 ("Transcription failed: " +:+ str e))))
    (remove_temp_file temp_path).

(** [WhisperService.detect_language] *)
Definition detect_language (audio : list Byte.byte) : M (string * float) :=
  temp_path <- stage_upload audio ;;
  try_finally
    (try_except
       (r <- transcribe_call temp_path
               {| task := None; language := None; initial_prompt := None;
                  beam_size := 1; best_of := 1; temperature := None;
                  compression_ratio_threshold := None; log_prob_threshold := None;
                  no_speech_threshold := None; condition_on_previous_text := None;
                  word_timestamps := None |} ;;
        let info := snd r in
        ret (info_language info, language_probability info))
       (fun e => raise (HTTPException 500 ("Language detection failed: " +:+ str e))))
    (remove_temp_file temp_path).

End Service.

(** The arguments [transcribe_audio] and [detect_language] pass to the
    recognizer, and the dictionary [transcribe_audio] builds from what the
    recognizer returns. *)
Definition transcribe_options (task : string) (language initial_prompt : option string)
    (output_format : string) : TranscribeOptions :=
  {| task := Some task;
     language := language;
     initial_prompt := initial_prompt;
     beam_size := 5; best_of := 5; temperature := Some 0%Q;
     compression_ratio_threshold := Some (24 # 10)%Q;
     log_prob_threshold := Some (- (1))%Q;
     no_speech_threshold := Some (6 # 10)%Q;
     condition_on_previous_text := Some true;
     word_timestamps := Some (String.eqb output_format "json") |}.

Definition rendered (output_format : string)
    (r : list Segment * TranscriptionInfo) : transcript :=
  if String.eqb output_format "json" then json_of (fst r) (snd r)
  else if String.eqb output_format "txt" then text_of (join " " (map seg_text (fst r)))
  else if String.eqb output_format "vtt" then vtt_of (_format_vtt_output (fst r))
  else if String.eqb output_format "srt" then srt_of (_format_srt_output (fst r))
  else text_of (join " " (map seg_text (fst r))).

Definition detect_options : TranscribeOptions :=
  {| task := None; language := None; initial_prompt := None;
     beam_size := 1; best_of := 1; temperature := None;
     compression_ratio_threshold := None; log_prob_threshold := None;
     no_speech_threshold := None; condition_on_previous_text := None;
     word_timestamps := None |}.

(** The text the specification asks of the [txt] output: the texts of the
    segments, in order, with one space between neighbours. *)
Fixpoint space_joined (texts : list string) : string :=
  match texts with
  | [] => ""
  | [t] => t
  | t :: rest => t +:+ " " +:+ space_joined rest
  end.

(** [is_timestamp sep s]: [s] reads HH:MM:SS, the separator, mmm. *)
Definition is_digit (c : ascii) : bool :=
  let n := nat_of_ascii c in ((48 <=? n) && (n <=? 57))%nat.

Definition is_timestamp (sep : ascii) (s : string) : bool :=
  match s with
  | String h1 (String h2 (String c1 (String m1 (String m2 (String c2
      (String s1 (String s2 (String p (String f1 (String f2 (String f3
         EmptyString))))))))))) =>
      is_digit h1 && is_digit h2 && Ascii.eqb c1 ":" &&
      is_digit m1 && is_digit m2 && Ascii.eqb c2 ":" &&
      is_digit s1 && is_digit s2 && Ascii.eqb p sep &&
      is_digit f1 && is_digit f2 && is_digit f3
  | _ => false
  end.

(** The shapes of the fields of a timestamp, and a check of a property for
    every integer from zero up to a bound. *)
Definition two_digits (s : string) : bool :=
  match s with
  | String a (String b EmptyString) => is_digit a && is_digit b
  | _ => false
  end.

Definition three_digits (s : string) : bool :=
  match s with
  | String a (String b (String c EmptyString)) => is_digit a && is_digit b && is_digit c
  | _ => false
  end.

Definition seconds_field (sep : ascii) (s : string) : bool :=
  match s with
  | String a (String b (String p (String c (String d (String e EmptyString))))) =>
      is_digit a && is_digit b && Ascii.eqb p sep && is_digit c && is_digit d && is_digit e
  | _ => false
  end.

Definition holds_below (P : Z -> bool) (n : nat) : bool :=
  forallb P (map Z.of_nat (seq 0 n)).

(** The four lines of the cue numbered [i]. *)
Definition srt_cue (i : Z) (segment : Segment) : list string :=
  [ str_Z i;
    _seconds_to_srt_time (seg_start segment) +:+ " --> "
      +:+ _seconds_to_srt_time (seg_end segment);
    seg_text segment;
    "" ].

(** What the recognizer returns when [transcribe_audio] calls it in [w]; when
    the upload cannot be staged the recognizer is not called, and the
    exception of the staging stands in its place. *)
Definition recognized (env : Env) (audio : list Byte.byte) (task : string)
    (language initial_prompt : option string) (output_format : string) (w : world)
  : result (list Segment * TranscriptionInfo) :=
  let temp_path := temp_name env (trace w) in
  match stage_outcome env (trace w) audio with
  | Staged =>
      model_transcribe env (TempFileWritten temp_path audio :: trace w) temp_path
        (transcribe_options task language initial_prompt output_format)
  | StagingFailed _ e => Raise e
  end.

(** What a call of the recognizer leaves in the trace. *)
Definition returned_of {A} (r : result A) : option A :=
  match r with
  | Ok a => Some a
  | Raise _ => None
  end.

(** The world the [finally] clause leaves when the recognizer has been
    called, [called] being the trace by then: the temporary file unlinked,
    or, when [os.unlink] fails, still there. *)
Definition after_cleanup (env : Env) (temp_path : string) (audio : list Byte.byte)
    (called : list event) (w : world) : world :=
  match unlink_error env called temp_path with
  | None => World (delete temp_path (<[temp_path := audio]> (fs w))) (Unlink temp_path :: called)
  | Some _ => World (<[temp_path := audio]> (fs w)) (UnlinkFailed temp_path :: called)
  end.

(** The world a failed staging leaves. *)
Definition after_failed_staging (temp_path : string) (remains : option (list Byte.byte))
    (w : world) : world :=
  World (match remains with
         | Some written => <[temp_path := written]> (fs w)
         | None => fs w
         end)
        (TempFileFailed temp_path remains :: trace w).

(** Sample runs: a recognizer that hears two segments, one that fails. *)
Definition two_segments : list Segment :=
  [ {| seg_start := 0; seg_end := 5 # 2; seg_text := "Hello there.";
       seg_words := None |};
    {| seg_start := 5 # 2; seg_end := 7323 # 2; seg_text := "General Kenobi.";
       seg_words := None |} ].

Definition english : TranscriptionInfo :=
  {| info_language := "en"; language_probability := 1; duration := 7323 # 2 |}.

Definition hears_two_segments : Env :=
  {| temp_name := fun _ => "/tmp/tmpa1b2c3.wav";
     stage_outcome := fun _ _ => Staged;
     unlink_error := fun _ _ => None;
     model_transcribe := fun _ _ _ => Ok (two_segments, english) |}.

Definition hears_nothing : Env :=
  {| temp_name := fun _ => "/tmp/tmpa1b2c3.wav";
     stage_outcome := fun _ _ => Staged;
     unlink_error := fun _ _ => None;
     model_transcribe := fun _ _ _ => Raise (PyError "RuntimeError" "decoder failed") |}.

(** A machine on which the temporary file cannot be unlinked, and one whose
    disk is full when the upload is written. *)
Definition unlink_denied : Env :=
  {| temp_name := fun _ => "/tmp/tmpa1b2c3.wav";
     stage_outcome := fun _ _ => Staged;
     unlink_error := fun _ _ => Some "[Errno 13] Permission denied";
     model_transcribe := fun _ _ _ => Ok (two_segments, english) |}.

Definition disk_full : Env :=
  {| temp_name := fun _ => "/tmp/tmpa1b2c3.wav";
     stage_outcome := fun _ _ =>
       StagingFailed (Some []) (PyError "OSError" "[Errno 28] No space left on device");
     unlink_error := fun _ _ => None;
     model_transcribe := fun _ _ _ => Ok (two_segments, english) |}.

Definition empty_world : world := World ∅ [].

End Whisper.

(** ** whisper-service/service.py: the routes *)

Module WhisperRoutes.
Import Whisper.
Local Open Scope py_scope.

(** Starlette's [UploadFile]: the name and the content type are those of the
    multipart part, and either may be missing. *)
Record UploadFile := {
  filename : option string;
  content_type : option string;
  file : list Byte.byte
}.

(** [s.lower()] on ASCII letters. *)
Definition lower_char (c : ascii) : ascii :=
  let n := nat_of_ascii c in
  if ((65 <=? n) && (n <=? 90))%nat then ascii_of_nat (n + 32) else c.

Fixpoint lower (s : string) : string :=
  match s with
  | String c s' => String (lower_char c) (lower s')
  | EmptyString => EmptyString
  end.

(** [s.startswith(prefix)] and [s.endswith(suffix)] *)
Definition startswith (s prefix : string) : bool := String.prefix prefix s.

Definition endswith (s suffix : string) : bool :=
  let n := String.length s in
  let k := String.length suffix in
  (k <=? n)%nat && String.eqb (String.substring (n - k) k s) suffix.

Definition allowed_extensions : list string :=
  [".wav"; ".mp3"; ".mp4"; ".m4a"; ".flac"; ".ogg"].

(** An attribute read on [None]. *)
Definition attribute_error (attribute : string) : exn :=
  PyError "AttributeError"
          ("'NoneType' object has no attribute '" +:+ attribute +:+ "'").

Section Routes.
Context (env : Env).
Local Abbreviation M := (M world).

(** [transcribe], the handler of [POST /asr]. *)
Definition transcribe (audio_file : UploadFile) (task : string)
    (language initial_prompt : option string) (output : string) (encode : bool)
  : M transcript :=
  is_audio <- match content_type audio_file with
              | Some ct => ret (startswith ct "audio/")
              | None => raise (attribute_error "startswith")
              end ;;
  (if negb is_audio
   then
     known <- match filename audio_file with
              | Some name =>
                  ret (existsb (fun ext => endswith (lower name) ext) allowed_extensions)
              | None => raise (attribute_error "lower")
              end ;;
     if negb known
     then raise (HTTPException 400 "Invalid audio file format")
     else ret tt
   else ret tt) ;;;
  try_except
    (transcribe_audio env (file audio_file) task language initial_prompt output)
    (fun e => raise (HTTPException 500 (str e))).

(** The [Literal] types of the query parameters [task] and [output]. *)
Definition task_values : list string := ["transcribe"; "translate"].
Definition output_values : list string := ["txt"; "vtt"; "srt"; "tsv"; "json"].

(** [POST /asr] as the framework runs it: the query parameters are checked
    against their types, and only then the handler is called. *)
Definition post_asr (audio_file : UploadFile) (task : string)
    (language initial_prompt : option string) (output : string) (encode : bool)
  : M transcript :=
  if negb (bool_decide (task ∈ task_values))
  then raise (RequestValidationError "task")
  else if negb (bool_decide (output ∈ output_values))
  then raise (RequestValidationError "output")
  else transcribe audio_file task language initial_prompt output encode.

(** [detect_language], the handler of [POST /detect-language]. *)
Definition detect_language_route (audio_file : UploadFile) (encode : bool)
  : M (string * PyFloat.float) :=
  try_except
    (detect_language env (file audio_file))
    (fun e => raise (HTTPException 500 (str e))).

End Routes.

(** An upload as a browser sends it, and two that the handler turns away or
    lets through on the strength of the name alone. *)
Definition wav_upload : UploadFile :=
  {| filename := Some "clip.wav"; content_type := Some "audio/wav"; file := [] |}.

Definition pdf_upload : UploadFile :=
  {| filename := Some "paper.pdf"; content_type := Some "application/pdf"; file := [] |}.

Definition unlabelled_upload : UploadFile :=
  {| filename := Some "CLIP.MP3"; content_type := Some "application/octet-stream";
     file := [] |}.

End WhisperRoutes.

(** ** whisper-service/service.py: the service object *)

Module WhisperStartup.
Import PiperConfig.
Local Open Scope py_scope.

(** The arguments of [WhisperModel(...)]; [None] leaves the number of workers
    at the library's default. *)
Record LoadArgs := {
  la_model_size : string;
  la_device : string;
  la_compute_type : string;
  la_cpu_threads : Z;
  la_num_workers : option Z
}.

(** The calls into torch and faster-whisper, as they are recorded in the
    trace (most recent first). *)
Inductive event (Model : Type) :=
| CudaIsAvailable (answer : bool)
| CudaTensor (ok : bool)
| CudaGetDeviceName (ok : bool)
| CudaGetDeviceProperties (ok : bool)
| LoadModel (args : LoadArgs) (loaded : option Model)
| CudaEmptyCache (ok : bool)
| CudaSynchronize (ok : bool).
Arguments CudaIsAvailable {Model}.
Arguments CudaTensor {Model}.
Arguments CudaGetDeviceName {Model}.
Arguments CudaGetDeviceProperties {Model}.
Arguments LoadModel {Model}.
Arguments CudaEmptyCache {Model}.
Arguments CudaSynchronize {Model}.

(** The attributes of a [WhisperService].  [__init__] assigns each of them
    before it is read. *)
Record WhisperService (Model : Type) := {
  model : option Model;
  model_size : string;
  device : string;
  compute_type : string
}.
Arguments model {Model}.
Arguments model_size {Model}.
Arguments device {Model}.
Arguments compute_type {Model}.

Record world (Model : Type) := World {
  self : WhisperService Model;
  trace : list (event Model)
}.
Arguments World {Model}.
Arguments self {Model}.
Arguments trace {Model}.

(** The process environment, torch and faster-whisper.  Each oracle sees the
    trace so far. *)
Record Env (Model : Type) := {
  environ : gmap string string;
  cuda_is_available : list (event Model) -> bool;
  cuda_tensor : list (event Model) -> result unit;
  cuda_get_device_name : list (event Model) -> result string;
  cuda_get_device_properties : list (event Model) -> result unit;
  WhisperModel : list (event Model) -> LoadArgs -> result Model;
  cuda_empty_cache : list (event Model) -> result unit;
  cuda_synchronize : list (event Model) -> result unit
}.
Arguments environ {Model}.
Arguments cuda_is_available {Model}.
Arguments cuda_tensor {Model}.
Arguments cuda_get_device_name {Model}.
Arguments cuda_get_device_properties {Model}.
Arguments WhisperModel {Model}.
Arguments cuda_empty_cache {Model}.
Arguments cuda_synchronize {Model}.

(** The answer of [GET /health]. *)
Record Health := {
  h_status : string;
  h_device : string;
  h_model_size : string;
  h_gpu_available : bool;
  h_gpu_name : option string
}.

Section Service.
Context {Model : Type} (env : Env Model).
Local Abbreviation M := (M (world Model)).

Definition record (e : event Model) (w : world Model) : world Model :=
  World (self w) (e :: trace w).

(** Reading and assigning the attributes of [self]. *)
Definition get_self : M (WhisperService Model) := fun w => (Ok (self w), w).

Definition set_model (m : option Model) : M unit :=
  fun w => (Ok tt, World {| model := m; model_size := model_size (self w);
                            device := device (self w);
                            compute_type := compute_type (self w) |} (trace w)).

Definition set_model_size (s : string) : M unit :=
  fun w => (Ok tt, World {| model := model (self w); model_size := s;
                            device := device (self w);
                            compute_type := compute_type (self w) |} (trace w)).

Definition set_device (d : string) : M unit :=
  fun w => (Ok tt, World {| model := model (self w); model_size := model_size (self w);
                            device := d;
                            compute_type := compute_type (self w) |} (trace w)).

Definition set_compute_type (c : string) : M unit :=
  fun w => (Ok tt, World {| model := model (self w); model_size := model_size (self w);
                            device := device (self w);
                            compute_type := c |} (trace w)).

(** The library calls. *)
Definition is_available : M bool :=
  fun w =>
    let answer := cuda_is_available env (trace w) in
    (Ok answer, record (CudaIsAvailable answer) w).

Definition oracle_call {A} (outcome : list (event Model) -> result A)
    (log : bool -> event Model) : M A :=
  fun w =>
    match outcome (trace w) with
    | Ok a => (Ok a, record (log true) w)
    | Raise e => (Raise e, record (log false) w)
    end.

Definition tensor_on_cuda : M unit := oracle_call (cuda_tensor env) CudaTensor.

Definition get_device_name : M string :=
  oracle_call (cuda_get_device_name env) CudaGetDeviceName.

Definition get_device_properties : M unit :=
  oracle_call (cuda_get_device_properties env) CudaGetDeviceProperties.

Definition empty_cache : M unit := oracle_call (cuda_empty_cache env) CudaEmptyCache.

Definition synchronize : M unit := oracle_call (cuda_synchronize env) CudaSynchronize.

Definition new_WhisperModel (args : LoadArgs) : M Model :=
  fun w =>
    match WhisperModel env (trace w) args with
    | Ok m => (Ok m, record (LoadModel args (Some m)) w)
    | Raise e => (Raise e, record (LoadModel args None) w)
    end.

Definition both_failed : exn :=
  PyError "RuntimeError" "Could not load Whisper model on either GPU or CPU".

(** [WhisperService._load_model] *)
Definition _load_model : M unit :=
  try_except
    (s <- get_self ;;
     m <- new_WhisperModel
            {| la_model_size := model_size s;
               la_device := device s;
               la_compute_type := compute_type s;
               la_cpu_threads := if String.eqb (device s) "cpu" then 4 else 1;
               la_num_workers := Some 1 |} ;;
     set_model (Some m))
    (fun e =>
       s <- get_self ;;
       if String.eqb (device s) "cuda"
       then
         try_except
           (set_device "cpu" ;;;
            set_compute_type "float32" ;;;
            s <- get_self ;;
            m <- new_WhisperModel
                   {| la_model_size := model_size s;
                      la_device := "cpu";
                      la_compute_type := "float32";
                      la_cpu_threads := 4;
                      la_num_workers := None |} ;;
            set_model (Some m))
           (fun cpu_error => raise both_failed)
       else raise e).

(** [WhisperService.__init__] *)
Definition WhisperService_init : M unit :=
  set_model None ;;;
  set_model_size (getenv (environ env) "WHISPER_MODEL_SIZE" "small") ;;;
  available <- is_available ;;
  (if available
   then
     try_except
       (tensor_on_cuda ;;;
        set_device "cuda" ;;;
        set_compute_type "float16" ;;;
        get_device_name ;;;
        get_device_properties ;;;
        ret tt)
       (fun e => set_device "cpu" ;;; set_compute_type "float32")
   else set_device "cpu" ;;; set_compute_type "float32") ;;;
  _load_model.

(** [WhisperService.cleanup_cuda_memory] *)
Definition cleanup_cuda_memory : M unit :=
  try_except
    (s <- get_self ;;
     (match model s with
      | Some _ => set_model None
      | None => ret tt
      end) ;;;
     available <- is_available ;;
     if available then empty_cache ;;; synchronize else ret tt)
    (fun e => ret tt).

(** [shutdown_event] *)
Definition shutdown_event : M unit := cleanup_cuda_memory.

(** [health_check], the handler of [GET /health]. *)
Definition health_check : M Health :=
  s <- get_self ;;
  gpu_available <- is_available ;;
  available <- is_available ;;
  gpu_name <- (if available
               then name <- get_device_name ;; ret (Some name)
               else ret None) ;;
  ret {| h_status := "healthy"; h_device := device s; h_model_size := model_size s;
         h_gpu_available := gpu_available; h_gpu_name := gpu_name |}.

End Service.

(** The load events of a trace, oldest first. *)
Definition loads {Model} (tr : list (event Model)) : list (LoadArgs * bool) :=
  rev (omap (fun e => match e with
                      | LoadModel args loaded => Some (args, bool_decide (is_Some loaded))
                      | _ => None
                      end) tr).

(** A machine with a GPU whose memory is too small for the model, and one
    without a GPU; a model is named after the device it was loaded on. *)
Definition small_gpu : Env string :=
  {| environ := ∅;
     cuda_is_available := fun _ => true;
     cuda_tensor := fun _ => Ok tt;
     cuda_get_device_name := fun _ => Ok "GeForce";
     cuda_get_device_properties := fun _ => Ok tt;
     WhisperModel := fun _ args =>
       if String.eqb (la_device args) "cuda"
       then Raise (PyError "RuntimeError" "CUDA out of memory")
       else Ok (la_device args);
     cuda_empty_cache := fun _ => Ok tt;
     cuda_synchronize := fun _ => Ok tt |}.

Definition no_gpu : Env string :=
  {| environ := {[ "WHISPER_MODEL_SIZE" := "tiny" ]};
     cuda_is_available := fun _ => false;
     cuda_tensor := fun _ => Raise (PyError "RuntimeError" "no CUDA");
     cuda_get_device_name := fun _ => Raise (PyError "RuntimeError" "no CUDA");
     cuda_get_device_properties := fun _ => Raise (PyError "RuntimeError" "no CUDA");
     WhisperModel := fun _ args => Ok (la_device args);
     cuda_empty_cache := fun _ => Raise (PyError "RuntimeError" "no CUDA");
     cuda_synchronize := fun _ => Raise (PyError "RuntimeError" "no CUDA") |}.

(** A machine with a GPU on which the model files cannot be read. *)
Definition broken_loader : Env string :=
  {| environ := ∅;
     cuda_is_available := fun _ => true;
     cuda_tensor := fun _ => Ok tt;
     cuda_get_device_name := fun _ => Ok "GeForce";
     cuda_get_device_properties := fun _ => Ok tt;
     WhisperModel := fun _ _ => Raise (PyError "RuntimeError" "model files are missing");
     cuda_empty_cache := fun _ => Ok tt;
     cuda_synchronize := fun _ => Ok tt |}.

(** The object [__init__] starts from. *)
Definition unborn : world string :=
  World {| model := None; model_size := ""; device := ""; compute_type := "" |} [].

End WhisperStartup.

(** ** piper-service/config.py: [setup_logging] *)

Module PiperLogging.
Import PiperConfig.
Local Open Scope py_scope.

(** A handler writes to a file or to the console, through its formatter. *)
Inductive target := ToFile (filename : string) | ToConsole.

Record Handler := {
  h_target : target;
  h_formatter : option string
}.

(** A logger of the [logging] module, and the module's registry of loggers
    by name.  [getLogger] creates a logger the first time its name is asked
    for: no level, no handlers, records passed on to the parent. *)
Record Logger := {
  level : Z;
  handlers : list Handler;
  propagate : bool
}.

Definition new_logger : Logger := {| level := 0; handlers := []; propagate := true |}.

Inductive event :=
| FileOpened (filename : string) (ok : bool).

Record world := World {
  loggers : gmap string Logger;
  trace : list event
}.

(** Opening the log file may fail, on a directory that is missing or cannot
    be written. *)
Record Env := {
  open_for_append : list event -> string -> result unit
}.

(** [getattr(logging, name)] for the names of the levels.  A validated
    configuration holds one of them; the other names of the module, which
    [setLevel] refuses, are not told apart from the names it does not have. *)
Definition logging_level (name : string) : result Z :=
  if String.eqb name "CRITICAL" then Ok 50
  else if String.eqb name "FATAL" then Ok 50
  else if String.eqb name "ERROR" then Ok 40
  else if String.eqb name "WARNING" then Ok 30
  else if String.eqb name "WARN" then Ok 30
  else if String.eqb name "INFO" then Ok 20
  else if String.eqb name "DEBUG" then Ok 10
  else if String.eqb name "NOTSET" then Ok 0
  else Raise (PyError "AttributeError"
                      ("module 'logging' has no attribute '" +:+ name +:+ "'")).

Definition log_format : string :=
  "%(asctime)s - %(name)s - %(levelname)s - %(message)s".

Section Logging.
Context (env : Env).
Local Abbreviation M := (M world).

(** [logging.getLogger(name)]: the logger is known by its name from then on. *)
Definition getLogger (name : string) : M string :=
  fun w =>
    match loggers w !! name with
    | Some _ => (Ok name, w)
    | None => (Ok name, World (<[name := new_logger]> (loggers w)) (trace w))
    end.

Definition the_logger (name : string) (w : world) : Logger :=
  default new_logger (loggers w !! name).

Definition get_handlers (name : string) : M (list Handler) :=
  fun w => (Ok (handlers (the_logger name w)), w).

(** [logger.setLevel(level)] *)
Definition setLevel (name : string) (l : Z) : M unit :=
  fun w =>
    let logger := the_logger name w in
    (Ok tt, World (<[name := {| level := l; handlers := handlers logger;
                                propagate := propagate logger |}]> (loggers w))
                  (trace w)).

(** [logger.addHandler(handler)] *)
Definition addHandler (name : string) (h : Handler) : M unit :=
  fun w =>
    let logger := the_logger name w in
    (Ok tt, World (<[name := {| level := level logger;
                                handlers := handlers logger ++ [h];
                                propagate := propagate logger |}]> (loggers w))
                  (trace w)).

(** [logger.propagate = value] *)
Definition set_propagate (name : string) (value : bool) : M unit :=
  fun w =>
    let logger := the_logger name w in
    (Ok tt, World (<[name := {| level := level logger; handlers := handlers logger;
                                propagate := value |}]> (loggers w))
                  (trace w)).

(** [logging.FileHandler(filename)]: the file is opened at once. *)
Definition new_FileHandler (filename : string) : M Handler :=
  fun w =>
    match open_for_append env (trace w) filename with
    | Ok _ => (Ok {| h_target := ToFile filename; h_formatter := None |},
               World (loggers w) (FileOpened filename true :: trace w))
    | Raise e => (Raise e, World (loggers w) (FileOpened filename false :: trace w))
    end.

(** [handler.setFormatter(formatter)] *)
Definition setFormatter (h : Handler) (formatter : string) : Handler :=
  {| h_target := h_target h; h_formatter := Some formatter |}.

(** [setup_logging] *)
Definition setup_logging (config : ServiceConfig) : M string :=
  logger <- getLogger "piper-service" ;;
  present <- get_handlers logger ;;
  match present with
  | _ :: _ => ret logger
  | [] =>
      l <- (fun w => (logging_level (log_level config), w)) ;;
      setLevel logger l ;;;
      let formatter := log_format in
      file_handler <- new_FileHandler (log_file config) ;;
      addHandler logger (setFormatter file_handler formatter) ;;;
      let console_handler := {| h_target := ToConsole; h_formatter := None |} in
      addHandler logger (setFormatter console_handler formatter) ;;;
      set_propagate logger false ;;;
      ret logger
  end.

End Logging.

Definition writable : Env := {| open_for_append := fun _ _ => Ok tt |}.

Definition read_only_disk : Env :=
  {| open_for_append := fun _ filename => Raise (PyError "PermissionError" filename) |}.

Definition no_loggers : world := World ∅ [].

End PiperLogging.

(** * Properties of the Piper service *)

Module PiperFacts.
Import PiperConfig Piper.
Local Open Scope py_scope.

Section Facts.
Context {PiperVoice : Type} (env : Env PiperVoice).
Implicit Types (w : world PiperVoice) (voice_name : string).
Local Abbreviation quiet m := (@quiet PiperVoice _ m).
Local Abbreviation keeps m := (@keeps PiperVoice _ m).
Local Abbreviation sound := (sound env).
Local Abbreviation confined paths m := (@confined PiperVoice paths _ m).
Local Abbreviation only_looks m := (@only_looks PiperVoice _ m).

Lemma paths_differ voice_name :
  model_path_of env voice_name ≠ config_path_of env voice_name.
Proof.
  unfold model_path_of, config_path_of. intros H.
  do 3 apply (inj (String.app _)) in H. discriminate H.
Qed.

Local Arguments wp : simpl never.
Local Arguments bind : simpl never.
Local Arguments try_except : simpl never.
Local Arguments ret : simpl never.
Local Arguments raise : simpl never.
Local Arguments path_exists : simpl never.
Local Arguments path_unlink : simpl never.
Local Arguments urlretrieve : simpl never.

Lemma wp_elim {A} (m : M (world PiperVoice) A) w Q r w' :
  wp m w Q -> m w = (r, w') -> Q r w'.
Proof. unfold wp. intros H E. rewrite E in H. exact H. Qed.

Lemma wp_ret {A} (a : A) w Q : Q (Ok a) w -> wp (ret a) w Q.
Proof. exact id. Qed.

Lemma wp_raise {A} e w (Q : result A -> _ -> Prop) : Q (Raise e) w -> wp (raise e) w Q.
Proof. exact id. Qed.

Lemma wp_bind {A B} (m : M (world PiperVoice) A) (k : A -> M (world PiperVoice) B) w Q :
  wp m w (fun r w1 => match r with
                      | Ok a => wp (k a) w1 Q
                      | Raise e => Q (Raise e) w1
                      end) ->
  wp (bind m k) w Q.
Proof. unfold wp, bind. destruct (m w) as [[a|e] w1]; exact id. Qed.

Lemma wp_try_except {A} (m : M (world PiperVoice) A) handler w Q :
  wp m w (fun r w1 => match r with
                      | Ok a => Q (Ok a) w1
                      | Raise e => wp (handler e) w1 Q
                      end) ->
  wp (try_except m handler) w Q.
Proof. unfold wp, try_except. destruct (m w) as [[a|e] w1]; exact id. Qed.

Lemma wp_mono {A} (m : M (world PiperVoice) A) w (P Q : result A -> _ -> Prop) :
  wp m w P -> (forall r w', P r w' -> Q r w') -> wp m w Q.
Proof. unfold wp. auto. Qed.

Lemma wp_path_exists path w Q :
  Q (Ok (bool_decide (is_Some (fs w !! path))))
    (record (PathExists path (bool_decide (is_Some (fs w !! path)))) w) ->
  wp (path_exists path) w Q.
Proof. exact id. Qed.

Lemma wp_path_unlink path w Q :
  match fs w !! path with
  | Some _ => Q (Ok tt) (World (delete path (fs w)) (voice_models w)
                               (PathUnlink path :: trace w))
  | None => Q (Raise (PyError "FileNotFoundError" path)) (record (PathUnlink path) w)
  end ->
  wp (path_unlink path) w Q.
Proof. unfold wp, path_unlink. destruct (fs w !! path); exact id. Qed.

Lemma wp_urlretrieve url filename w Q :
  match urlretrieve_outcome env (trace w) url filename with
  | Fetched =>
      Q (Ok tt) (World (<[filename := Complete]> (fs w)) (voice_models w)
                       (UrlRetrieve url filename true :: trace w))
  | FetchFailed partial msg =>
      Q (Raise (PyError "URLError" msg))
        (World (if partial then <[filename := Partial]> (fs w) else fs w)
               (voice_models w) (UrlRetrieve url filename false :: trace w))
  end ->
  wp (urlretrieve env url filename) w Q.
Proof.
  unfold wp, urlretrieve. destruct (urlretrieve_outcome env (trace w) url filename); exact id.
Qed.

Ltac wp_step :=
  lazymatch goal with
  | |- wp (bind _ _) _ _ => apply wp_bind
  | |- wp (try_except _ _) _ _ => apply wp_try_except
  | |- wp (ret _) _ _ => apply wp_ret
  | |- wp (raise _) _ _ => apply wp_raise
  | |- wp (path_exists _) _ _ => apply wp_path_exists
  | |- wp (path_unlink _) _ _ => apply wp_path_unlink
  | |- wp (urlretrieve _ _ _) _ _ => apply wp_urlretrieve
  | |- wp (if negb ?b then _ else _) _ _ => destruct b eqn:?
  | |- wp (if ?b then _ else _) _ _ => destruct b eqn:?
  | |- wp (unlink_existing (_ :: _)) _ _ =>
      unfold unlink_existing; fold (@unlink_existing PiperVoice)
  | |- wp (unlink_existing []) _ _ => apply wp_ret
  | |- match urlretrieve_outcome ?e ?t ?u ?f with _ => _ end =>
      destruct (urlretrieve_outcome e t u f) as [|[|] ?] eqn:?
  | |- match ?m !! ?k with _ => _ end => destruct (m !! k) eqn:?
  end; cbn [fs voice_models trace record negb] in *.

Ltac in_trace :=
  repeat first [ apply list_elem_of_here | apply list_elem_of_further ].

Ltac wp_det :=
  lazymatch goal with
  | |- wp (bind _ _) _ _ => apply wp_bind
  | |- wp (try_except _ _) _ _ => apply wp_try_except
  | |- wp (ret _) _ _ => apply wp_ret
  | |- wp (raise _) _ _ => apply wp_raise
  | |- wp (path_exists _) _ _ => apply wp_path_exists
  | |- wp (path_unlink _) _ _ => apply wp_path_unlink
  | |- wp (urlretrieve _ _ _) _ _ => apply wp_urlretrieve
  | |- wp (unlink_existing (_ :: _)) _ _ =>
      unfold unlink_existing; fold (@unlink_existing PiperVoice)
  | |- wp (unlink_existing []) _ _ => apply wp_ret
  | |- match urlretrieve_outcome ?e ?t ?u ?f with _ => _ end =>
      destruct (urlretrieve_outcome e t u f) as [|[|] ?] eqn:?
  end.

Lemma download_unknown voice_name w :
  VOICE_CATALOG !! voice_name = None ->
  download_voice_model env voice_name w = (Raise (catalog_miss voice_name), w).
Proof. intros H. unfold download_voice_model. rewrite H. reflexivity. Qed.

Lemma wp_any {A} (m : M (world PiperVoice) A) w : wp m w (fun _ _ => True).
Proof. exact I. Qed.

(** The cleanup of the [except] branch: whatever the disk holds, neither path
    is on it afterwards, and the cleanup itself does not raise. *)
Lemma unlink_existing_pair (m c : string) w :
  m ≠ c ->
  wp (unlink_existing [m; c]) w
     (fun r w' => r = Ok tt ∧ fs w' !! m = None ∧ fs w' !! c = None).
Proof.
  intros Hne. repeat wp_step.
  all: repeat case_bool_decide; simplify_map_eq.
  all: split; [done|split]; first [ done | by apply eq_None_not_Some | exfalso; naive_solver ].
Qed.

(** C3: when [download_voice_model] raises for a voice of the catalog, neither
    the model file nor the metadata file of the voice is on disk afterwards:
    whatever the [try] block left behind, the handler unlinks both paths
    before it raises. *)
Theorem failed_download_leaves_no_artifact voice_name w e w' :
  is_Some (VOICE_CATALOG !! voice_name) ->
  download_voice_model env voice_name w = (Raise e, w') ->
  fs w' !! model_path_of env voice_name = None ∧
  fs w' !! config_path_of env voice_name = None.
Proof.
  intros [info Hinfo] Hrun.
  pose proof (paths_differ voice_name) as Hne.
  cut (wp (download_voice_model env voice_name) w
           (fun r w' => match r with
                        | Raise _ => fs w' !! model_path_of env voice_name = None ∧
                                     fs w' !! config_path_of env voice_name = None
                        | Ok _ => True
                        end)).
  { intros H. exact (wp_elim _ _ _ _ _ H Hrun). }
  unfold download_voice_model. rewrite Hinfo. clear Hinfo Hrun. cbv zeta.
  do 4 wp_step; [do 2 wp_step; [wp_step; exact I|]|wp_step].
  all: wp_step; eapply wp_mono; [apply wp_any|]; intros [p|e0] w1 _; [exact I|].
  all: wp_step; eapply wp_mono; [apply (unlink_existing_pair _ _ _ Hne)|].
  all: intros r w2 (-> & Hm & Hc); wp_step; auto.
Qed.

Lemma grows_refl w : grows w w.
Proof. split; [reflexivity | by exists []]. Qed.

Lemma grows_trans w1 w2 w3 : grows w1 w2 -> grows w2 w3 -> grows w1 w3.
Proof.
  intros [C1 [e1 T1]] [C2 [e2 T2]]. split; [congruence|].
  exists (e2 ++ e1). rewrite T2, T1. apply app_assoc.
Qed.

Lemma grows_record ev w : grows w (record ev w).
Proof. split; [reflexivity | by exists [ev]]. Qed.

Lemma quiet_ret {A} (a : A) : quiet (ret a).
Proof. intros w. apply grows_refl. Qed.

Lemma quiet_raise {A} e : quiet (@raise (world PiperVoice) A e).
Proof. intros w. apply grows_refl. Qed.

Lemma quiet_bind {A B} (m : M (world PiperVoice) A) (k : A -> M (world PiperVoice) B) :
  quiet m -> (forall a, quiet (k a)) -> quiet (bind m k).
Proof.
  intros Hm Hk w. apply wp_bind. eapply wp_mono; [apply Hm|].
  intros [a|e] w1 H1; [|exact H1].
  eapply wp_mono; [apply Hk|]. intros r w2 H2. eapply grows_trans; eassumption.
Qed.

Lemma quiet_try_except {A} (m : M (world PiperVoice) A) handler :
  quiet m -> (forall e, quiet (handler e)) -> quiet (try_except m handler).
Proof.
  intros Hm Hh w. apply wp_try_except. eapply wp_mono; [apply Hm|].
  intros [a|e] w1 H1; [exact H1|].
  eapply wp_mono; [apply Hh|]. intros r w2 H2. eapply grows_trans; eassumption.
Qed.

Lemma quiet_if {A} (b : bool) (m1 m2 : M (world PiperVoice) A) :
  quiet m1 -> quiet m2 -> quiet (if b then m1 else m2).
Proof. destruct b; auto. Qed.

Lemma quiet_path_exists path : quiet (path_exists path).
Proof. intros w. apply grows_record. Qed.

Lemma quiet_path_unlink path : quiet (path_unlink path).
Proof.
  intros w. unfold wp, path_unlink. destruct (fs w !! path); cbn.
  - split; [reflexivity | by exists [PathUnlink path]].
  - apply grows_record.
Qed.

Lemma quiet_path_stat path : quiet (path_stat path).
Proof. intros w. unfold wp, path_stat. destruct (fs w !! path); apply grows_record. Qed.

Lemma quiet_urlretrieve url filename : quiet (urlretrieve env url filename).
Proof.
  intros w. unfold wp, urlretrieve.
  destruct (urlretrieve_outcome env (trace w) url filename); cbn;
    (split; [reflexivity | by eexists [_]]).
Qed.

Lemma quiet_synthesize text vm : quiet (synthesize_audio_sync env text vm).
Proof.
  intros w. unfold wp, synthesize_audio_sync.
  destruct (voice_synthesize env (trace w) vm text); apply grows_record.
Qed.

Lemma quiet_voice_models_get voice_name : quiet (voice_models_get voice_name).
Proof. intros w. apply grows_refl. Qed.

Lemma quiet_voice_models_len : quiet (@voice_models_len PiperVoice).
Proof. intros w. apply grows_refl. Qed.

Create HintDb quiet.
Hint Resolve quiet_ret quiet_raise quiet_bind quiet_try_except quiet_if
  quiet_path_exists quiet_path_unlink quiet_path_stat quiet_urlretrieve
  quiet_synthesize quiet_voice_models_get quiet_voice_models_len : quiet.

Lemma quiet_unlink_existing paths : quiet (unlink_existing paths).
Proof. induction paths; cbn [unlink_existing]; auto 10 with quiet. Qed.
Hint Resolve quiet_unlink_existing : quiet.

Lemma quiet_download voice_name : quiet (download_voice_model env voice_name).
Proof.
  unfold download_voice_model. destruct (VOICE_CATALOG !! voice_name);
    auto 20 with quiet.
Qed.
Hint Resolve quiet_download : quiet.

Lemma quiet_load_begin voice_name : quiet (load_voice_model_begin env voice_name).
Proof.
  unfold load_voice_model_begin. apply quiet_bind; [auto with quiet|].
  intros [vm|]; auto 10 with quiet.
Qed.

Lemma quiet_list_voices : quiet (list_voices env).
Proof.
  unfold list_voices. induction EXTENDED_VOICE_CATALOG_items as [|[name info] rest IH];
    cbn [list_voices_from]; [auto with quiet|].
  unfold voice_info_of. auto 20 with quiet.
Qed.

Lemma quiet_health_check : quiet (health_check env).
Proof. unfold health_check. auto with quiet. Qed.

Lemma quiet_download_voice request : quiet (download_voice env request).
Proof.
  unfold download_voice. destruct (VOICE_CATALOG !! voice_name request);
    auto 10 with quiet.
Qed.

Lemma quiet_background_download voice_name : quiet (background_download env voice_name).
Proof. unfold background_download. auto 10 with quiet. Qed.

(** *** What a completed download guarantees *)

Lemma artifact_ready_grows path (tr evs : list (event PiperVoice)) :
  artifact_ready path tr -> artifact_ready path (evs ++ tr).
Proof.
  intros [H|[url H]]; [left|right; exists url]; apply elem_of_app; by right.
Qed.

Lemma download_ok voice_name w paths w' :
  download_voice_model env voice_name w = (Ok paths, w') ->
  is_Some (VOICE_CATALOG !! voice_name) ∧
  paths = (model_path_of env voice_name, config_path_of env voice_name) ∧
  artifact_ready (model_path_of env voice_name) (trace w') ∧
  artifact_ready (config_path_of env voice_name) (trace w').
Proof.
  intros Hrun.
  destruct (VOICE_CATALOG !! voice_name) as [info|] eqn:Hinfo;
    [|rewrite (download_unknown _ _ Hinfo) in Hrun; discriminate].
  split; [eauto|].
  cut (wp (download_voice_model env voice_name) w
         (fun r w' => match r with
                      | Ok paths =>
                          paths = (model_path_of env voice_name,
                                   config_path_of env voice_name) ∧
                          artifact_ready (model_path_of env voice_name) (trace w') ∧
                          artifact_ready (config_path_of env voice_name) (trace w')
                      | Raise _ => True
                      end)).
  { intros H. exact (wp_elim _ _ _ _ _ H Hrun). }
  unfold download_voice_model. rewrite Hinfo. clear Hinfo Hrun. cbv zeta.
  generalize (model_path_of env voice_name) (config_path_of env voice_name).
  intros m c.
  generalize (base_url info +:+ "/" +:+ voice_name +:+ ".onnx").
  generalize (base_url info +:+ "/" +:+ voice_name +:+ ".onnx.json").
  intros uc um. unfold artifact_ready.
  repeat wp_step.
  all: try exact I.
  all: split; [reflexivity|split].
  all: first [ left; solve [in_trace] | right; eexists; solve [in_trace] ].
Qed.

(** *** [load_voice_model] and its two halves *)

Lemma load_voice_model_split voice_name w :
  load_voice_model env voice_name w =
  bind (load_voice_model_begin env voice_name)
       (fun r => match r with
                 | inl voice_model => ret voice_model
                 | inr paths => load_voice_model_resume env voice_name paths
                 end) w.
Proof.
  unfold load_voice_model, load_voice_model_begin, load_voice_model_resume,
    bind, try_except, voice_models_get, ret, raise.
  destruct (voice_models w !! voice_name); [reflexivity|].
  destruct (download_voice_model env voice_name w) as [[paths|e] w1]; reflexivity.
Qed.

Lemma load_begin_pending voice_name w paths w' :
  load_voice_model_begin env voice_name w = (Ok (inr paths), w') ->
  is_Some (VOICE_CATALOG !! voice_name) ∧
  paths = (model_path_of env voice_name, config_path_of env voice_name) ∧
  artifact_ready (model_path_of env voice_name) (trace w') ∧
  artifact_ready (config_path_of env voice_name) (trace w').
Proof.
  unfold load_voice_model_begin, bind, try_except, voice_models_get, ret, raise.
  destruct (voice_models w !! voice_name); [discriminate|].
  destruct (download_voice_model env voice_name w) as [[p|e] w1] eqn:Hd; [|discriminate].
  intros [= <- <-]. exact (download_ok _ _ _ _ Hd).
Qed.

Lemma load_resume_cases voice_name paths w :
  (∃ vm, load_voice_model_resume env voice_name paths w =
           (Ok vm, World (fs w) (<[voice_name := vm]> (voice_models w))
                         (VoiceLoad (fst paths) (snd paths) (Some vm) :: trace w))) ∨
  (∃ e, load_voice_model_resume env voice_name paths w =
          (Raise e, record (VoiceLoad (fst paths) (snd paths) None) w)).
Proof.
  unfold load_voice_model_resume, bind, try_except, run_PiperVoice_load,
    voice_models_set, ret, raise.
  destruct (PiperVoice_load env (trace w) (fst paths) (snd paths)) as [vm|e];
    [left|right]; eexists; reflexivity.
Qed.

Lemma load_voice_model_hit voice_name w vm :
  voice_models w !! voice_name = Some vm ->
  load_voice_model env voice_name w = (Ok vm, w).
Proof.
  intros H. unfold load_voice_model, bind, voice_models_get. rewrite H. reflexivity.
Qed.

Lemma load_voice_model_ok_cached voice_name w vm w' :
  load_voice_model env voice_name w = (Ok vm, w') ->
  voice_models w' !! voice_name = Some vm.
Proof.
  rewrite load_voice_model_split. unfold bind.
  destruct (load_voice_model_begin env voice_name w) as [[[h|paths]|e] w1] eqn:Hb;
    [| |discriminate].
  - intros [= <- <-]. revert Hb.
    unfold load_voice_model_begin, bind, try_except, voice_models_get, ret, raise.
    destruct (voice_models w !! voice_name) eqn:Hc.
    + intros [= <- <-]. exact Hc.
    + destruct (download_voice_model env voice_name w) as [[p|e] w2]; discriminate.
  - destruct (load_resume_cases voice_name paths w1) as [[h ->]|[e ->]]; [|discriminate].
    intros [= <- <-]. cbn. apply lookup_insert_eq.
Qed.

Lemma load_unknown_voice voice_name w :
  VOICE_CATALOG !! voice_name = None ->
  voice_models w !! voice_name = None ->
  load_voice_model env voice_name w = (Raise (load_failure (catalog_miss voice_name)), w).
Proof.
  intros Hcat Hc. unfold load_voice_model, bind, try_except, voice_models_get.
  rewrite Hc, (download_unknown _ _ Hcat). reflexivity.
Qed.

(** *** The cache invariant *)

Lemma loaded_model_grows voice_name vm (tr evs : list (event PiperVoice)) :
  loaded_model env voice_name vm tr -> loaded_model env voice_name vm (evs ++ tr).
Proof.
  intros [Hcat (later & earlier & -> & Hm & Hc)]. split; [exact Hcat|].
  exists (evs ++ later), earlier. rewrite <- app_assoc. auto.
Qed.

Lemma sound_boot disk : sound (boot disk).
Proof.
  split.
  - intros v vm H. cbn in H. rewrite lookup_empty in H. discriminate.
  - intros p H. cbn in H. apply not_elem_of_nil in H. destruct H.
Qed.

Lemma sound_grows s w' :
  sound s -> grows (sys_world s) w' -> sound (System w' (sys_pending s)).
Proof.
  intros [Hc Hp] [Hvm [evs Htr]]. split; cbn.
  - intros v vm H. rewrite Hvm in H. rewrite Htr. apply loaded_model_grows. auto.
  - intros p H. destruct (Hp p H) as (? & ? & ? & ?). rewrite Htr.
    auto using artifact_ready_grows.
Qed.

Lemma sound_quiet {A} (m : M (world PiperVoice) A) s :
  quiet m -> sound s -> sound (System (snd (m (sys_world s))) (sys_pending s)).
Proof. intros Hq Hs. apply sound_grows; [exact Hs | apply Hq]. Qed.

Lemma sound_perform a s : sound s -> sound (perform env a s).
Proof.
  intros Hs. destruct a as [v|index|text vm| | |request|v|]; cbn [perform].
  - (* LoadBegin *)
    destruct (load_voice_model_begin env v (sys_world s)) as [r w'] eqn:Hb.
    pose proof (quiet_load_begin v (sys_world s)) as Hq.
    unfold wp in Hq. rewrite Hb in Hq. cbn in Hq.
    pose proof (sound_grows s w' Hs Hq) as [Hc Hp].
    destruct r as [[vm|paths]|e]; [split; assumption| |split; assumption].
    split; [exact Hc|]. cbn. intros p [->|H]%elem_of_cons; [|auto].
    cbn. exact (load_begin_pending _ _ _ _ Hb).
  - (* LoadResume *)
    destruct (sys_pending s !! index) as [p|] eqn:Hi; [|exact Hs].
    destruct Hs as [Hc Hp].
    assert (p ∈ sys_pending s) as Hin by (eapply list_elem_of_lookup_2; eassumption).
    destruct (Hp p Hin) as (Hcat & Hpaths & Hm & Hcf).
    assert (forall q, q ∈ delete index (sys_pending s) -> q ∈ sys_pending s) as Hsub.
    { intros q Hq. exact (list_elem_of_delete_inv _ _ _ Hq). }
    destruct (load_resume_cases (pl_voice p) (pl_paths p) (sys_world s))
      as [[vm ->]|[e ->]]; cbn [snd].
    + split; cbn.
      * intros v h Hl. destruct (decide (pl_voice p = v)) as [<-|Hne].
        -- rewrite lookup_insert_eq in Hl. injection Hl as <-.
           split; [exact Hcat|]. exists [], (trace (sys_world s)).
           rewrite Hpaths. cbn. auto.
        -- rewrite lookup_insert_ne in Hl by exact Hne.
           apply (loaded_model_grows _ _ _ [_]). auto.
      * intros q Hq. destruct (Hp q (Hsub q Hq)) as (? & ? & ? & ?).
        repeat split; auto; apply (artifact_ready_grows _ _ [_]); assumption.
    + apply (sound_grows (System (sys_world s) (delete index (sys_pending s)))).
      * split; [exact Hc|]. intros q Hq. exact (Hp q (Hsub q Hq)).
      * apply grows_record.
  - apply sound_quiet; [apply quiet_synthesize | exact Hs].
  - apply sound_quiet; [apply quiet_list_voices | exact Hs].
  - apply sound_quiet; [apply quiet_health_check | exact Hs].
  - apply sound_quiet; [apply quiet_download_voice | exact Hs].
  - apply sound_quiet; [apply quiet_background_download | exact Hs].
  - (* Shutdown *)
    destruct Hs as [Hc Hp]. split; cbn.
    + intros v vm H. rewrite lookup_empty in H. discriminate.
    + exact Hp.
Qed.

Lemma sound_run actions s : sound s -> sound (run env actions s).
Proof.
  revert s. induction actions as [|a actions IH]; intros s Hs; [exact Hs|].
  cbn. apply IH, sound_perform, Hs.
Qed.

(** A call of [load_voice_model] that runs to its end is a [LoadBegin] step,
    followed by the [LoadResume] of the load it left pending, if any. *)
Lemma load_voice_model_in_steps voice_name w pending :
  (load_voice_model env voice_name w).2 =
  sys_world
    match load_voice_model_begin env voice_name w with
    | (Ok (inr _), _) =>
        run env [LoadBegin voice_name; LoadResume 0] (System w pending)
    | _ => run env [LoadBegin voice_name] (System w pending)
    end.
Proof.
  rewrite load_voice_model_split. unfold bind, run. cbn [fold_left perform sys_world].
  destruct (load_voice_model_begin env voice_name w) as [[[vm|paths]|e] w1];
    reflexivity.
Qed.

Lemma sound_load_voice_model voice_name s :
  sound s ->
  sound (System (load_voice_model env voice_name (sys_world s)).2 (sys_pending s)).
Proof.
  intros Hs. destruct s as [w pending]. cbn [sys_world sys_pending].
  pose proof (sound_perform (LoadBegin voice_name) _ Hs) as H1.
  rewrite load_voice_model_split. unfold bind. cbn [perform sys_world sys_pending] in H1.
  destruct (load_voice_model_begin env voice_name w) as [[[vm|paths]|e] w1];
    [exact H1| |exact H1].
  exact (sound_perform (LoadResume 0) _ H1).
Qed.

(** The handlers that call it, run to their end, keep the invariant too. *)
Lemma sound_text_to_speech request s :
  sound s ->
  sound (System (text_to_speech env request (sys_world s)).2 (sys_pending s)).
Proof.
  intros Hs. unfold text_to_speech, try_except, bind, raise, ret.
  pose proof (sound_load_voice_model (voice_or_default env request) s Hs) as H1.
  destruct (load_voice_model env (voice_or_default env request) (sys_world s))
    as [[vm|e] w1]; cbn [snd] in *; [|exact H1].
  pose proof (sound_quiet (synthesize_audio_sync env (text request) vm) _
                (quiet_synthesize (text request) vm) H1) as H2.
  cbn [sys_world sys_pending] in H2.
  destruct (synthesize_audio_sync env (text request) vm w1) as [[audio|e] w2];
    exact H2.
Qed.

Lemma sound_startup_event s :
  sound s -> sound (System (startup_event env (sys_world s)).2 (sys_pending s)).
Proof.
  intros Hs. unfold startup_event, try_except, bind, ret.
  pose proof (sound_load_voice_model (default_voice (config env)) s Hs) as H1.
  destruct (load_voice_model env (default_voice (config env)) (sys_world s))
    as [[vm|e] w1]; exact H1.
Qed.

(** *** What a failed download removes *)

Lemma keeps_files_refl w : keeps_files w w.
Proof. split; [auto | by exists []]. Qed.

Lemma keeps_files_trans w1 w2 w3 :
  keeps_files w1 w2 -> keeps_files w2 w3 -> keeps_files w1 w3.
Proof.
  intros [F1 [e1 T1]] [F2 [e2 T2]]. split; [auto|].
  exists (e2 ++ e1). rewrite T2, T1. apply app_assoc.
Qed.

Lemma keeps_ret {A} (a : A) : keeps (ret a).
Proof. intros w. apply keeps_files_refl. Qed.

Lemma keeps_bind {A B} (m : M (world PiperVoice) A) (k : A -> M (world PiperVoice) B) :
  keeps m -> (forall a, keeps (k a)) -> keeps (bind m k).
Proof.
  intros Hm Hk w. apply wp_bind. eapply wp_mono; [apply Hm|].
  intros [a|e] w1 H1; [|exact H1].
  eapply wp_mono; [apply Hk|]. intros r w2 H2. eapply keeps_files_trans; eassumption.
Qed.

Lemma keeps_if {A} (b : bool) (m1 m2 : M (world PiperVoice) A) :
  keeps m1 -> keeps m2 -> keeps (if b then m1 else m2).
Proof. destruct b; auto. Qed.

Lemma keeps_path_exists path : keeps (path_exists path).
Proof. intros w. split; [auto | by eexists [_]]. Qed.

Lemma keeps_urlretrieve url filename : keeps (urlretrieve env url filename).
Proof.
  intros w. unfold wp, urlretrieve.
  destruct (urlretrieve_outcome env (trace w) url filename) as [|[|] msg]; cbn;
    (split; [|by eexists [_]]); intros path H; cbn; auto;
    destruct (decide (filename = path)) as [->|Hne];
    [rewrite lookup_insert_eq; eauto | rewrite lookup_insert_ne by exact Hne; exact H
    |rewrite lookup_insert_eq; eauto | rewrite lookup_insert_ne by exact Hne; exact H].
Qed.

Create HintDb keeps.
Hint Resolve keeps_ret keeps_bind keeps_if keeps_path_exists keeps_urlretrieve : keeps.

(** The cleanup, with its trace: a path that was on disk is unlinked. *)
Lemma unlink_existing_pair_trace (m c : string) w :
  m ≠ c ->
  wp (unlink_existing [m; c]) w
     (fun r w' =>
        r = Ok tt ∧ fs w' !! m = None ∧ fs w' !! c = None ∧
        ∃ evs, trace w' = evs ++ trace w ∧
               (is_Some (fs w !! m) -> PathUnlink m ∈ evs) ∧
               (is_Some (fs w !! c) -> PathUnlink c ∈ evs)).
Proof.
  intros Hne. repeat wp_step.
  all: repeat case_bool_decide; simplify_map_eq.
  all: try (exfalso; naive_solver).
  all: split; [reflexivity|]; split; [first [done | by apply eq_None_not_Some]|];
       split; [first [done | by apply eq_None_not_Some]|].
  all: first [ eexists [_;_;_;_]; split; [reflexivity|]
             | eexists [_;_;_]; split; [reflexivity|]
             | eexists [_;_]; split; [reflexivity|] ].
  all: split; intros Hs; first [ solve [in_trace] | exfalso; naive_solver ].
Qed.

(** C10: whenever [download_voice_model] raises for a voice of the catalog,
    the call ends with a 500, neither artifact is on disk afterwards, and each
    artifact that was on disk before the call, complete or not, has been
    unlinked by the call.  So a model file that was complete is deleted when
    only the metadata fetch fails. *)
Theorem failed_download_deletes_existing_artifacts voice_name w e w' :
  is_Some (VOICE_CATALOG !! voice_name) ->
  download_voice_model env voice_name w = (Raise e, w') ->
  (∃ detail, e = HTTPException 500 detail) ∧
  fs w' !! model_path_of env voice_name = None ∧
  fs w' !! config_path_of env voice_name = None ∧
  ∃ evs, trace w' = evs ++ trace w ∧
         (is_Some (fs w !! model_path_of env voice_name) ->
          PathUnlink (model_path_of env voice_name) ∈ evs) ∧
         (is_Some (fs w !! config_path_of env voice_name) ->
          PathUnlink (config_path_of env voice_name) ∈ evs).
Proof.
  intros [info Hinfo] Hrun.
  pose proof (paths_differ voice_name) as Hne.
  set (m := model_path_of env voice_name) in *.
  set (c := config_path_of env voice_name) in *.
  cut (wp (download_voice_model env voice_name) w
         (fun r w' =>
            match r with
            | Raise e =>
                (∃ detail, e = HTTPException 500 detail) ∧
                fs w' !! m = None ∧ fs w' !! c = None ∧
                ∃ evs, trace w' = evs ++ trace w ∧
                       (is_Some (fs w !! m) -> PathUnlink m ∈ evs) ∧
                       (is_Some (fs w !! c) -> PathUnlink c ∈ evs)
            | Ok _ => True
            end)).
  { intros H. exact (wp_elim _ _ _ _ _ H Hrun). }
  unfold download_voice_model. rewrite Hinfo. clear Hinfo Hrun. cbv zeta. fold m c.
  clearbody m c.
  generalize (base_url info +:+ "/" +:+ voice_name +:+ ".onnx").
  generalize (base_url info +:+ "/" +:+ voice_name +:+ ".onnx.json").
  intros uc um.
  (* the two checks before the [try], whose events come first in the trace *)
  assert (forall w0 : world PiperVoice,
             fs w0 = fs w -> (∃ evs, trace w0 = evs ++ trace w) ->
             wp (try_except
                   (model_present <- path_exists m ;;
                    (if negb model_present then urlretrieve env um m else ret tt) ;;;
                    config_present <- path_exists c ;;
                    (if negb config_present then urlretrieve env uc c else ret tt) ;;;
                    ret (m, c))
                   (fun e0 =>
                      unlink_existing [m; c] ;;;
                      raise (HTTPException 500
                               ("Failed to download voice model: " +:+ str e0))))
                w0
                (fun r w' =>
                   match r with
                   | Raise e =>
                       (∃ detail, e = HTTPException 500 detail) ∧
                       fs w' !! m = None ∧ fs w' !! c = None ∧
                       ∃ evs, trace w' = evs ++ trace w ∧
                              (is_Some (fs w !! m) -> PathUnlink m ∈ evs) ∧
                              (is_Some (fs w !! c) -> PathUnlink c ∈ evs)
                   | Ok _ => True
                   end)) as Htry.
  { intros w0 Hfs [evs0 Ht0].
    apply wp_try_except. eapply wp_mono.
    { assert (keeps (model_present <- path_exists m ;;
                     (if negb model_present then urlretrieve env um m else ret tt) ;;;
                     config_present <- path_exists c ;;
                     (if negb config_present then urlretrieve env uc c else ret tt) ;;;
                     ret (m, c))) as Hk by auto 10 with keeps.
      apply Hk. }
    intros [p|e0] w1 [Hkeep [evs1 Ht1]]; [exact I|].
    apply wp_bind. eapply wp_mono; [apply (unlink_existing_pair_trace m c w1 Hne)|].
    intros r w2 (-> & Hm & Hc & evs2 & Ht2 & Um & Uc).
    apply wp_raise. split; [eauto|]. split; [exact Hm|]. split; [exact Hc|].
    exists (evs2 ++ evs1 ++ evs0). split.
    - rewrite Ht2, Ht1, Ht0, !app_assoc. reflexivity.
    - rewrite <- Hfs. split; intros Hs; apply elem_of_app; left; auto. }
  apply wp_bind, wp_path_exists.
  apply wp_bind.
  destruct (bool_decide (is_Some (fs w !! m))).
  - apply wp_path_exists. cbn [fs record].
    destruct (bool_decide (is_Some (fs w !! c))); [apply wp_ret; exact I|].
    apply Htry; [reflexivity | by eexists [_; _]].
  - apply wp_ret. apply Htry; [reflexivity | by eexists [_]].
Qed.

(** *** A worked case: the model file is there and the metadata fetch fails *)

Lemma download_failure_with_model_present voice_name w f e w' :
  is_Some (VOICE_CATALOG !! voice_name) ->
  fs w !! model_path_of env voice_name = Some f ->
  fs w !! config_path_of env voice_name = None ->
  download_voice_model env voice_name w = (Raise e, w') ->
  (∃ detail, e = HTTPException 500 detail) ∧
  fs w' !! model_path_of env voice_name = None ∧
  fs w' !! config_path_of env voice_name = None ∧
  ∃ evs, trace w' = evs ++ trace w ∧
         PathUnlink (model_path_of env voice_name) ∈ evs ∧
         (∃ url, UrlRetrieve url (config_path_of env voice_name) false ∈ evs) ∧
         (forall url fetched, UrlRetrieve url (model_path_of env voice_name) fetched ∉ evs).
Proof.
  intros [info Hinfo] Hm Hc Hrun.
  pose proof (paths_differ voice_name) as Hne.
  cut (wp (download_voice_model env voice_name) w
         (fun r w' =>
            match r with
            | Raise e =>
                (∃ detail, e = HTTPException 500 detail) ∧
                fs w' !! model_path_of env voice_name = None ∧
                fs w' !! config_path_of env voice_name = None ∧
                ∃ evs, trace w' = evs ++ trace w ∧
                       PathUnlink (model_path_of env voice_name) ∈ evs ∧
                       (∃ url, UrlRetrieve url (config_path_of env voice_name) false ∈ evs) ∧
                       (forall url fetched,
                           UrlRetrieve url (model_path_of env voice_name) fetched ∉ evs)
            | Ok _ => True
            end)).
  { intros H. exact (wp_elim _ _ _ _ _ H Hrun). }
  unfold download_voice_model. rewrite Hinfo. clear Hinfo Hrun. cbv zeta.
  generalize dependent (model_path_of env voice_name).
  generalize dependent (config_path_of env voice_name).
  intros c Hc m Hm Hne.
  generalize (base_url info +:+ "/" +:+ voice_name +:+ ".onnx").
  generalize (base_url info +:+ "/" +:+ voice_name +:+ ".onnx.json").
  intros uc um.
  assert (c ≠ m) as Hne' by (intros E; apply Hne; symmetry; exact E).
  repeat first
    [ progress rewrite ?lookup_delete_eq, ?lookup_insert_eq, ?Hm, ?Hc
    | rewrite lookup_insert_ne by assumption
    | rewrite lookup_delete_ne by assumption
    | progress cbn
    | wp_det ].
  all: try exact I.
  all: split; [eexists; reflexivity|]; do 2 (split; [reflexivity|]).
  all: first [ eexists [_;_;_;_;_;_;_;_;_]; split; [reflexivity|]
             | eexists [_;_;_;_;_;_;_;_]; split; [reflexivity|] ].
  all: split; [solve [in_trace]|]; split; [eexists; solve [in_trace]|].
  all: intros url fetched Hin;
       repeat (apply elem_of_cons in Hin as [Hin|Hin];
               [ try discriminate Hin; injection Hin; intros; subst; contradiction | ]);
       by apply not_elem_of_nil in Hin.
Qed.

(** *** What a download touches *)

Lemma spares_refl paths w : spares paths w w.
Proof. split; reflexivity. Qed.

Lemma spares_trans paths w1 w2 w3 :
  spares paths w1 w2 -> spares paths w2 w3 -> spares paths w1 w3.
Proof.
  intros [C1 F1] [C2 F2]. split; [congruence|].
  intros path H. rewrite F2, F1 by exact H. reflexivity.
Qed.

Lemma confined_ret paths {A} (a : A) : confined paths (ret a).
Proof. intros w. apply spares_refl. Qed.

Lemma confined_raise paths {A} e : confined paths (@raise (world PiperVoice) A e).
Proof. intros w. apply spares_refl. Qed.

Lemma confined_bind paths {A B} (m : M (world PiperVoice) A)
    (k : A -> M (world PiperVoice) B) :
  confined paths m -> (forall a, confined paths (k a)) -> confined paths (bind m k).
Proof.
  intros Hm Hk w. apply wp_bind. eapply wp_mono; [apply Hm|].
  intros [a|e] w1 H1; [|exact H1].
  eapply wp_mono; [apply Hk|]. intros r w2 H2. eapply spares_trans; eassumption.
Qed.

Lemma confined_try_except paths {A} (m : M (world PiperVoice) A) handler :
  confined paths m -> (forall e, confined paths (handler e)) ->
  confined paths (try_except m handler).
Proof.
  intros Hm Hh w. apply wp_try_except. eapply wp_mono; [apply Hm|].
  intros [a|e] w1 H1; [exact H1|].
  eapply wp_mono; [apply Hh|]. intros r w2 H2. eapply spares_trans; eassumption.
Qed.

Lemma confined_if paths {A} (b : bool) (m1 m2 : M (world PiperVoice) A) :
  confined paths m1 -> confined paths m2 -> confined paths (if b then m1 else m2).
Proof. destruct b; auto. Qed.

Lemma confined_path_exists paths path : confined paths (path_exists path).
Proof. intros w. split; reflexivity. Qed.

Lemma confined_path_unlink paths path :
  path ∈ paths -> confined paths (path_unlink path).
Proof.
  intros Hin w. unfold wp, path_unlink. destruct (fs w !! path); cbn.
  - split; [reflexivity|]. cbn. intros p Hp. apply lookup_delete_ne.
    intros ->. contradiction.
  - split; reflexivity.
Qed.

Lemma confined_urlretrieve paths url filename :
  filename ∈ paths -> confined paths (urlretrieve env url filename).
Proof.
  intros Hin w. unfold wp, urlretrieve.
  destruct (urlretrieve_outcome env (trace w) url filename) as [|[|] msg]; cbn;
    (split; [reflexivity|]); cbn; intros p Hp; try reflexivity;
    apply lookup_insert_ne; intros ->; contradiction.
Qed.

Lemma confined_unlink_existing paths some :
  (forall path, path ∈ some -> path ∈ paths) ->
  confined paths (unlink_existing some).
Proof.
  induction some as [|p rest IH]; intros Hsub; cbn [unlink_existing].
  - apply confined_ret.
  - apply confined_bind; [apply confined_path_exists|]. intros present.
    apply confined_bind.
    + apply confined_if; [|apply confined_ret].
      apply confined_path_unlink, Hsub, list_elem_of_here.
    + intros _. apply IH. intros q Hq. apply Hsub, list_elem_of_further, Hq.
Qed.

Lemma confined_download voice_name :
  confined [model_path_of env voice_name; config_path_of env voice_name]
           (download_voice_model env voice_name).
Proof.
  unfold download_voice_model.
  destruct (VOICE_CATALOG !! voice_name) as [info|]; [|apply confined_raise].
  cbv zeta.
  assert (model_path_of env voice_name
            ∈ [model_path_of env voice_name; config_path_of env voice_name]) as Hm
    by apply list_elem_of_here.
  assert (config_path_of env voice_name
            ∈ [model_path_of env voice_name; config_path_of env voice_name]) as Hc
    by apply list_elem_of_further, list_elem_of_here.
  repeat first
    [ apply confined_bind; [|intros ?]
    | apply confined_try_except; [|intros ?]
    | apply confined_if
    | apply confined_ret
    | apply confined_raise
    | apply confined_path_exists
    | apply confined_urlretrieve; assumption
    | apply confined_path_unlink; assumption ].
Qed.

(** X1: [download_voice_model] is confined to the two artifacts of the voice
    it is asked for: whether it returns or raises, every other path on disk is
    as it was, and so is the cache. *)
Theorem download_touches_only_its_own_artifacts voice_name w path :
  path ≠ model_path_of env voice_name ->
  path ≠ config_path_of env voice_name ->
  fs (download_voice_model env voice_name w).2 !! path = fs w !! path ∧
  voice_models (download_voice_model env voice_name w).2 = voice_models w.
Proof.
  intros Hm Hc. destruct (confined_download voice_name w) as [Hcache Hdisk].
  split; [|exact Hcache]. apply Hdisk.
  intros [->|[->|H]%elem_of_cons]%elem_of_cons; [contradiction|contradiction|].
  by apply not_elem_of_nil in H.
Qed.

(** How a download leaves the two artifacts: after a return each of them is
    on disk, as it was if it was there and complete if it was fetched; after
    a raise neither is. *)
Lemma download_disk voice_name w :
  is_Some (VOICE_CATALOG !! voice_name) ->
  wp (download_voice_model env voice_name) w
     (fun r w' =>
        match r with
        | Ok paths =>
            paths = (model_path_of env voice_name, config_path_of env voice_name) ∧
            fs w' !! model_path_of env voice_name
              = Some (default Complete (fs w !! model_path_of env voice_name)) ∧
            fs w' !! config_path_of env voice_name
              = Some (default Complete (fs w !! config_path_of env voice_name))
        | Raise _ =>
            fs w' !! model_path_of env voice_name = None ∧
            fs w' !! config_path_of env voice_name = None
        end).
Proof.
  intros [info Hinfo].
  pose proof (paths_differ voice_name) as Hne.
  unfold download_voice_model. rewrite Hinfo. clear Hinfo. cbv zeta.
  generalize dependent (model_path_of env voice_name).
  generalize dependent (config_path_of env voice_name).
  intros c m Hne.
  generalize (base_url info +:+ "/" +:+ voice_name +:+ ".onnx").
  generalize (base_url info +:+ "/" +:+ voice_name +:+ ".onnx.json").
  intros uc um.
  assert (c ≠ m) as Hne' by (intros E; apply Hne; symmetry; exact E).
  assert (forall w0 : world PiperVoice,
             fs w0 = fs w ->
             wp (try_except
                   (model_present <- path_exists m ;;
                    (if negb model_present then urlretrieve env um m else ret tt) ;;;
                    config_present <- path_exists c ;;
                    (if negb config_present then urlretrieve env uc c else ret tt) ;;;
                    ret (m, c))
                   (fun e0 =>
                      unlink_existing [m; c] ;;;
                      raise (HTTPException 500
                               ("Failed to download voice model: " +:+ str e0))))
                w0
                (fun r w' =>
                   match r with
                   | Ok paths =>
                       paths = (m, c) ∧
                       fs w' !! m = Some (default Complete (fs w !! m)) ∧
                       fs w' !! c = Some (default Complete (fs w !! c))
                   | Raise _ => fs w' !! m = None ∧ fs w' !! c = None
                   end)) as Htry.
  { intros w0 Hfs. apply wp_try_except.
    apply (wp_mono _ _
             (fun r w1 =>
                match r with
                | Ok paths =>
                    paths = (m, c) ∧
                    fs w1 !! m = Some (default Complete (fs w !! m)) ∧
                    fs w1 !! c = Some (default Complete (fs w !! c))
                | Raise _ => True
                end)).
    - rewrite <- Hfs. clear Hfs.
      destruct (fs w0 !! m) as [fm|] eqn:Em; destruct (fs w0 !! c) as [fc|] eqn:Ec.
      all: repeat first
             [ progress rewrite ?lookup_insert_eq, ?Em, ?Ec
             | rewrite lookup_insert_ne by assumption
             | rewrite bool_decide_eq_true_2 by eauto
             | rewrite bool_decide_eq_false_2 by (intros [? ?]; discriminate)
             | progress cbn
             | wp_det ].
      all: first [ exact I | repeat split; reflexivity ].
    - intros [p|e0] w1 H; [exact H|].
      apply wp_bind. eapply wp_mono; [apply (unlink_existing_pair m c w1 Hne)|].
      intros r w2 (-> & Hm & Hc). apply wp_raise. auto. }
  apply wp_bind, wp_path_exists. apply wp_bind.
  destruct (fs w !! m) as [fm|] eqn:Em.
  - rewrite bool_decide_eq_true_2 by eauto. apply wp_path_exists. cbn [fs record].
    destruct (fs w !! c) as [fc|] eqn:Ec.
    + rewrite bool_decide_eq_true_2 by eauto. apply wp_ret.
      cbn [fs record]. rewrite Em, Ec. auto.
    + rewrite bool_decide_eq_false_2 by (intros [? ?]; discriminate).
      eapply wp_mono; [apply Htry; reflexivity|].
      intros r w' H. exact H.
  - rewrite bool_decide_eq_false_2 by (intros [? ?]; discriminate). apply wp_ret.
    eapply wp_mono; [apply Htry; reflexivity|].
    intros r w' H. exact H.
Qed.

(** X2: when [download_voice_model] returns, it returns the two paths of the
    voice, and both artifacts are on disk: an artifact that was there before
    the call is there in the state it was in, complete or not, and one that
    was missing has been fetched in full. *)
Theorem successful_download_leaves_both_artifacts voice_name w paths w' :
  download_voice_model env voice_name w = (Ok paths, w') ->
  paths = (model_path_of env voice_name, config_path_of env voice_name) ∧
  fs w' !! model_path_of env voice_name
    = Some (default Complete (fs w !! model_path_of env voice_name)) ∧
  fs w' !! config_path_of env voice_name
    = Some (default Complete (fs w !! config_path_of env voice_name)).
Proof.
  intros Hrun.
  destruct (VOICE_CATALOG !! voice_name) as [info|] eqn:Hinfo;
    [|rewrite (download_unknown _ _ Hinfo) in Hrun; discriminate].
  exact (wp_elim _ _ _ _ _ (download_disk voice_name w (ex_intro _ info Hinfo)) Hrun).
Qed.

(** X3: when both artifacts of a catalog voice are on disk, whatever their
    state, [download_voice_model] returns their paths after looking at the
    two files: the disk and the cache are as they were and nothing is
    fetched or unlinked. *)
Theorem present_artifacts_are_not_fetched voice_name w :
  is_Some (VOICE_CATALOG !! voice_name) ->
  is_Some (fs w !! model_path_of env voice_name) ->
  is_Some (fs w !! config_path_of env voice_name) ->
  download_voice_model env voice_name w =
    (Ok (model_path_of env voice_name, config_path_of env voice_name),
     World (fs w) (voice_models w)
           (PathExists (config_path_of env voice_name) true ::
            PathExists (model_path_of env voice_name) true :: trace w)).
Proof.
  intros [info Hinfo] Hm Hc. unfold download_voice_model. rewrite Hinfo. cbv zeta.
  unfold bind, path_exists, ret, record. cbn.
  rewrite (bool_decide_eq_true_2 _ Hm). cbn.
  rewrite (bool_decide_eq_true_2 _ Hc). reflexivity.
Qed.

(** *** What a load does to the cache *)

Lemma load_cache voice_name w :
  wp (load_voice_model env voice_name) w
     (fun r w' =>
        match r with
        | Ok vm => voice_models w' = <[voice_name := vm]> (voice_models w)
        | Raise e =>
            voice_models w' = voice_models w ∧ ∃ detail, e = HTTPException 500 detail
        end).
Proof.
  unfold wp, load_voice_model, bind, voice_models_get.
  destruct (voice_models w !! voice_name) as [vm|] eqn:Hc.
  - cbn. symmetry. apply insert_id, Hc.
  - unfold try_except, bind.
    pose proof (quiet_download voice_name w) as [Hq _]. unfold wp in Hq.
    destruct (download_voice_model env voice_name w) as [[paths|e] w1];
      cbn [fst snd] in Hq.
    + unfold run_PiperVoice_load.
      destruct (PiperVoice_load env (trace w1) paths.1 paths.2) as [vm|e].
      * cbn. rewrite Hq. reflexivity.
      * cbn. split; [exact Hq|]. unfold load_failure. eauto.
    + cbn. split; [exact Hq|]. unfold load_failure. eauto.
Qed.


(** *** The handlers that only look *)

Lemma same_disk_refl w : same_disk w w.
Proof. split; reflexivity. Qed.

Lemma same_disk_trans w1 w2 w3 : same_disk w1 w2 -> same_disk w2 w3 -> same_disk w1 w3.
Proof. intros [F1 C1] [F2 C2]. split; congruence. Qed.

Lemma voice_info_of_run name info w :
  wp (voice_info_of env name info) w
     (fun r w' =>
        same_disk w w' ∧
        r = Ok {| vi_name := name; vi_language := language info;
                  vi_speaker := speaker info; vi_quality := quality info;
                  vi_sample_rate := sample_rate info; vi_gender := gender info;
                  vi_file_size_known :=
                    bool_decide (is_Some (fs w !! model_path_of env name)) &&
                    bool_decide (is_Some (fs w !! config_path_of env name));
                  vi_available :=
                    bool_decide (is_Some (fs w !! model_path_of env name)) &&
                    bool_decide (is_Some (fs w !! config_path_of env name)) |}).
Proof.
  unfold wp, voice_info_of, bind, path_exists, path_stat, ret, record. cbn.
  destruct (fs w !! model_path_of env name) as [fm|] eqn:Em.
  - rewrite (bool_decide_eq_true_2 (is_Some (Some fm))) by eauto. cbn.
    destruct (fs w !! config_path_of env name) as [fc|] eqn:Ec.
    + rewrite (bool_decide_eq_true_2 (is_Some (Some fc))) by eauto. cbn.
      rewrite Em. rewrite (bool_decide_eq_true_2 (is_Some (Some fm))) by eauto.
      cbn. rewrite Em. cbn. split; [split|]; reflexivity.
    + rewrite (bool_decide_eq_false_2 (is_Some None)) by (intros [? ?]; discriminate).
      cbn. split; [split|]; reflexivity.
  - rewrite (bool_decide_eq_false_2 (is_Some None)) by (intros [? ?]; discriminate).
    cbn. split; [split|]; reflexivity.
Qed.

Lemma list_voices_from_run items w :
  wp (list_voices_from env items) w
     (fun r w' =>
        same_disk w w' ∧
        ∃ voices, r = Ok voices ∧
          Forall2 (fun item v =>
                     vi_name v = item.1 ∧ vi_language v = language item.2 ∧
                     vi_speaker v = speaker item.2 ∧ vi_quality v = quality item.2 ∧
                     vi_sample_rate v = sample_rate item.2 ∧
                     vi_gender v = gender item.2 ∧
                     vi_file_size_known v = vi_available v ∧
                     vi_available v =
                       bool_decide (is_Some (fs w !! model_path_of env item.1)) &&
                       bool_decide (is_Some (fs w !! config_path_of env item.1)))
                  items voices).
Proof.
  revert w. induction items as [|[name info] rest IH]; intros w; cbn [list_voices_from].
  - apply wp_ret. split; [apply same_disk_refl|]. exists []. split; [reflexivity|constructor].
  - apply wp_bind. eapply wp_mono; [apply voice_info_of_run|].
    intros r w1 [H1 ->]. apply wp_bind. eapply wp_mono; [apply IH|].
    intros r w2 [H2 (voices & -> & Hall)]. apply wp_ret.
    split; [eapply same_disk_trans; eassumption|].
    eexists. split; [reflexivity|]. constructor.
    + cbn. repeat split; reflexivity.
    + destruct H1 as [<- _]. exact Hall.
Qed.

(** X5: [list_voices] always returns, with one entry for each voice of the
    catalog, in the order of the catalog and with the catalog's fields; a
    voice is reported available exactly when both of its artifacts are on
    disk, and its file size is given exactly then.  The call leaves the disk
    and the cache as they were. *)
Theorem list_voices_reports_the_catalog w :
  ∃ voices w',
    list_voices env w = (Ok voices, w') ∧
    fs w' = fs w ∧ voice_models w' = voice_models w ∧
    Forall2 (fun item v =>
               vi_name v = item.1 ∧ vi_language v = language item.2 ∧
               vi_speaker v = speaker item.2 ∧ vi_quality v = quality item.2 ∧
               vi_sample_rate v = sample_rate item.2 ∧
               vi_gender v = gender item.2 ∧
               vi_file_size_known v = vi_available v ∧
               vi_available v =
                 bool_decide (is_Some (fs w !! model_path_of env item.1)) &&
                 bool_decide (is_Some (fs w !! config_path_of env item.1)))
            EXTENDED_VOICE_CATALOG_items voices.
Proof.
  pose proof (list_voices_from_run EXTENDED_VOICE_CATALOG_items w) as H.
  unfold wp in H. fold (list_voices env) in H.
  destruct (list_voices env w) as [r w']. cbn [fst snd] in H.
  destruct H as [[Hfs Hvm] (voices & -> & Hall)].
  exists voices, w'. auto.
Qed.

(** X6: after [download_voice_model] has run for a voice of the catalog,
    [download_voice] answers [already_exists] for that voice if the download
    returned, and [downloading] if it raised: a failed download leaves
    nothing behind that the handler would take for the voice. *)
Theorem download_voice_reflects_the_last_download request w r w' :
  is_Some (VOICE_CATALOG !! voice_name request) ->
  download_voice_model env (voice_name request) w = (r, w') ->
  (download_voice env request w').1 =
    Ok (match r with Ok _ => already_exists | Raise _ => downloading end).
Proof.
  intros Hcat Hrun.
  pose proof (wp_elim _ _ _ _ _ (download_disk (voice_name request) w Hcat) Hrun) as H.
  destruct Hcat as [info Hinfo].
  unfold download_voice, bind, path_exists, ret, record. rewrite Hinfo. cbn.
  destruct r as [paths|e].
  - destruct H as (_ & Hm & Hc). rewrite Hm.
    rewrite bool_decide_eq_true_2 by eauto. cbn. rewrite Hc.
    rewrite bool_decide_eq_true_2 by eauto. reflexivity.
  - destruct H as (Hm & _). rewrite Hm.
    rewrite bool_decide_eq_false_2 by (intros [? ?]; discriminate). reflexivity.
Qed.

(** *** Requests for speech *)

(** X7: a [POST /tts] that fails is answered with 422 or with 500 and with no
    other status: the 422 is the schema's, and then the world is as it was;
    every exception of the handler, the 404 of an unknown voice included,
    leaves as an [HTTPException] with status 500. *)
Theorem tts_fails_with_422_or_500 request w e w' :
  post_tts env request w = (Raise e, w') ->
  (∃ field, e = RequestValidationError field) ∧ w' = w ∨
  (∃ detail, e = HTTPException 500 ("TTS generation failed: " +:+ detail)).
Proof.
  unfold post_tts, TTSRequest_validate.
  destruct (Z.of_nat (String.length (text request)) <? 1);
    [intros [= <- <-]; left; eauto|].
  destruct (Z.of_nat (String.length (text request)) >? 10000);
    [intros [= <- <-]; left; eauto|].
  assert (text_to_speech env request w = (Raise e, w') ->
          ∃ detail, e = HTTPException 500 ("TTS generation failed: " +:+ detail)) as Hh.
  { unfold text_to_speech, try_except, raise, tts_failure.
    match goal with |- context [bind ?m ?k w] => destruct (bind m k w) as [[a|e0] w1] end.
    - discriminate.
    - intros [= <- <-]. eauto. }
  destruct (speed request) as [s|]; [|right; auto].
  destruct (Qle_bool (1 # 2) s && Qle_bool s 2); [right; auto|].
  intros [= <- <-]; left; eauto.
Qed.

(** With no other request in between, [text_to_speech_among] is
    [text_to_speech]. *)
Lemma text_to_speech_alone request w pending :
  text_to_speech_among env request [] [] (System w pending) =
  ((text_to_speech env request w).1, System (text_to_speech env request w).2 pending).
Proof.
  unfold text_to_speech_among, text_to_speech, synthesize_response, try_except, run.
  cbn [fold_left sys_world sys_pending].
  unfold bind, ret, raise. rewrite load_voice_model_split. unfold bind, ret.
  destruct (load_voice_model_begin env (voice_or_default env request) w)
    as [[[vm|paths]|e] w1]; [| |reflexivity].
  - destruct (synthesize_audio_sync env (text request) vm w1) as [[audio|e] w2];
      reflexivity.
  - destruct (load_voice_model_resume env (voice_or_default env request) paths w1)
      as [[vm|e] w2]; [|reflexivity].
    destruct (synthesize_audio_sync env (text request) vm w2) as [[audio|e] w3];
      reflexivity.
Qed.

(** Every step of the service adds to the trace and takes nothing from it. *)
Lemma perform_extends_trace a s :
  ∃ evs, trace (sys_world (perform env a s)) = evs ++ trace (sys_world s).
Proof.
  assert (forall {A} (m : M (world PiperVoice) A) w,
            Piper.quiet m -> ∃ evs, trace (m w).2 = evs ++ trace w) as Hq.
  { intros A m w Hm. destruct (Hm w) as [_ H]. exact H. }
  destruct a as [v|index|text vm| | |request|v|]; cbn [perform].
  - pose proof (Hq _ _ (sys_world s) (quiet_load_begin v)) as H.
    destruct (load_voice_model_begin env v (sys_world s)) as [[[vm|paths]|e] w'];
      exact H.
  - destruct (sys_pending s !! index) as [p|]; [|by exists []].
    destruct (load_resume_cases (pl_voice p) (pl_paths p) (sys_world s))
      as [[vm ->]|[e ->]]; cbn; by eexists [_].
  - apply Hq, quiet_synthesize.
  - apply Hq, quiet_list_voices.
  - apply Hq, quiet_health_check.
  - apply Hq, quiet_download_voice.
  - apply Hq, quiet_background_download.
  - by exists [].
Qed.

Lemma run_extends_trace actions s :
  ∃ evs, trace (sys_world (run env actions s)) = evs ++ trace (sys_world s).
Proof.
  revert s. induction actions as [|a actions IH]; intros s; [by exists []|].
  change (run env (a :: actions) s) with (run env actions (perform env a s)).
  destruct (IH (perform env a s)) as [evs2 ->].
  destruct (perform_extends_trace a s) as [evs1 ->].
  exists (evs2 ++ evs1). apply app_assoc.
Qed.

Lemma synthesize_response_ok request vm s response s' :
  synthesize_response env request vm s = (Ok response, s') ->
  media_type response = "audio/wav" ∧
  nchannels (content response) = 1 ∧
  sampwidth (content response) = 2 ∧
  framerate (content response) = voice_sample_rate env vm ∧
  trace (sys_world s') = VoiceSynthesize (text request) vm :: trace (sys_world s) ∧
  voice_synthesize env (trace (sys_world s)) vm (text request)
    = Ok (frames (content response)).
Proof.
  unfold synthesize_response, synthesize_audio_sync.
  destruct (voice_synthesize env (trace (sys_world s)) vm (text request)) as [written|e];
    [|discriminate].
  intros [= <- <-]. cbn. repeat split; reflexivity.
Qed.

(** X8: a [text_to_speech] that returns, whatever the service has done
    before and whatever other requests do while it waits for the load and
    for the executor, returns [audio/wav] with one channel of 16-bit samples.
    The frames were written by one handle, at that handle's sample rate, and
    the handle is a loaded model of the requested voice, the default voice
    when the request names none: the trace before the synthesis holds a
    successful [PiperVoice.load] of the two artifacts of that voice, both
    ready by then. *)
Theorem tts_audio_comes_from_a_loaded_voice request disk before during_load
    before_synthesis response s' :
  text_to_speech_among env request during_load before_synthesis
    (run env before (boot disk)) = (Ok response, s') ->
  media_type response = "audio/wav" ∧
  nchannels (content response) = 1 ∧
  sampwidth (content response) = 2 ∧
  ∃ vm earlier,
    loaded_model env (voice_or_default env request) vm earlier ∧
    framerate (content response) = voice_sample_rate env vm ∧
    trace (sys_world s') = VoiceSynthesize (text request) vm :: earlier ∧
    voice_synthesize env earlier vm (text request) = Ok (frames (content response)).
Proof.
  pose proof (sound_run before (boot disk) (sound_boot disk)) as Hs.
  set (s := run env before (boot disk)) in *.
  set (v := voice_or_default env request).
  unfold text_to_speech_among. fold v.
  assert (forall vm w2 pending,
            loaded_model env v vm (trace w2) ->
            synthesize_response env request vm
              (run env before_synthesis (System w2 pending)) = (Ok response, s') ->
            media_type response = "audio/wav" ∧
            nchannels (content response) = 1 ∧
            sampwidth (content response) = 2 ∧
            ∃ vm earlier,
              loaded_model env v vm earlier ∧
              framerate (content response) = voice_sample_rate env vm ∧
              trace (sys_world s') = VoiceSynthesize (text request) vm :: earlier ∧
              voice_synthesize env earlier vm (text request)
                = Ok (frames (content response))) as Hend.
  { intros vm w2 pending Hloaded Hrun.
    destruct (synthesize_response_ok _ _ _ _ _ Hrun) as (H1 & H2 & H3 & H4 & H5 & H6).
    do 3 (split; [assumption|]).
    exists vm, (trace (sys_world (run env before_synthesis (System w2 pending)))).
    split; [|auto].
    destruct (run_extends_trace before_synthesis (System w2 pending)) as [evs ->].
    apply loaded_model_grows. exact Hloaded. }
  destruct (load_voice_model_begin env v (sys_world s)) as [[[vm|paths]|e] w1] eqn:Hb;
    [| |discriminate].
  - (* the voice was in the dictionary *)
    apply Hend.
    revert Hb. unfold load_voice_model_begin, bind, try_except, voice_models_get, ret, raise.
    destruct (voice_models (sys_world s) !! v) as [h|] eqn:Hc.
    + intros [= <- <-]. destruct Hs as [Hcache _]. exact (Hcache v h Hc).
    + destruct (download_voice_model env v (sys_world s)) as [[p|e] w2]; discriminate.
  - (* the voice is loaded while other requests run *)
    destruct (load_begin_pending _ _ _ _ Hb) as (Hcat & -> & Hm & Hc).
    set (s1 := run env during_load (System w1 (sys_pending s))).
    destruct (run_extends_trace during_load (System w1 (sys_pending s))) as [evs Hevs].
    fold s1 in Hevs. cbn [sys_world] in Hevs.
    destruct (load_resume_cases v (model_path_of env v, config_path_of env v) (sys_world s1))
      as [[vm ->]|[e ->]]; [|discriminate].
    apply Hend. cbn [trace fst snd]. split; [exact Hcat|].
    exists [], (trace (sys_world s1)). split; [reflexivity|].
    rewrite Hevs. split; apply artifact_ready_grows; assumption.
Qed.

(** *** Startup and health *)

(** X9: [startup_event] never raises, so the service starts whether or not the
    default voice could be loaded; afterwards the cache is the old one, or the
    old one with a handle at the default voice. *)
Theorem startup_never_fails w :
  ∃ w', startup_event env w = (Ok tt, w') ∧
        (voice_models w' = voice_models w ∨
         ∃ vm, voice_models w' = <[default_voice (config env) := vm]> (voice_models w)).
Proof.
  unfold startup_event, try_except, bind, ret.
  pose proof (load_cache (default_voice (config env)) w) as H. unfold wp in H.
  destruct (load_voice_model env (default_voice (config env)) w) as [[vm|e] w1];
    cbn [fst snd] in H; eexists; (split; [reflexivity|]).
  - right. eauto.
  - left. tauto.
Qed.


(** X29: after [download_voice_model] has run for a voice of the catalog,
    [list_voices] lists that voice, and reports it available if the download
    returned and not available if it raised. *)
Theorem list_voices_reflects_the_last_download voice_name w r w' :
  is_Some (VOICE_CATALOG !! voice_name) ->
  download_voice_model env voice_name w = (r, w') ->
  ∃ voices v,
    (list_voices env w').1 = Ok voices ∧
    v ∈ voices ∧
    vi_name v = voice_name ∧
    vi_available v = match r with Ok _ => true | Raise _ => false end.
Proof.
  intros Hcat Hrun.
  pose proof (wp_elim _ _ _ _ _ (download_disk voice_name w Hcat) Hrun) as Hdisk.
  destruct Hcat as [info Hinfo].
  apply elem_of_list_to_map_2, list_elem_of_lookup in Hinfo as [i Hi].
  pose proof (list_voices_from_run EXTENDED_VOICE_CATALOG_items w') as H.
  unfold wp in H. fold (list_voices env) in H.
  destruct (list_voices env w') as [r' w'']. cbn [fst snd] in H.
  destruct H as [_ (voices & -> & Hall)].
  destruct (Forall2_lookup_l _ _ _ _ _ Hall Hi) as (v & Hv & Hname & _ & _ & _ & _ & _ & _ & Hav).
  exists voices, v. split; [reflexivity|].
  split; [eapply list_elem_of_lookup_2; exact Hv|]. split; [exact Hname|].
  rewrite Hav. cbn [fst]. destruct r as [paths|e].
  - destruct Hdisk as (_ & Hm & Hc). rewrite Hm, Hc.
    rewrite !bool_decide_eq_true_2 by eauto. reflexivity.
  - destruct Hdisk as (Hm & _). rewrite Hm.
    rewrite bool_decide_eq_false_2 by (intros [? ?]; discriminate). reflexivity.
Qed.

(** *** A voice the catalog does not know *)

(** X14: for a voice that is neither in the catalog nor in the cache,
    resolution fails without a look at the disk, a fetch or a call to the
    library, the world being exactly as it was: [download_voice_model] raises
    the 404, [load_voice_model] raises a 500 in its place, and
    [text_to_speech] wraps that 500 in another. *)
Theorem unknown_voice_touches_nothing request w :
  VOICE_CATALOG !! voice_or_default env request = None ->
  voice_models w !! voice_or_default env request = None ->
  download_voice_model env (voice_or_default env request) w =
    (Raise (catalog_miss (voice_or_default env request)), w) ∧
  load_voice_model env (voice_or_default env request) w =
    (Raise (load_failure (catalog_miss (voice_or_default env request))), w) ∧
  text_to_speech env request w =
    (Raise (tts_failure (load_failure (catalog_miss (voice_or_default env request)))), w).
Proof.
  intros Hcat Hc. split; [exact (download_unknown _ _ Hcat)|].
  pose proof (load_unknown_voice _ _ Hcat Hc) as Hl. split; [exact Hl|].
  unfold text_to_speech, try_except, bind. rewrite Hl. reflexivity.
Qed.

End Facts.

(** *** The voice cache *)

(** C1: in every state the service can reach, whatever the order in which
    requests begin, loads complete, voices are downloaded and the service shuts
    down, a voice identifier that is a key of [voice_models] maps to a handle
    that a successful [PiperVoice.load] of that voice's two artifacts
    returned, the artifacts being ready before the load. *)
Theorem cache_holds_only_loaded_models {PiperVoice} (env : Env PiperVoice)
    disk actions voice_name vm :
  voice_models (sys_world (run env actions (boot disk))) !! voice_name = Some vm ->
  loaded_model env voice_name vm (trace (sys_world (run env actions (boot disk)))).
Proof.
  intros H. exact (proj1 (sound_run env actions _ (sound_boot env disk)) _ _ H).
Qed.

Lemma cache_holds_only_loaded_models_witness :
  voice_models
    (sys_world (run (deployment ∅ network_up)
                    [LoadBegin "en_US-amy-low"; LoadResume 0%nat] (boot ∅)))
    !! "en_US-amy-low" = Some "models/piper/en_US-amy-low.onnx" ∧
  loaded_model (deployment ∅ network_up) "en_US-amy-low"
    "models/piper/en_US-amy-low.onnx"
    (trace (sys_world (run (deployment ∅ network_up)
                           [LoadBegin "en_US-amy-low"; LoadResume 0%nat] (boot ∅)))).
Proof.
  split; [reflexivity|].
  apply (cache_holds_only_loaded_models (deployment ∅ network_up) ∅
           [LoadBegin "en_US-amy-low"; LoadResume 0%nat]).
  reflexivity.
Defined.

(** C2: a voice identifier that is not in the catalog.  [download_voice_model]
    raises the 404, but [load_voice_model] catches it with every other
    exception and raises a 500 in its place; the disk, the cache and the trace
    are as they were. *)
Theorem unknown_voice_answered_with_500 :
  VOICE_CATALOG !! "xx_XX-nobody-low" = None ∧
  download_voice_model (deployment ∅ network_up) "xx_XX-nobody-low" empty_world =
    (Raise (HTTPException 404 "Voice 'xx_XX-nobody-low' not found in catalog"),
     empty_world) ∧
  ∃ detail,
    load_voice_model (deployment ∅ network_up) "xx_XX-nobody-low" empty_world =
      (Raise (HTTPException 500 detail), empty_world) ∧
    is_client_error (HTTPException 500 detail) = false.
Proof.
  split; [reflexivity|]. split; [reflexivity|].
  eexists. split; reflexivity.
Qed.

Lemma failed_download_leaves_no_artifact_witness :
  fs (download_voice_model (deployment ∅ network_drops_metadata)
                           "en_US-amy-low" empty_world).2
    !! model_path_of (deployment ∅ network_drops_metadata) "en_US-amy-low" = None ∧
  fs (download_voice_model (deployment ∅ network_drops_metadata)
                           "en_US-amy-low" empty_world).2
    !! config_path_of (deployment ∅ network_drops_metadata) "en_US-amy-low" = None.
Proof.
  apply (failed_download_leaves_no_artifact (deployment ∅ network_drops_metadata)
           "en_US-amy-low" empty_world
           (HTTPException 500 "Failed to download voice model: retrieval incomplete")).
  - eexists. reflexivity.
  - vm_compute. reflexivity.
Defined.

(** C5: a voice that is in the cache, or that an earlier call has just loaded,
    is returned as it is: the call leaves the disk, the cache and the trace
    untouched, so it neither looks at a file nor fetches nor loads. *)
Theorem cached_voice_is_returned_untouched {PiperVoice} (env : Env PiperVoice)
    voice_name w vm :
  voice_models w !! voice_name = Some vm ∨
  (∃ w0, load_voice_model env voice_name w0 = (Ok vm, w)) ->
  load_voice_model env voice_name w = (Ok vm, w).
Proof.
  intros [H|[w0 H]]; apply load_voice_model_hit; [exact H|].
  exact (load_voice_model_ok_cached env _ _ _ _ H).
Qed.

Lemma cached_voice_is_returned_untouched_witness :
  load_voice_model (deployment ∅ network_up) "en_US-amy-low"
    (load_voice_model (deployment ∅ network_up) "en_US-amy-low" empty_world).2 =
  (Ok "models/piper/en_US-amy-low.onnx",
   (load_voice_model (deployment ∅ network_up) "en_US-amy-low" empty_world).2).
Proof.
  apply (cached_voice_is_returned_untouched (deployment ∅ network_up)).
  right. exists empty_world. vm_compute. reflexivity.
Defined.

Lemma failed_download_deletes_existing_artifacts_witness :
  fs disk_with_amy_model
    !! model_path_of (deployment ∅ network_drops_metadata) "en_US-amy-low"
    = Some Complete ∧
  fs (download_voice_model (deployment ∅ network_drops_metadata)
                           "en_US-amy-low" disk_with_amy_model).2
    !! model_path_of (deployment ∅ network_drops_metadata) "en_US-amy-low" = None.
Proof.
  split; [reflexivity|].
  destruct (failed_download_deletes_existing_artifacts
              (deployment ∅ network_drops_metadata) "en_US-amy-low" disk_with_amy_model
              (HTTPException 500 "Failed to download voice model: retrieval incomplete")
              (download_voice_model (deployment ∅ network_drops_metadata)
                                    "en_US-amy-low" disk_with_amy_model).2)
    as (_ & Hm & _).
  - eexists. reflexivity.
  - vm_compute. reflexivity.
  - exact Hm.
Defined.

(** *** Requests *)

Lemma text_to_speech_reads_text_and_voice {PiperVoice} (env : Env PiperVoice) r1 r2 w :
  text r1 = text r2 -> voice r1 = voice r2 ->
  text_to_speech env r1 w = text_to_speech env r2 w.
Proof.
  intros Ht Hv. unfold text_to_speech, voice_or_default. rewrite Ht, Hv. reflexivity.
Qed.

(** The bound the request model enforces is 10000 characters: a longer text
    is answered with the validation error, a client error, and nothing is
    looked up, loaded or synthesized. *)
Theorem oversized_text_is_rejected {PiperVoice} (env : Env PiperVoice) request w :
  Z.of_nat (String.length (text request)) > 10000 ->
  post_tts env request w = (Raise (RequestValidationError "text"), w) ∧
  is_client_error (RequestValidationError "text") = true.
Proof.
  intros H. split; [|reflexivity]. unfold post_tts, TTSRequest_validate.
  destruct (Z.of_nat (String.length (text request)) <? 1); [reflexivity|].
  destruct (Z.of_nat (String.length (text request)) >? 10000) eqn:E; [reflexivity|].
  rewrite Z.gtb_ltb in E. apply Z.ltb_ge in E. lia.
Qed.

Lemma oversized_text_is_rejected_witness :
  Z.of_nat (String.length long_text) > 10000 ∧
  post_tts (deployment ∅ network_up)
           {| text := long_text; voice := None; speed := None |} empty_world =
    (Raise (RequestValidationError "text"), empty_world).
Proof.
  split; [vm_compute; reflexivity|].
  apply (oversized_text_is_rejected (deployment ∅ network_up)
           {| text := long_text; voice := None; speed := None |} empty_world).
  vm_compute. reflexivity.
Defined.

(** C4: the service reads [PIPER_MAX_TEXT_LENGTH] into the validated
    configuration and never consults it.  With [PIPER_MAX_TEXT_LENGTH=5] the
    configuration holds a maximum text length of 5, and a [POST /tts] with a
    text of eight characters is not rejected: the default voice is loaded and
    the text is synthesized. *)
Lemma configured_limit_is_not_enforced :
  (ServiceConfig_init mkdir_succeeds short_limit_environ []).1
    = Ok (config (deployment short_limit_environ network_up)) ∧
  max_text_length (config (deployment short_limit_environ network_up)) = 5 ∧
  Z.of_nat (String.length "toolong!") = 8 ∧
  ∃ response w',
    post_tts (deployment short_limit_environ network_up)
             {| text := "toolong!"; voice := None; speed := Some 1%Q |} empty_world
      = (Ok response, w') ∧
    VoiceLoad "models/piper/en_US-lessac-low.onnx"
              "models/piper/en_US-lessac-low.onnx.json"
              (Some "models/piper/en_US-lessac-low.onnx") ∈ trace w' ∧
    VoiceSynthesize "toolong!" "models/piper/en_US-lessac-low.onnx" ∈ trace w'.
Proof.
  split; [reflexivity|]. split; [reflexivity|]. split; [reflexivity|].
  eexists _, _. split; [vm_compute; reflexivity|].
  split; repeat first [ apply list_elem_of_here | apply list_elem_of_further ].
Qed.

(** C9: the speed of a request is checked against its range and then never
    read: two requests with the same text and voice and any two speeds in
    range end in the same result, the same cache and the same trace, hence in
    the same calls to the library with the same arguments. *)
Theorem speed_has_no_effect {PiperVoice} (env : Env PiperVoice)
    (request_text : string) (request_voice : option string) (s1 s2 : Q) w :
  Qle (1 # 2) s1 ∧ Qle s1 2 ->
  Qle (1 # 2) s2 ∧ Qle s2 2 ->
  post_tts env {| text := request_text; voice := request_voice; speed := Some s1 |} w =
  post_tts env {| text := request_text; voice := request_voice; speed := Some s2 |} w.
Proof.
  intros [L1 U1] [L2 U2]. unfold post_tts, TTSRequest_validate. cbn [text speed].
  destruct (Z.of_nat (String.length request_text) <? 1); [reflexivity|].
  destruct (Z.of_nat (String.length request_text) >? 10000); [reflexivity|].
  apply Qle_bool_iff in L1, U1, L2, U2. rewrite L1, U1, L2, U2. cbn [andb].
  apply text_to_speech_reads_text_and_voice; reflexivity.
Qed.

Lemma speed_has_no_effect_witness :
  post_tts (deployment ∅ network_up)
    {| text := "hello"; voice := Some "en_US-amy-low"; speed := Some (1 # 2) |}
    empty_world =
  post_tts (deployment ∅ network_up)
    {| text := "hello"; voice := Some "en_US-amy-low"; speed := Some 2%Q |}
    empty_world.
Proof.
  apply (speed_has_no_effect (deployment ∅ network_up)); split; discriminate.
Defined.

(** *** Runs of the sample deployments *)

Lemma download_touches_only_its_own_artifacts_witness :
  fs (download_voice_model (deployment ∅ network_drops_metadata) "en_US-amy-low"
        (download_voice_model (deployment ∅ network_up) "en_US-lessac-low"
                              empty_world).2).2
    !! "models/piper/en_US-lessac-low.onnx"
  = fs (download_voice_model (deployment ∅ network_up) "en_US-lessac-low"
                             empty_world).2
      !! "models/piper/en_US-lessac-low.onnx" ∧
  voice_models
    (download_voice_model (deployment ∅ network_drops_metadata) "en_US-amy-low"
       (download_voice_model (deployment ∅ network_up) "en_US-lessac-low"
                             empty_world).2).2
  = voice_models (download_voice_model (deployment ∅ network_up) "en_US-lessac-low"
                                       empty_world).2.
Proof.
  apply (download_touches_only_its_own_artifacts
           (deployment ∅ network_drops_metadata) "en_US-amy-low"
           (download_voice_model (deployment ∅ network_up) "en_US-lessac-low"
                                 empty_world).2
           "models/piper/en_US-lessac-low.onnx");
    vm_compute; discriminate.
Defined.

Lemma successful_download_leaves_both_artifacts_witness :
  fs (download_voice_model (deployment ∅ network_up) "en_US-amy-low"
                           disk_with_amy_model).2
    !! model_path_of (deployment ∅ network_up) "en_US-amy-low"
  = Some (default Complete
            (fs disk_with_amy_model
               !! model_path_of (deployment ∅ network_up) "en_US-amy-low")) ∧
  fs (download_voice_model (deployment ∅ network_up) "en_US-amy-low"
                           disk_with_amy_model).2
    !! config_path_of (deployment ∅ network_up) "en_US-amy-low"
  = Some (default Complete
            (fs disk_with_amy_model
               !! config_path_of (deployment ∅ network_up) "en_US-amy-low")).
Proof.
  apply (successful_download_leaves_both_artifacts (deployment ∅ network_up)
           "en_US-amy-low" disk_with_amy_model
           ("models/piper/en_US-amy-low.onnx", "models/piper/en_US-amy-low.onnx.json")
           (download_voice_model (deployment ∅ network_up) "en_US-amy-low"
                                 disk_with_amy_model).2).
  vm_compute. reflexivity.
Defined.

Lemma present_artifacts_are_not_fetched_witness :
  download_voice_model (deployment ∅ network_drops_metadata) "en_US-amy-low"
    (download_voice_model (deployment ∅ network_up) "en_US-amy-low" empty_world).2
  = (Ok (model_path_of (deployment ∅ network_drops_metadata) "en_US-amy-low",
         config_path_of (deployment ∅ network_drops_metadata) "en_US-amy-low"),
     World
       (fs (download_voice_model (deployment ∅ network_up) "en_US-amy-low"
                                 empty_world).2)
       (voice_models (download_voice_model (deployment ∅ network_up) "en_US-amy-low"
                                           empty_world).2)
       (PathExists (config_path_of (deployment ∅ network_drops_metadata) "en_US-amy-low")
                   true ::
        PathExists (model_path_of (deployment ∅ network_drops_metadata) "en_US-amy-low")
                   true ::
        trace (download_voice_model (deployment ∅ network_up) "en_US-amy-low"
                                    empty_world).2)).
Proof.
  apply (present_artifacts_are_not_fetched (deployment ∅ network_drops_metadata)
           "en_US-amy-low"
           (download_voice_model (deployment ∅ network_up) "en_US-amy-low"
                                 empty_world).2).
  - eexists. reflexivity.
  - eexists. vm_compute. reflexivity.
  - eexists. vm_compute. reflexivity.
Defined.


Lemma download_voice_reflects_the_last_download_witness :
  (download_voice (deployment ∅ network_drops_metadata)
     {| voice_name := "en_US-amy-low"; dv_language := "en"; dv_country := "US";
        dv_speaker := "amy"; dv_quality := "low" |}
     (download_voice_model (deployment ∅ network_drops_metadata) "en_US-amy-low"
                           disk_with_amy_model).2).1
  = Ok downloading.
Proof.
  apply (download_voice_reflects_the_last_download
           (deployment ∅ network_drops_metadata)
           {| voice_name := "en_US-amy-low"; dv_language := "en"; dv_country := "US";
              dv_speaker := "amy"; dv_quality := "low" |}
           disk_with_amy_model
           (Raise (HTTPException 500
                     "Failed to download voice model: retrieval incomplete"))
           (download_voice_model (deployment ∅ network_drops_metadata) "en_US-amy-low"
                                 disk_with_amy_model).2).
  - eexists. reflexivity.
  - vm_compute. reflexivity.
Defined.

Lemma tts_fails_with_422_or_500_witness :
  (∃ field, HTTPException 500
              "TTS generation failed: 500: Failed to load voice model: 404: Voice 'xx_XX-nobody-low' not found in catalog"
            = RequestValidationError field) ∧
  empty_world = empty_world ∨
  (∃ detail, HTTPException 500
               "TTS generation failed: 500: Failed to load voice model: 404: Voice 'xx_XX-nobody-low' not found in catalog"
             = HTTPException 500 ("TTS generation failed: " +:+ detail)).
Proof.
  apply (tts_fails_with_422_or_500 (deployment ∅ network_up)
           {| text := "hello"; voice := Some "xx_XX-nobody-low"; speed := None |}
           empty_world).
  vm_compute. reflexivity.
Defined.

(** Another request begins to load the voice while this one waits; its load
    ends and the service shuts down before the executor gets to the
    synthesis, so the dictionary is empty by then. *)
Lemma tts_audio_comes_from_a_loaded_voice_witness :
  voice_models
    (sys_world
       (text_to_speech_among (deployment ∅ network_up)
          {| text := "hello"; voice := None; speed := None |}
          [LoadBegin "en_US-lessac-low"] [LoadResume 0; Shutdown]
          (run (deployment ∅ network_up) [] (boot ∅))).2) = ∅ ∧
  ∃ vm earlier,
    loaded_model (deployment ∅ network_up)
      (voice_or_default (deployment ∅ network_up)
                        {| text := "hello"; voice := None; speed := None |})
      vm earlier ∧
    16000 = voice_sample_rate (deployment ∅ network_up) vm ∧
    trace (sys_world
             (text_to_speech_among (deployment ∅ network_up)
                {| text := "hello"; voice := None; speed := None |}
                [LoadBegin "en_US-lessac-low"] [LoadResume 0; Shutdown]
                (run (deployment ∅ network_up) [] (boot ∅))).2)
      = VoiceSynthesize "hello" vm :: earlier ∧
    voice_synthesize (deployment ∅ network_up) earlier vm "hello" = Ok [].
Proof.
  split; [vm_compute; reflexivity|].
  destruct (tts_audio_comes_from_a_loaded_voice (deployment ∅ network_up)
              {| text := "hello"; voice := None; speed := None |} ∅ []
              [LoadBegin "en_US-lessac-low"] [LoadResume 0; Shutdown]
              {| content := {| nchannels := 1; sampwidth := 2; framerate := 16000;
                               frames := [] |};
                 media_type := "audio/wav" |}
              (text_to_speech_among (deployment ∅ network_up)
                 {| text := "hello"; voice := None; speed := None |}
                 [LoadBegin "en_US-lessac-low"] [LoadResume 0; Shutdown]
                 (run (deployment ∅ network_up) [] (boot ∅))).2)
    as (_ & _ & _ & H).
  - vm_compute. reflexivity.
  - exact H.
Defined.


Lemma list_voices_reflects_the_last_download_witness :
  ∃ voices v,
    (list_voices (deployment ∅ network_up)
       (download_voice_model (deployment ∅ network_up) "en_US-amy-low"
                             empty_world).2).1 = Ok voices ∧
    v ∈ voices ∧ vi_name v = "en_US-amy-low" ∧ vi_available v = true.
Proof.
  apply (list_voices_reflects_the_last_download (deployment ∅ network_up)
           "en_US-amy-low" empty_world
           (Ok ("models/piper/en_US-amy-low.onnx",
                "models/piper/en_US-amy-low.onnx.json"))
           (download_voice_model (deployment ∅ network_up) "en_US-amy-low"
                                 empty_world).2).
  - eexists. reflexivity.
  - vm_compute. reflexivity.
Defined.

Lemma unknown_voice_touches_nothing_witness :
  text_to_speech (deployment ∅ network_up)
    {| text := "hello"; voice := Some "xx_XX-nobody-low"; speed := None |} empty_world =
  (Raise (tts_failure (load_failure (catalog_miss "xx_XX-nobody-low"))), empty_world).
Proof.
  apply (unknown_voice_touches_nothing (deployment ∅ network_up)
           {| text := "hello"; voice := Some "xx_XX-nobody-low"; speed := None |}
           empty_world); reflexivity.
Defined.

End PiperFacts.

(** * Properties of the Piper configuration *)

Module PiperConfigFacts.
Import PiperConfig.

(** *** [int] reads back what [str] writes *)

Lemma digit_char_facts d :
  0 <= d < 10 ->
  is_digit (digit_char d) = true ∧
  is_space (digit_char d) = false ∧
  Z.of_nat (nat_of_ascii (digit_char d)) - 48 = d.
Proof.
  intros H.
  assert (d = 0 ∨ d = 1 ∨ d = 2 ∨ d = 3 ∨ d = 4 ∨ d = 5 ∨ d = 6 ∨ d = 7 ∨ d = 8 ∨ d = 9)
    as Hd by lia.
  repeat (destruct Hd as [->|Hd]); [..|subst d]; repeat split; reflexivity.
Qed.

Lemma int_digits_digits_aux fuel : forall n acc,
  (1 <= fuel)%nat -> 0 <= n < 2 ^ Z.of_nat fuel ->
  ∃ k, 0 <= k ∧ forall a b,
    int_digits (digits_aux fuel n acc) a b = int_digits acc (a * 10 ^ k + n) true.
Proof.
  induction fuel as [|fuel IH]; intros n acc Hf Hn; [lia|].
  cbn [digits_aux].
  assert (0 <= n mod 10 < 10) as Hd by (apply Z.mod_pos_bound; lia).
  destruct (digit_char_facts _ Hd) as (Hdig & _ & Hval).
  destruct (n <? 10) eqn:E.
  - apply Z.ltb_lt in E. exists 1. split; [lia|]. intros a b.
    cbn [int_digits]. rewrite Hdig, Hval. rewrite Z.mod_small by lia.
    f_equal. lia.
  - apply Z.ltb_ge in E.
    assert (0 <= n / 10 < 2 ^ Z.of_nat fuel) as Hq.
    { split; [apply Z.div_pos; lia|].
      apply Z.div_lt_upper_bound; [lia|].
      rewrite Nat2Z.inj_succ, Z.pow_succ_r in Hn by lia. lia. }
    assert (1 <= fuel)%nat as Hf'.
    { destruct fuel; [|lia]. cbn in Hq. assert (1 <= n / 10) by (apply Z.div_le_lower_bound; lia). lia. }
    destruct (IH (n / 10) (String (digit_char (n mod 10)) acc) Hf' Hq) as (k & Hk & Hp).
    exists (k + 1). split; [lia|]. intros a b. rewrite Hp.
    cbn [int_digits]. rewrite Hdig, Hval. f_equal.
    rewrite Z.pow_add_r by lia. pose proof (Z.div_mod n 10). lia.
Qed.

Lemma digits_fuel n : 0 <= n -> 0 <= n < 2 ^ Z.of_nat (S (Z.to_nat (Z.log2 n))).
Proof.
  intros H. split; [exact H|].
  rewrite Nat2Z.inj_succ, Z2Nat.id by apply Z.log2_nonneg.
  destruct (Z.eq_dec n 0) as [->|Hn]; [reflexivity|].
  apply Z.log2_spec. lia.
Qed.

Lemma int_digits_digits n : 0 <= n -> int_digits (digits n) 0 false = Some n.
Proof.
  intros H. unfold digits.
  destruct (int_digits_digits_aux (S (Z.to_nat (Z.log2 n))) n "" ltac:(lia) (digits_fuel n H)) as (k & _ & Hp).
  rewrite Hp. cbn. reflexivity.
Qed.

Lemma rstrip_cons c s : is_space c = false -> rstrip (String c s) = String c (rstrip s).
Proof. intros H. cbn [rstrip]. rewrite H. destruct (rstrip s); reflexivity. Qed.

Lemma rstrip_digits_aux fuel : forall n acc,
  rstrip (digits_aux fuel n acc) = digits_aux fuel n (rstrip acc).
Proof.
  induction fuel as [|fuel IH]; intros n acc; [reflexivity|].
  cbn [digits_aux].
  assert (0 <= n mod 10 < 10) as Hd by (apply Z.mod_pos_bound; lia).
  destruct (digit_char_facts _ Hd) as (_ & Hsp & _).
  destruct (n <? 10); [|rewrite IH]; rewrite rstrip_cons by exact Hsp; reflexivity.
Qed.

Lemma digits_head n :
  ∃ d s, 0 <= d < 10 ∧ digits n = String (digit_char d) s.
Proof.
  unfold digits. generalize (Z.to_nat (Z.log2 n)). intros fuel. generalize "".
  revert n. induction fuel as [|fuel IH]; intros n acc.
  - cbn [digits_aux]. destruct (n <? 10);
      (eexists _, _; split; [|reflexivity]; apply Z.mod_pos_bound; lia).
  - change (digits_aux (S (S fuel)) n acc)
      with (if n <? 10 then String (digit_char (n mod 10)) acc
            else digits_aux (S fuel) (n / 10) (String (digit_char (n mod 10)) acc)).
    destruct (n <? 10); [|apply IH].
    eexists _, _; split; [|reflexivity]; apply Z.mod_pos_bound; lia.
Qed.

Lemma int_str_Z n : int (str_Z n) = Ok n.
Proof.
  unfold str_Z. destruct (n <? 0) eqn:E.
  - apply Z.ltb_lt in E. unfold int.
    change ("-" +:+ digits (- n)) with (String "-" (digits (- n))).
    cbn [lstrip]. change (is_space "-") with false. cbv iota.
    rewrite rstrip_cons by reflexivity.
    unfold digits at 1. rewrite rstrip_digits_aux.
    change (rstrip "") with "". fold (digits (- n)).
    cbv beta iota zeta. rewrite int_digits_digits by lia. cbn. f_equal. lia.
  - apply Z.ltb_ge in E. unfold int.
    destruct (digits_head n) as (d & s & Hd & Hs).
    destruct (digit_char_facts _ Hd) as (_ & Hsp & _).
    assert (lstrip (digits n) = digits n) as ->.
    { rewrite Hs. cbn [lstrip]. rewrite Hsp. reflexivity. }
    assert (rstrip (digits n) = digits n) as ->.
    { unfold digits. apply rstrip_digits_aux. }
    assert (match digits n with
            | String "-" r => Z.opp <$> int_digits r 0 false
            | String "+" r => int_digits r 0 false
            | _ => int_digits (digits n) 0 false
            end = int_digits (digits n) 0 false) as ->.
    { rewrite Hs.
      assert (d = 0 ∨ d = 1 ∨ d = 2 ∨ d = 3 ∨ d = 4 ∨ d = 5 ∨ d = 6 ∨ d = 7 ∨ d = 8 ∨ d = 9)
        as Hc by lia.
      repeat (destruct Hc as [->|Hc]); [..|subst d]; reflexivity. }
    rewrite int_digits_digits by lia. reflexivity.
Qed.

(** *** What the constructor promises *)

Lemma int_fails_with_ValueError s e : int s = Raise e -> ∃ msg, e = PyError "ValueError" msg.
Proof.
  unfold int.
  destruct (match rstrip (lstrip s) with
            | String "-" r => Z.opp <$> int_digits r 0 false
            | String "+" r => int_digits r 0 false
            | _ => int_digits (rstrip (lstrip s)) 0 false
            end); [discriminate|].
  intros [= <-]. eauto.
Qed.

Lemma _validate_fails_with_ValueError c e :
  _validate c = Raise e -> ∃ msg, e = PyError "ValueError" msg.
Proof.
  unfold _validate, value_error.
  repeat match goal with
         | |- context [if ?b then _ else _] => destruct b
         end; intros [= <-]; eauto.
Qed.

Lemma _validate_bounds c :
  _validate c = Ok tt ->
  1 <= port c <= 65535 ∧ 1 <= max_text_length c ∧ 1 <= max_concurrent_requests c ∧
  1 <= model_cache_size c ∧ log_level c ∈ valid_log_levels.
Proof.
  unfold _validate.
  destruct (port c <? 1) eqn:E1; [discriminate|].
  destruct (port c >? 65535) eqn:E2; [discriminate|]. cbn [orb].
  destruct (max_text_length c <? 1) eqn:E3; [discriminate|].
  destruct (max_concurrent_requests c <? 1) eqn:E4; [discriminate|].
  destruct (model_cache_size c <? 1) eqn:E5; [discriminate|].
  case_bool_decide as E6; [|discriminate]. intros _.
  rewrite Z.gtb_ltb in E2. apply Z.ltb_ge in E1, E2, E3, E4, E5.
  repeat split; assumption.
Qed.

Lemma ServiceConfig_init_ok mkdir_outcome environ calls c calls' :
  ServiceConfig_init mkdir_outcome environ calls = (Ok c, calls') ->
  int (getenv environ "PIPER_PORT" "9001") = Ok (port c) ∧
  int (getenv environ "PIPER_MAX_TEXT_LENGTH" "10000") = Ok (max_text_length c) ∧
  int (getenv environ "PIPER_MAX_CONCURRENT" "10") = Ok (max_concurrent_requests c) ∧
  int (getenv environ "PIPER_MODEL_CACHE_SIZE" "5") = Ok (model_cache_size c) ∧
  host c = getenv environ "PIPER_HOST" "0.0.0.0" ∧
  models_dir c = getenv environ "PIPER_MODELS_DIR" "models/piper" ∧
  default_voice c = getenv environ "PIPER_DEFAULT_VOICE" "en_US-lessac-low" ∧
  log_level c = upper (getenv environ "LOG_LEVEL" "INFO") ∧
  log_file c = getenv environ "PIPER_LOG_FILE" "logs/piper-service.log" ∧
  _validate c = Ok tt ∧
  calls' = Mkdir (ParentOf (log_file c)) true :: Mkdir (PathOf (models_dir c)) true :: calls.
Proof.
  unfold ServiceConfig_init, bind, pure, mkdir, ret.
  destruct (int (getenv environ "PIPER_PORT" "9001")) as [p|]; [|discriminate].
  destruct (int (getenv environ "PIPER_MAX_TEXT_LENGTH" "10000")) as [t|]; [|discriminate].
  destruct (int (getenv environ "PIPER_MAX_CONCURRENT" "10")) as [r|]; [|discriminate].
  destruct (int (getenv environ "PIPER_MODEL_CACHE_SIZE" "5")) as [s|]; [|discriminate].
  cbv zeta.
  match goal with |- context [_validate ?x] => destruct (_validate x) as [[]|] eqn:Hv end;
    [|discriminate].
  destruct (mkdir_outcome calls _) as [[]|]; [|discriminate].
  destruct (mkdir_outcome (_ :: calls) _) as [[]|]; [|discriminate].
  intros [= <- <-]. cbn. repeat split; try reflexivity. exact Hv.
Qed.

(** X11: a configuration that [ServiceConfig.__init__] returns has passed
    [_validate]: its port is between 1 and 65535, its three limits are at
    least 1, and its log level, upper-cased from the environment, is one of
    the five level names. *)
Theorem validated_config_is_within_bounds mkdir_outcome environ calls c calls' :
  ServiceConfig_init mkdir_outcome environ calls = (Ok c, calls') ->
  1 <= port c <= 65535 ∧ 1 <= max_text_length c ∧ 1 <= max_concurrent_requests c ∧
  1 <= model_cache_size c ∧ log_level c ∈ valid_log_levels.
Proof.
  intros H. apply _validate_bounds.
  apply (ServiceConfig_init_ok mkdir_outcome environ calls c calls' H).
Qed.

(** X12: [ServiceConfig.__init__] fails in three places.  Where a setting
    does not read as an integer or a value is out of range, the exception is
    a [ValueError] and no directory has been asked for.  Where the settings
    are valid, the exception is that of the [mkdir] of the models directory,
    or, that directory made, that of the [mkdir] of the directory of the log
    file; no configuration is returned in either case. *)
Theorem config_fails_with_a_ValueError_or_at_a_mkdir mkdir_outcome environ calls e calls' :
  ServiceConfig_init mkdir_outcome environ calls = (Raise e, calls') ->
  (∃ msg, e = PyError "ValueError" msg) ∧ calls' = calls ∨
  ∃ port max_text_length max_concurrent_requests model_cache_size,
    let models_dir := getenv environ "PIPER_MODELS_DIR" "models/piper" in
    let log_file := getenv environ "PIPER_LOG_FILE" "logs/piper-service.log" in
    int (getenv environ "PIPER_PORT" "9001") = Ok port ∧
    int (getenv environ "PIPER_MAX_TEXT_LENGTH" "10000") = Ok max_text_length ∧
    int (getenv environ "PIPER_MAX_CONCURRENT" "10") = Ok max_concurrent_requests ∧
    int (getenv environ "PIPER_MODEL_CACHE_SIZE" "5") = Ok model_cache_size ∧
    _validate {| host := getenv environ "PIPER_HOST" "0.0.0.0"; port := port;
                 models_dir := models_dir;
                 default_voice := getenv environ "PIPER_DEFAULT_VOICE" "en_US-lessac-low";
                 max_text_length := max_text_length;
                 max_concurrent_requests := max_concurrent_requests;
                 model_cache_size := model_cache_size;
                 log_level := upper (getenv environ "LOG_LEVEL" "INFO");
                 log_file := log_file |} = Ok tt ∧
    (mkdir_outcome calls (PathOf models_dir) = Raise e ∧
     calls' = Mkdir (PathOf models_dir) false :: calls ∨
     mkdir_outcome calls (PathOf models_dir) = Ok tt ∧
     mkdir_outcome (Mkdir (PathOf models_dir) true :: calls) (ParentOf log_file) = Raise e ∧
     calls' = Mkdir (ParentOf log_file) false :: Mkdir (PathOf models_dir) true :: calls).
Proof.
  unfold ServiceConfig_init, bind, pure, mkdir, ret.
  destruct (int (getenv environ "PIPER_PORT" "9001")) as [p|e1] eqn:E1;
    [|intros [= <- <-]; left; split;
      [exact (int_fails_with_ValueError _ _ E1) | reflexivity]].
  destruct (int (getenv environ "PIPER_MAX_TEXT_LENGTH" "10000")) as [t|e2] eqn:E2;
    [|intros [= <- <-]; left; split;
      [exact (int_fails_with_ValueError _ _ E2) | reflexivity]].
  destruct (int (getenv environ "PIPER_MAX_CONCURRENT" "10")) as [r|e3] eqn:E3;
    [|intros [= <- <-]; left; split;
      [exact (int_fails_with_ValueError _ _ E3) | reflexivity]].
  destruct (int (getenv environ "PIPER_MODEL_CACHE_SIZE" "5")) as [s|e4] eqn:E4;
    [|intros [= <- <-]; left; split;
      [exact (int_fails_with_ValueError _ _ E4) | reflexivity]].
  cbv zeta.
  match goal with |- context [_validate ?x] => destruct (_validate x) as [[]|e5] eqn:Hv end;
    [|intros [= <- <-]; left; split;
      [exact (_validate_fails_with_ValueError _ _ Hv) | reflexivity]].
  destruct (mkdir_outcome calls _) as [[]|e6] eqn:M1.
  - destruct (mkdir_outcome (_ :: calls) _) as [[]|e7] eqn:M2; [discriminate|].
    intros [= <- <-]. right. exists p, t, r, s.
    do 4 (split; [reflexivity|]). split; [exact Hv|]. right. auto.
  - intros [= <- <-]. right. exists p, t, r, s.
    do 4 (split; [reflexivity|]). split; [exact Hv|]. left. auto.
Qed.

(** X13: an integer setting written in decimal in the environment, as
    [str] writes it, is the integer the returned configuration holds: the
    port, the maximum text length, the maximum number of concurrent requests
    and the cache size are read back unchanged. *)
Theorem decimal_settings_are_read_back mkdir_outcome environ calls c calls' :
  ServiceConfig_init mkdir_outcome environ calls = (Ok c, calls') ->
  (forall n, environ !! "PIPER_PORT" = Some (str_Z n) -> port c = n) ∧
  (forall n, environ !! "PIPER_MAX_TEXT_LENGTH" = Some (str_Z n) -> max_text_length c = n) ∧
  (forall n, environ !! "PIPER_MAX_CONCURRENT" = Some (str_Z n) ->
             max_concurrent_requests c = n) ∧
  (forall n, environ !! "PIPER_MODEL_CACHE_SIZE" = Some (str_Z n) ->
             model_cache_size c = n).
Proof.
  intros H.
  destruct (ServiceConfig_init_ok mkdir_outcome environ calls c calls' H)
    as (H1 & H2 & H3 & H4 & _).
  unfold getenv in H1, H2, H3, H4.
  repeat split; intros n Hn;
    [rewrite Hn in H1|rewrite Hn in H2|rewrite Hn in H3|rewrite Hn in H4];
    rewrite int_str_Z in *; congruence.
Qed.

Lemma validated_config_is_within_bounds_witness :
  1 <= port Piper.fallback_config <= 65535 ∧
  1 <= max_text_length Piper.fallback_config ∧
  1 <= max_concurrent_requests Piper.fallback_config ∧
  1 <= model_cache_size Piper.fallback_config ∧
  log_level Piper.fallback_config ∈ valid_log_levels.
Proof.
  apply (validated_config_is_within_bounds mkdir_succeeds ∅ [] Piper.fallback_config
           [Mkdir (ParentOf "logs/piper-service.log") true;
            Mkdir (PathOf "models/piper") true]).
  vm_compute. reflexivity.
Defined.

Lemma config_fails_with_a_ValueError_or_at_a_mkdir_witness :
  (ServiceConfig_init mkdir_succeeds {[ "PIPER_PORT" := "0" ]} []).1 =
    Raise (PyError "ValueError" "Invalid port number: 0") ∧
  mkdir_succeeds [] (PathOf "models/piper") = Ok tt ∧
  log_directory_denied [Mkdir (PathOf "models/piper") true]
                       (ParentOf "logs/piper-service.log") =
    Raise (PyError "PermissionError"
                   "[Errno 13] Permission denied: logs/piper-service.log").
Proof.
  split; [vm_compute; reflexivity|]. split; [reflexivity|].
  destruct (config_fails_with_a_ValueError_or_at_a_mkdir log_directory_denied ∅ []
              (PyError "PermissionError"
                       "[Errno 13] Permission denied: logs/piper-service.log")
              [Mkdir (ParentOf "logs/piper-service.log") false;
               Mkdir (PathOf "models/piper") true])
    as [[[msg H] _]|(p & t & r & s & _ & _ & _ & _ & _ & [[_ H]|(_ & H & _)])].
  - vm_compute. reflexivity.
  - discriminate H.
  - discriminate H.
  - exact H.
Defined.

Lemma decimal_settings_are_read_back_witness :
  port (Piper.config_from {[ "PIPER_PORT" := str_Z 8080 ]}) = 8080.
Proof.
  destruct (decimal_settings_are_read_back mkdir_succeeds
              {[ "PIPER_PORT" := str_Z 8080 ]} []
              (Piper.config_from {[ "PIPER_PORT" := str_Z 8080 ]})
              [Mkdir (ParentOf "logs/piper-service.log") true;
               Mkdir (PathOf "models/piper") true]) as (H & _).
  - vm_compute. reflexivity.
  - apply H. reflexivity.
Defined.

End PiperConfigFacts.

(** * Properties of the float model *)

Module PyFloatFacts.
Import PyFloat.
Local Open Scope Q_scope.

(** On the samples, the four rounded operations of the model give what the
    processor gives. *)
Example mul_as_the_processor :
  forallb (Hardware.agree mul PrimFloat.mul) Hardware.samples = true.
Proof. vm_compute. reflexivity. Qed.

Example div_as_the_processor :
  forallb (Hardware.agree div PrimFloat.div) Hardware.samples = true.
Proof. vm_compute. reflexivity. Qed.

Example add_as_the_processor :
  forallb (Hardware.agree add PrimFloat.add) Hardware.samples = true.
Proof. vm_compute. reflexivity. Qed.

Example sub_as_the_processor :
  forallb (Hardware.agree sub PrimFloat.sub) Hardware.samples = true.
Proof. vm_compute. reflexivity. Qed.

Lemma rhe_between q : (Qfloor q <= round_half_even q <= Qfloor q + 1)%Z.
Proof.
  unfold round_half_even.
  destruct (Qcompare _ _); [destruct (Z.even _)| |]; lia.
Qed.

Lemma rhe_nonneg q : 0 <= q -> (0 <= round_half_even q)%Z.
Proof.
  intros H. pose proof (rhe_between q) as [L _].
  assert (0 <= Qfloor q)%Z by (rewrite <- (Qfloor_Z 0); apply Qfloor_resp_le; exact H).
  lia.
Qed.

Lemma Qfloor_lt_int q (N : Z) : q < inject_Z N -> (Qfloor q < N)%Z.
Proof.
  intros H. rewrite Zlt_Qlt. eapply Qle_lt_trans; [apply Qfloor_le | exact H].
Qed.

Lemma rhe_below_half q (N : Z) : q < inject_Z N - (1 # 2) -> (round_half_even q < N)%Z.
Proof.
  intros H. unfold round_half_even.
  assert (Qfloor q < N)%Z as Hf by (apply Qfloor_lt_int; lra).
  destruct (Qcompare (q - inject_Z (Qfloor q)) (1 # 2)) eqn:E.
  - apply (proj2 (Qeq_alt _ _)) in E.
    assert (inject_Z (Qfloor q) < inject_Z N - 1) as H1 by lra.
    assert (Qfloor q < N - 1)%Z.
    { rewrite Zlt_Qlt. unfold Zminus. rewrite inject_Z_plus. exact H1. }
    destruct (Z.even _); lia.
  - exact Hf.
  - apply (proj2 (Qgt_alt _ _)) in E.
    assert (inject_Z (Qfloor q) < inject_Z N - 1) as H1 by lra.
    assert (Qfloor q < N - 1)%Z.
    { rewrite Zlt_Qlt. unfold Zminus. rewrite inject_Z_plus. exact H1. }
    lia.
Qed.

Lemma rhe_int q (z : Z) : q == inject_Z z -> round_half_even q = z.
Proof.
  intros H. unfold round_half_even.
  assert (Qfloor q = z) as -> by (rewrite H; apply Qfloor_Z).
  assert (Qcompare (q - inject_Z z) (1 # 2) = Lt) as ->; [|reflexivity].
  apply (proj1 (Qlt_alt _ _)). lra.
Qed.

Lemma pow2_pos e : 0 < pow2 e.
Proof. apply Qpower_0_lt. reflexivity. Qed.

Lemma pow2_add a b : pow2 (a + b) == pow2 a * pow2 b.
Proof. apply Qpower_plus. discriminate. Qed.

Lemma pow2_Z e : (0 <= e)%Z -> pow2 e == inject_Z (2 ^ e).
Proof. intros H. unfold pow2. rewrite (Zpower_Qpower 2 e H). reflexivity. Qed.

Lemma pow2_le a b : (a <= b)%Z -> pow2 a <= pow2 b.
Proof. intros H. apply Qpower_le_compat_l; [exact H | discriminate]. Qed.

Lemma pow2_lt a b : (a < b)%Z -> pow2 a < pow2 b.
Proof. intros H. apply Qpower_lt_compat_l; [exact H | reflexivity]. Qed.

Lemma pow2_lt_inv a b : pow2 a < pow2 b -> (a < b)%Z.
Proof.
  intros H. destruct (Z_lt_le_dec a b) as [L|L]; [exact L|].
  apply pow2_le in L. lra.
Qed.

Lemma pow2_succ e : pow2 (e + 1) == 2 * pow2 e.
Proof. rewrite pow2_add. unfold pow2 at 2. change (2 ^ 1) with 2. lra. Qed.

Lemma ilog2_spec q : 0 < q -> pow2 (ilog2 q) <= q < pow2 (ilog2 q + 1).
Proof.
  intros Hq. unfold ilog2.
  destruct q as [n d]. cbn [Qnum Qden].
  assert (0 < n)%Z as Hn by (unfold Qlt in Hq; cbn in Hq; lia).
  set (a := Z.log2 n). set (b := Z.log2 (Zpos d)).
  assert (0 <= a)%Z as Ha by apply Z.log2_nonneg.
  assert (0 <= b)%Z as Hb by apply Z.log2_nonneg.
  destruct (Z.log2_spec n Hn) as [A1 A2]. fold a in A1, A2.
  destruct (Z.log2_spec (Zpos d) eq_refl) as [B1 B2]. fold b in B1, B2.
  assert (0 < inject_Z (Zpos d)) as Hd by reflexivity.
  assert ((n # d) * inject_Z (Zpos d) == inject_Z n) as Hnd.
  { rewrite (Qmake_Qdiv n d). field. lra. }
  assert (pow2 a <= inject_Z n) as QA1 by (rewrite pow2_Z by lia; rewrite <- Zle_Qle; exact A1).
  assert (inject_Z n < pow2 (a + 1)) as QA2.
  { rewrite pow2_Z by lia. rewrite <- Zlt_Qlt. replace (a + 1)%Z with (Z.succ a) by lia. exact A2. }
  assert (pow2 b <= inject_Z (Zpos d)) as QB1 by (rewrite pow2_Z by lia; rewrite <- Zle_Qle; exact B1).
  assert (inject_Z (Zpos d) < pow2 (b + 1)) as QB2.
  { rewrite pow2_Z by lia. rewrite <- Zlt_Qlt. replace (b + 1)%Z with (Z.succ b) by lia. exact B2. }
  pose proof (pow2_pos (a - b)) as P0.
  pose proof (pow2_pos b) as Pb.
  assert (pow2 a == pow2 (a - b) * pow2 b) as Eab.
  { rewrite <- pow2_add. replace (a - b + b)%Z with a by lia. reflexivity. }
  rewrite pow2_succ in QA2, QB2. rewrite Eab in QA1, QA2.
  assert (pow2 (a - b) == 2 * pow2 (a - b - 1)) as Em.
  { rewrite <- pow2_succ. replace (a - b - 1 + 1)%Z with (a - b)%Z by lia. reflexivity. }
  destruct (Qle_bool (pow2 (a - b)) (n # d)) eqn:C.
  - apply Qle_bool_iff in C. rewrite pow2_succ.
    generalize dependent (pow2 (a - b)). intros E. intros.
    generalize dependent (pow2 b). intros B. intros.
    generalize dependent (inject_Z (Zpos d)). intros D. intros.
    generalize dependent (inject_Z n). intros X. intros.
    generalize dependent (n # d). intros q. intros.
    split; [exact C|].
    assert (E * B <= E * D) as H1 by (apply Qmult_le_l; lra).
    apply (Qmult_lt_r _ _ D); [lra|]. rewrite Hnd. lra.
  - assert (n # d < pow2 (a - b)) as C'.
    { apply Qnot_le_lt. intros H. apply Qle_bool_iff in H. congruence. }
    replace (a - b - 1 + 1)%Z with (a - b)%Z by lia.
    generalize dependent (pow2 (a - b - 1)). intros E' Em.
    generalize dependent (pow2 (a - b)). intros E. intros.
    generalize dependent (pow2 b). intros B. intros.
    generalize dependent (inject_Z (Zpos d)). intros D. intros.
    generalize dependent (inject_Z n). intros X. intros.
    generalize dependent (n # d). intros q. intros.
    split; [|exact C'].
    assert (E' * D <= 2 * E' * B) as H1.
    { assert (E' * D <= E' * (2 * B)) as H2 by (apply Qmult_le_l; lra).
      assert (E' * (2 * B) == 2 * E' * B) as H3 by ring. lra. }
    assert (E * B == 2 * E' * B) as H4 by (rewrite Em; ring).
    apply (Qmult_le_r _ _ D); [lra|]. rewrite Hnd. lra.
Qed.

Lemma ilog2_lt q k : 0 < q -> q < pow2 k -> (ilog2 q < k)%Z.
Proof.
  intros Hq H. destruct (ilog2_spec q Hq) as [L _].
  apply pow2_lt_inv. lra.
Qed.

Lemma ilog2_ge q k : 0 < q -> pow2 k <= q -> (k <= ilog2 q)%Z.
Proof.
  intros Hq H. destruct (ilog2_spec q Hq) as [_ U].
  assert (k < ilog2 q + 1)%Z by (apply pow2_lt_inv; lra). lia.
Qed.

Lemma pow2_0 : pow2 0 == 1.
Proof. reflexivity. Qed.

Lemma pow2_opp e : pow2 (- e) * pow2 e == 1.
Proof. rewrite <- pow2_add. replace (- e + e)%Z with 0%Z by lia. reflexivity. Qed.

Lemma div_pow2 q e : q / pow2 e == q * pow2 (- e).
Proof.
  pose proof (pow2_pos e). pose proof (pow2_opp e).
  apply (Qmult_inj_r _ _ (pow2 e)); [lra|].
  rewrite <- Qmult_assoc, H0. field. lra.
Qed.

Lemma Qfloor_unique x (k : Z) : inject_Z k <= x -> x < inject_Z k + 1 -> Qfloor x = k.
Proof.
  intros L U.
  pose proof (Qfloor_le x) as L'. pose proof (Qlt_floor x) as U'.
  assert (inject_Z k < inject_Z (Qfloor x + 1)) as A by lra.
  assert (inject_Z (Qfloor x) < inject_Z (k + 1)) as B.
  { rewrite inject_Z_plus. change (inject_Z 1) with 1. lra. }
  rewrite <- Zlt_Qlt in A, B. lia.
Qed.

Lemma Qfloor_nonneg x : 0 <= x -> (0 <= Qfloor x)%Z.
Proof. intros H. rewrite <- (Qfloor_Z 0). apply Qfloor_resp_le. exact H. Qed.

Lemma int_of_int x (k : Z) : x == inject_Z k -> int x = k.
Proof.
  intros H. unfold int. destruct (Qle_bool 0 x).
  - rewrite H. apply Qfloor_Z.
  - rewrite H. apply Qceiling_Z.
Qed.

Lemma int_nonneg x : 0 <= x -> int x = Qfloor x.
Proof.
  intros H. unfold int. apply Qle_bool_iff in H. rewrite H. reflexivity.
Qed.

Lemma negative_false x : 0 <= x -> negative x = false.
Proof. intros H. unfold negative. apply Qle_bool_iff in H. rewrite H. reflexivity. Qed.

Lemma round64_int q (n : Z) :
  q == inject_Z n -> (0 <= n < 2 ^ 53)%Z -> round64 q == inject_Z n.
Proof.
  intros H [L U]. unfold round64.
  destruct (Qeq_bool q 0) eqn:Z0.
  { apply Qeq_bool_iff in Z0. rewrite <- H. symmetry. exact Z0. }
  apply Qeq_bool_neq in Z0.
  assert (0 < q) as Hq.
  { rewrite H. rewrite H in Z0. rewrite Zle_Qle in L. change (inject_Z 0) with 0 in L.
    apply Qle_lteq in L as [L|L]; [exact L|]. exfalso. apply Z0. symmetry. exact L. }
  assert (Qabs q == q) as Ha by (apply Qabs_pos; lra).
  assert (Qle_bool 0 q = true) as -> by (apply Qle_bool_iff; lra).
  rewrite Qred_correct.
  set (a := Qabs q) in *.
  assert (0 < a) as Hapos by lra.
  assert (1 <= n)%Z as Hn1.
  { rewrite H in Hq. change 0 with (inject_Z 0) in Hq. rewrite <- Zlt_Qlt in Hq. lia. }
  assert (0 <= ilog2 a)%Z as E0.
  { apply ilog2_ge; [exact Hapos|]. rewrite pow2_0, Ha, H.
    change 1 with (inject_Z 1). rewrite <- Zle_Qle. exact Hn1. }
  assert (ilog2 a < 53)%Z as E1.
  { apply ilog2_lt; [exact Hapos|]. rewrite pow2_Z by lia. rewrite Ha, H.
    rewrite <- Zlt_Qlt. exact U. }
  rewrite Z.max_l by lia.
  set (e := (ilog2 a - 52)%Z).
  assert (a / pow2 e == inject_Z (n * 2 ^ (- e))) as Hm.
  { rewrite div_pow2, Ha, H, inject_Z_mult. rewrite (pow2_Z (- e)) by lia. reflexivity. }
  rewrite (rhe_int _ _ Hm). rewrite inject_Z_mult, <- (pow2_Z (- e)) by lia.
  rewrite <- Qmult_assoc, pow2_opp. ring.
Qed.

Lemma round64_below_1000 q :
  0 <= q -> q <= 1000 - 1000 * pow2 (-53) -> 0 <= round64 q /\ round64 q < 1000.
Proof.
  intros L U. unfold round64.
  destruct (Qeq_bool q 0) eqn:Z0; [split; [lra | reflexivity]|].
  apply Qeq_bool_neq in Z0.
  assert (0 < q) as Hq.
  { apply Qle_lteq in L as [L|L]; [exact L|]. exfalso. apply Z0. symmetry. exact L. }
  assert (Qabs q == q) as Ha by (apply Qabs_pos; lra).
  assert (Qle_bool 0 q = true) as -> by (apply Qle_bool_iff; lra).
  rewrite Qred_correct.
  set (a := Qabs q) in *.
  assert (0 < a) as Hapos by lra.
  pose proof (pow2_pos (-53)) as P53.
  assert (ilog2 a < 10)%Z as E1.
  { apply ilog2_lt; [exact Hapos|]. change (pow2 10) with 1024. lra. }
  set (e := Z.max (ilog2 a - 52) (-1074)).
  assert (e <= -43)%Z as He by lia.
  pose proof (pow2_pos e) as Pe. pose proof (pow2_pos (- e)) as Pne.
  pose proof (pow2_opp e) as Hopp.
  set (m := round_half_even (a / pow2 e)).
  assert (0 <= m)%Z as Hm0.
  { apply rhe_nonneg. rewrite div_pow2. apply Qmult_le_0_compat; lra. }
  assert (m < 1000 * 2 ^ (- e))%Z as Hm1.
  { apply rhe_below_half. rewrite div_pow2, inject_Z_mult, <- (pow2_Z (- e)) by lia.
    assert (a * pow2 (- e) <= (1000 - 1000 * pow2 (-53)) * pow2 (- e)) as H1.
    { apply Qmult_le_r; [exact Pne | lra]. }
    assert (pow2 (-10) <= pow2 (-53) * pow2 (- e)) as H2.
    { rewrite <- pow2_add. apply pow2_le. lia. }
    change (pow2 (-10)) with (1 # 1024) in H2.
    change (inject_Z 1000) with 1000.
    assert ((1000 - 1000 * pow2 (-53)) * pow2 (- e)
            == 1000 * pow2 (- e) - 1000 * (pow2 (-53) * pow2 (- e))) as H3 by ring.
    lra. }
  split.
  - apply Qmult_le_0_compat; [|lra]. change 0 with (inject_Z 0). rewrite <- Zle_Qle. exact Hm0.
  - assert (inject_Z m <= 1000 * pow2 (- e) - 1) as H4.
    { assert (m <= 1000 * 2 ^ (- e) - 1)%Z as H5 by lia.
      rewrite Zle_Qle in H5. unfold Zminus in H5.
      rewrite inject_Z_plus, inject_Z_mult, <- (pow2_Z (- e)) in H5 by lia. exact H5. }
    assert (inject_Z m * pow2 e <= (1000 * pow2 (- e) - 1) * pow2 e) as H6.
    { apply Qmult_le_r; [exact Pe | exact H4]. }
    assert ((1000 * pow2 (- e) - 1) * pow2 e == 1000 * (pow2 (- e) * pow2 e) - pow2 e) as H7 by ring.
    rewrite Hopp in H7. lra.
Qed.

Lemma pow2_m53 : pow2 (-53) == 1 # 9007199254740992.
Proof. reflexivity. Qed.

Lemma Qfloor_sub_int x (z : Z) : Qfloor (x - inject_Z z) = (Qfloor x - z)%Z.
Proof.
  apply Qfloor_unique.
  - unfold Zminus. rewrite inject_Z_plus, inject_Z_opp. pose proof (Qfloor_le x). lra.
  - unfold Zminus. rewrite inject_Z_plus, inject_Z_opp. pose proof (Qlt_floor x) as H.
    rewrite inject_Z_plus in H. change (inject_Z 1) with 1 in H. lra.
Qed.

Lemma binary64_fraction s :
  is_binary64 s = true -> 0 <= s -> s - inject_Z (Qfloor s) <= 1 - pow2 (-53).
Proof.
  intros R L. pose proof pow2_m53 as P53.
  unfold is_binary64 in R. apply Qeq_bool_iff in R. unfold round64 in R.
  destruct (Qeq_bool s 0) eqn:Z0.
  { apply Qeq_bool_iff in Z0.
    assert (Qfloor s = 0%Z) as -> by (rewrite Z0; reflexivity).
    change (inject_Z 0) with 0. lra. }
  apply Qeq_bool_neq in Z0.
  assert (0 < s) as Hs.
  { apply Qle_lteq in L as [L|L]; [exact L|]. exfalso. apply Z0. symmetry. exact L. }
  assert (Qabs s == s) as Ha by (apply Qabs_pos; lra).
  assert (Qle_bool 0 s = true) as E by (apply Qle_bool_iff; lra).
  rewrite E, Qred_correct in R. clear E.
  set (a := Qabs s) in *.
  assert (0 < a) as Hapos by lra.
  set (e := Z.max (ilog2 a - 52) (-1074)) in *.
  set (m := round_half_even (a / pow2 e)) in *.
  pose proof (pow2_pos e) as Pe. pose proof (pow2_opp e) as Hopp.
  pose proof (Qfloor_le s) as FL. pose proof (Qlt_floor s) as FU.
  rewrite inject_Z_plus in FU. change (inject_Z 1) with 1 in FU.
  destruct (Z_le_gt_dec 0 e) as [C1|C1]; [|destruct (Z_le_gt_dec (-53) e) as [C2|C2]].
  - (* an integer *)
    assert (s == inject_Z (m * 2 ^ e)) as Hint.
    { rewrite inject_Z_mult, <- pow2_Z by lia. symmetry. exact R. }
    assert (Qfloor s = (m * 2 ^ e)%Z) as -> by (rewrite Hint; apply Qfloor_Z).
    lra.
  - (* a multiple of 2^e, with -53 <= e < 0 *)
    set (K := (2 ^ (- e))%Z).
    assert (pow2 (- e) == inject_Z K) as HK by (apply pow2_Z; lia).
    assert (0 < K)%Z as HKpos by (apply Z.pow_pos_nonneg; lia).
    assert (s * inject_Z K == inject_Z m) as HsK.
    { assert (pow2 e * pow2 (- e) == 1) as Hc by (rewrite Qmult_comm; exact Hopp).
      rewrite <- R, <- HK, <- Qmult_assoc, Hc. ring. }
    set (f := Qfloor s) in *.
    assert ((s - inject_Z f) * inject_Z K == inject_Z (m - f * K)) as Hfr.
    { unfold Zminus. rewrite inject_Z_plus, inject_Z_opp, inject_Z_mult, <- HsK. ring. }
    assert (0 < inject_Z K) as QK by (change 0 with (inject_Z 0); rewrite <- Zlt_Qlt; exact HKpos).
    assert ((s - inject_Z f) * inject_Z K < 1 * inject_Z K) as H1.
    { apply Qmult_lt_r; [exact QK | lra]. }
    rewrite Hfr, Qmult_1_l, <- Zlt_Qlt in H1.
    assert (m - f * K <= K - 1)%Z as H2 by lia.
    rewrite Zle_Qle, <- Hfr in H2. unfold Zminus in H2.
    rewrite inject_Z_plus in H2. change (inject_Z (- (1))) with (- (1)) in H2.
    assert ((s - inject_Z f) * inject_Z K * pow2 e <= (inject_Z K + - (1)) * pow2 e) as H3.
    { apply Qmult_le_r; [exact Pe | exact H2]. }
    rewrite <- HK in H3.
    assert ((s - inject_Z f) * pow2 (- e) * pow2 e == (s - inject_Z f) * (pow2 (- e) * pow2 e))
      as H4 by ring.
    assert ((pow2 (- e) + - (1)) * pow2 e == pow2 (- e) * pow2 e - pow2 e) as H5 by ring.
    rewrite Hopp in H4, H5.
    assert (pow2 (-53) <= pow2 e) as H6 by (apply pow2_le; lia).
    lra.
  - (* below one half *)
    assert (ilog2 a + 1 <= -1)%Z as H1 by lia.
    destruct (ilog2_spec a Hapos) as [_ U].
    assert (pow2 (ilog2 a + 1) <= pow2 (-1)) as H2 by (apply pow2_le; lia).
    change (pow2 (-1)) with (1 # 2) in H2.
    assert (Qfloor s = 0%Z) as -> by (apply Qfloor_unique; change (inject_Z 0) with 0; lra).
    change (inject_Z 0) with 0. lra.
Qed.

Lemma float_divmod_nonneg x (n : Z) :
  0 <= x -> (0 < n)%Z -> (n * Qfloor (x / inject_Z n) < 2 ^ 53)%Z ->
  floordiv x (inject_Z n) == inject_Z (Qfloor (x / inject_Z n)) /\
  modulo x (inject_Z n) == x - inject_Z n * inject_Z (Qfloor (x / inject_Z n)).
Proof.
  intros L Hn B. unfold floordiv, modulo, float_divmod.
  set (y := inject_Z n) in *.
  assert (0 < y) as Hy by (unfold y; change 0 with (inject_Z 0); rewrite <- Zlt_Qlt; exact Hn).
  assert (0 <= x / y) as Hq by (apply Qle_shift_div_l; [exact Hy | lra]).
  set (k := Qfloor (x / y)) in *.
  assert (0 <= k)%Z as Hk by (apply Qfloor_nonneg; exact Hq).
  assert (fmod x y == x - y * inject_Z k) as Hmd.
  { unfold fmod. rewrite Qred_correct, (int_nonneg _ Hq). reflexivity. }
  assert (y * inject_Z k <= x) as Hle.
  { pose proof (Qfloor_le (x / y)) as H. fold k in H.
    assert (inject_Z k * y <= x / y * y) as H1 by (apply Qmult_le_r; [exact Hy | exact H]).
    assert (x / y * y == x) as H2 by (field; lra). lra. }
  assert (0 <= fmod x y) as Hmd0 by lra.
  assert (sub x (fmod x y) == inject_Z (n * k)) as Hsub.
  { unfold sub. apply round64_int; [|nia]. rewrite Hmd, inject_Z_mult. fold y. ring. }
  assert (div (sub x (fmod x y)) y == inject_Z k) as Hdv.
  { unfold div. apply round64_int; [|nia].
    rewrite Hsub, inject_Z_mult. fold y. field. lra. }
  rewrite (negative_false y) by lra. rewrite (negative_false _ Hmd0). cbn [xorb].
  set (dv := div (sub x (fmod x y)) y) in *.
  assert ((if Qeq_bool (fmod x y) 0 then (0, dv) else (fmod x y, dv)).1 == fmod x y) as M1.
  { destruct (Qeq_bool (fmod x y) 0) eqn:E; cbn [fst]; [|reflexivity].
    apply Qeq_bool_iff in E. symmetry. exact E. }
  assert ((if Qeq_bool (fmod x y) 0 then (0, dv) else (fmod x y, dv)).2 = dv) as M2.
  { destruct (Qeq_bool (fmod x y) 0); reflexivity. }
  destruct (if Qeq_bool (fmod x y) 0 then (0, dv) else (fmod x y, dv)) as [md dv'].
  cbn [fst snd] in *. subst dv'. split; [|rewrite M1; exact Hmd].
  destruct (Qeq_bool dv 0) eqn:E.
  - apply Qeq_bool_iff in E. rewrite <- Hdv. symmetry. exact E.
  - assert (Qfloor dv = k) as -> by (rewrite Hdv; apply Qfloor_Z).
    assert (Qle_bool (dv - inject_Z k) (1 # 2) = true) as ->; [|reflexivity].
    apply Qle_bool_iff. lra.
Qed.

Lemma pow53 : (2 ^ 53 = 9007199254740992)%Z.
Proof. reflexivity. Qed.

(** The quotient and the remainder of a time by a unit of [n] seconds. *)
Lemma divmod_by_unit x (n bound : Z) :
  0 <= x -> x < inject_Z (n * bound) -> (0 < n)%Z -> (0 < bound <= 1000000)%Z ->
  (n <= 1000000)%Z ->
  let k := Qfloor (x / inject_Z n) in
  (0 <= k < bound)%Z /\
  int (floordiv x (inject_Z n)) = k /\
  modulo x (inject_Z n) == x - inject_Z n * inject_Z k /\
  0 <= modulo x (inject_Z n) /\ modulo x (inject_Z n) < inject_Z n.
Proof.
  intros L U Hn Hb Hn' k.
  assert (0 < inject_Z n) as Hy by (change 0 with (inject_Z 0); rewrite <- Zlt_Qlt; exact Hn).
  assert (0 <= x / inject_Z n) as Hq by (apply Qle_shift_div_l; [exact Hy | lra]).
  assert (x / inject_Z n < inject_Z bound) as Hq'.
  { apply Qlt_shift_div_r; [exact Hy|]. rewrite inject_Z_mult in U. lra. }
  assert (0 <= k < bound)%Z as Hk.
  { split; [apply Qfloor_nonneg; exact Hq | apply Qfloor_lt_int; exact Hq']. }
  assert (n * k < 2 ^ 53)%Z as Hnk by (rewrite pow53; nia).
  destruct (float_divmod_nonneg x n L Hn Hnk) as [Hfd Hmd]. fold k in Hfd, Hmd.
  pose proof (Qfloor_le (x / inject_Z n)) as F1.
  pose proof (Qlt_floor (x / inject_Z n)) as F2. fold k in F1, F2.
  rewrite inject_Z_plus in F2. change (inject_Z 1) with 1 in F2.
  assert (x / inject_Z n * inject_Z n == x) as Hx by (field; lra).
  assert (inject_Z k * inject_Z n <= x / inject_Z n * inject_Z n) as G1
    by (apply Qmult_le_r; [exact Hy | exact F1]).
  assert (x / inject_Z n * inject_Z n < (inject_Z k + 1) * inject_Z n) as G2
    by (apply Qmult_lt_r; [exact Hy | exact F2]).
  assert ((inject_Z k + 1) * inject_Z n == inject_Z n * inject_Z k + inject_Z n) as G3 by ring.
  assert (inject_Z k * inject_Z n == inject_Z n * inject_Z k) as G4 by ring.
  repeat split; try lia.
  - apply int_of_int. exact Hfd.
  - exact Hmd.
  - rewrite Hmd. lra.
  - rewrite Hmd. lra.
Qed.

Lemma Qfloor_div_int x (n : Z) :
  (0 < n)%Z -> Qfloor (x / inject_Z n) = (Qfloor x / n)%Z.
Proof.
  intros Hn.
  assert (0 < inject_Z n) as Hy by (change 0 with (inject_Z 0); rewrite <- Zlt_Qlt; exact Hn).
  pose proof (Qfloor_le x) as F1. pose proof (Qlt_floor x) as F2.
  set (t := Qfloor x) in *.
  pose proof (Z.div_mod t n ltac:(lia)) as Hdm.
  pose proof (Z.mod_pos_bound t n Hn) as Hmb.
  set (k := (t / n)%Z) in *.
  apply Qfloor_unique.
  - apply Qle_shift_div_l; [exact Hy|].
    rewrite <- inject_Z_mult.
    assert (inject_Z (k * n) <= inject_Z t) as G by (rewrite <- Zle_Qle; lia).
    lra.
  - apply Qlt_shift_div_r; [exact Hy|].
    assert (inject_Z (t + 1) <= inject_Z ((k + 1) * n)) as G by (rewrite <- Zle_Qle; lia).
    rewrite inject_Z_mult in G. rewrite (inject_Z_plus k 1) in G.
    change (inject_Z 1) with 1 in *. lra.
Qed.

Lemma rhe_comp q q' : q == q' -> round_half_even q = round_half_even q'.
Proof.
  intros H. unfold round_half_even.
  rewrite (Qfloor_comp _ _ H).
  assert (q - inject_Z (Qfloor q') == q' - inject_Z (Qfloor q')) as E by (rewrite H; reflexivity).
  rewrite (Qcompare_comp _ _ E _ _ (Qeq_refl (1 # 2))). reflexivity.
Qed.

Lemma ilog2_comp q q' : 0 < q -> q == q' -> ilog2 q = ilog2 q'.
Proof.
  intros Hq H.
  assert (0 < q') as Hq' by (rewrite <- H; exact Hq).
  destruct (ilog2_spec q' Hq') as [L U].
  assert (ilog2 q' <= ilog2 q)%Z by (apply ilog2_ge; [exact Hq | rewrite H; exact L]).
  assert (ilog2 q < ilog2 q' + 1)%Z by (apply ilog2_lt; [exact Hq | rewrite H; exact U]).
  lia.
Qed.

Lemma round64_comp q q' : q == q' -> round64 q = round64 q'.
Proof.
  intros H. unfold round64.
  assert (Qeq_bool q 0 = Qeq_bool q' 0) as ->.
  { destruct (Qeq_bool q' 0) eqn:E.
    - apply Qeq_bool_iff. apply Qeq_bool_iff in E. rewrite H. exact E.
    - apply not_true_is_false. intros E'. apply Qeq_bool_iff in E'.
      rewrite H in E'. apply Qeq_bool_iff in E'. congruence. }
  destruct (Qeq_bool q' 0) eqn:E; [reflexivity|].
  assert (~ q' == 0) as Hnz.
  { intros E'. apply Qeq_bool_iff in E'. congruence. }
  assert (Qabs q == Qabs q') as Ha by (rewrite H; reflexivity).
  assert (0 < Qabs q) as Hpos.
  { rewrite Ha. apply Qabs_case; intros Hs.
    - destruct (Qlt_le_dec 0 q') as [|Hle]; [assumption|]. exfalso. apply Hnz. lra.
    - destruct (Qlt_le_dec 0 (- q')) as [|Hle]; [assumption|]. exfalso. apply Hnz. lra. }
  cbv zeta. rewrite (ilog2_comp _ _ Hpos Ha).
  set (e := Z.max (ilog2 (Qabs q') - 52) (-1074)).
  assert (Qabs q / pow2 e == Qabs q' / pow2 e) as Hd by (rewrite Ha; reflexivity).
  rewrite (rhe_comp _ _ Hd).
  assert (Qle_bool 0 q = Qle_bool 0 q') as ->.
  { destruct (Qle_bool 0 q') eqn:E'.
    - apply Qle_bool_iff. apply Qle_bool_iff in E'. rewrite H. exact E'.
    - apply not_true_is_false. intros E''. apply Qle_bool_iff in E''.
      rewrite H in E''. apply Qle_bool_iff in E''. congruence. }
  reflexivity.
Qed.


Lemma minutes_of_seconds (t : Z) : ((t mod 3600) / 60 = (t / 60) mod 60)%Z.
Proof.
  change 3600%Z with (60 * 60)%Z.
  rewrite Z.rem_mul_r by lia.
  pose proof (Z.mod_pos_bound t 60 ltac:(lia)).
  symmetry. apply (Z.div_unique _ 60 _ (t mod 60)); lia.
Qed.

(** The fields both renderings compute from a time. *)
Lemma time_fields s :
  0 <= s -> s < 60000000 ->
  int (floordiv s 3600) = (Qfloor s / 3600)%Z /\
  int (floordiv (modulo s 3600) 60) = ((Qfloor s / 60) mod 60)%Z /\
  modulo s 60 == s - inject_Z (60 * (Qfloor s / 60)) /\
  0 <= modulo s 60 /\ modulo s 60 < 60.
Proof.
  intros L U.
  assert (s < inject_Z (3600 * 1000000)) as U1
    by (change (inject_Z (3600 * 1000000)) with 3600000000; lra).
  destruct (divmod_by_unit s 3600 1000000 L U1) as (_ & Eh & Em & M0 & M1); try lia.
  rewrite (Qfloor_div_int s 3600) in Eh, Em by lia.
  change (inject_Z 3600) with 3600 in *.
  assert (modulo s 3600 < inject_Z (60 * 60)) as M1' by exact M1.
  destruct (divmod_by_unit (modulo s 3600) 60 60 M0 M1') as (_ & Emi & _); try lia.
  rewrite (Qfloor_div_int _ 60) in Emi by lia.
  change (inject_Z 60) with 60 in *.
  assert (s < inject_Z (60 * 1000000)) as U2 by exact U.
  destruct (divmod_by_unit s 60 1000000 L U2) as (_ & _ & Es & S0 & S1); try lia.
  rewrite (Qfloor_div_int s 60) in Es by lia.
  change (inject_Z 60) with 60 in *.
  split; [exact Eh|]. split.
  - rewrite Emi.
    assert (Qfloor (modulo s 3600) = (Qfloor s - 3600 * (Qfloor s / 3600))%Z) as ->.
    { rewrite <- Qfloor_sub_int. apply Qfloor_comp. rewrite Em, inject_Z_mult. reflexivity. }
    rewrite <- minutes_of_seconds. f_equal.
    pose proof (Z.div_mod (Qfloor s) 3600 ltac:(lia)). lia.
  - split; [|split; assumption].
    rewrite Es, inject_Z_mult. reflexivity.
Qed.

Lemma rhe_shift_even q (k : Z) :
  Z.even k = true -> round_half_even (q + inject_Z k) = (round_half_even q + k)%Z.
Proof.
  intros Hk. unfold round_half_even.
  assert (Qfloor (q + inject_Z k) = (Qfloor q + k)%Z) as ->.
  { replace (Qfloor q + k)%Z with (Qfloor q - (- k))%Z by lia.
    rewrite <- Qfloor_sub_int. apply Qfloor_comp. rewrite inject_Z_opp. ring. }
  assert (q + inject_Z k - inject_Z (Qfloor q + k) == q - inject_Z (Qfloor q)) as E
    by (rewrite inject_Z_plus; ring).
  rewrite (Qcompare_comp _ _ E _ _ (Qeq_refl (1 # 2))).
  destruct (Qcompare _ _); try lia.
  rewrite Z.even_add, Hk.
  destruct (Z.even (Qfloor q)); cbn; lia.
Qed.

Lemma rhe_le_int q (N : Z) : q <= inject_Z N -> (round_half_even q <= N)%Z.
Proof.
  intros H. apply Qle_lteq in H as [H|H].
  - pose proof (rhe_between q) as [_ B].
    pose proof (Qfloor_lt_int q N H). lia.
  - rewrite (rhe_int q N H). lia.
Qed.

Lemma rhe_ge_int q (N : Z) : inject_Z N <= q -> (N <= round_half_even q)%Z.
Proof.
  intros H. pose proof (rhe_between q) as [B _].
  assert (N <= Qfloor q)%Z; [|lia].
  destruct (Z_le_gt_dec N (Qfloor q)) as [|C]; [assumption|exfalso].
  pose proof (Qlt_floor q) as F. 
  assert (inject_Z (Qfloor q + 1) <= inject_Z N) as G by (rewrite <- Zle_Qle; lia).
  lra.
Qed.

(** Rounding to binary64 does not cross a whole number. *)
Lemma round64_between_ints q (n : Z) :
  0 <= q -> q < 1024 ->
  (inject_Z n <= q -> inject_Z n <= round64 q) /\
  (q <= inject_Z n -> round64 q <= inject_Z n).
Proof.
  intros L U. unfold round64.
  destruct (Qeq_bool q 0) eqn:Z0.
  { apply Qeq_bool_iff in Z0. split; intros H; lra. }
  apply Qeq_bool_neq in Z0.
  assert (0 < q) as Hq.
  { apply Qle_lteq in L as [L|L]; [exact L|]. exfalso. apply Z0. symmetry. exact L. }
  assert (Qabs q == q) as Ha by (apply Qabs_pos; lra).
  assert (Qle_bool 0 q = true) as -> by (apply Qle_bool_iff; lra).
  rewrite Qred_correct.
  set (a := Qabs q) in *.
  assert (0 < a) as Hapos by lra.
  assert (ilog2 a < 10)%Z as E1.
  { apply ilog2_lt; [exact Hapos|]. change (pow2 10) with 1024. lra. }
  set (e := Z.max (ilog2 a - 52) (-1074)).
  assert (e <= -43)%Z as He by lia.
  pose proof (pow2_pos e) as Pe. pose proof (pow2_pos (- e)) as Pne.
  pose proof (pow2_opp e) as Hopp.
  assert (a / pow2 e == a * inject_Z (2 ^ (- e))) as Hd
    by (rewrite div_pow2, (pow2_Z (- e)) by lia; reflexivity).
  rewrite (rhe_comp _ _ Hd).
  assert (0 < inject_Z (2 ^ (- e))) as PK by (rewrite <- pow2_Z by lia; exact Pne).
  assert (forall m : Z, inject_Z (m * 2 ^ (- e)) * pow2 e == inject_Z m) as Hback.
  { intros m. rewrite inject_Z_mult, <- (pow2_Z (- e)) by lia.
    rewrite <- Qmult_assoc, Hopp. ring. }
  split; intros H.
  - assert (n * 2 ^ (- e) <= round_half_even (a * inject_Z (2 ^ (- e))))%Z as G.
    { apply rhe_ge_int. rewrite inject_Z_mult. apply Qmult_le_r; [exact PK | lra]. }
    rewrite Zle_Qle in G.
    assert (inject_Z (n * 2 ^ (- e)) * pow2 e
            <= inject_Z (round_half_even (a * inject_Z (2 ^ (- e)))) * pow2 e) as G'
      by (apply Qmult_le_r; [exact Pe | exact G]).
    rewrite Hback in G'. exact G'.
  - assert (round_half_even (a * inject_Z (2 ^ (- e))) <= n * 2 ^ (- e))%Z as G.
    { apply rhe_le_int. rewrite inject_Z_mult. apply Qmult_le_r; [exact PK | lra]. }
    rewrite Zle_Qle in G.
    assert (inject_Z (round_half_even (a * inject_Z (2 ^ (- e)))) * pow2 e
            <= inject_Z (n * 2 ^ (- e)) * pow2 e) as G'
      by (apply Qmult_le_r; [exact Pe | exact G]).
    rewrite Hback in G'. exact G'.
Qed.

(** The milliseconds of the SRT rendering: the float product of a fraction
    and 1000, truncated. *)
Lemma milliseconds_of_fraction f :
  0 <= f -> f <= 1 - pow2 (-53) ->
  let ms := int (mul f 1000) in
  (Qfloor (f * 1000) <= ms <= Qfloor (f * 1000) + 1)%Z /\ (ms < 1000)%Z.
Proof.
  intros L U ms. pose proof pow2_m53 as P53.
  assert (0 <= f * 1000) as X0 by lra.
  assert (f * 1000 <= 1000 - 1000 * pow2 (-53)) as X1 by lra.
  destruct (round64_below_1000 _ X0 X1) as [R0 R1].
  pose proof (Qfloor_le (f * 1000)) as F1. pose proof (Qlt_floor (f * 1000)) as F2.
  assert (f * 1000 < 1024) as X2 by lra.
  destruct (round64_between_ints (f * 1000) (Qfloor (f * 1000)) X0 X2) as [G1 _].
  destruct (round64_between_ints (f * 1000) (Qfloor (f * 1000) + 1) X0 X2) as [_ G2].
  specialize (G1 F1). specialize (G2 ltac:(lra)).
  unfold ms, mul. rewrite (int_nonneg _ R0).
  split; [split|].
  - destruct (Z_le_gt_dec (Qfloor (f * 1000)) (Qfloor (round64 (f * 1000)))) as [|C];
      [assumption|exfalso].
    pose proof (Qlt_floor (round64 (f * 1000))) as F3.
    assert (inject_Z (Qfloor (round64 (f * 1000)) + 1) <= inject_Z (Qfloor (f * 1000))) as G
      by (rewrite <- Zle_Qle; lia).
    lra.
  - pose proof (Qfloor_le (round64 (f * 1000))) as F3.
    assert (inject_Z (Qfloor (round64 (f * 1000))) <= inject_Z (Qfloor (f * 1000) + 1)) as G
      by lra.
    rewrite <- Zle_Qle in G. exact G.
  - apply Qfloor_lt_int. exact R1.
Qed.

End PyFloatFacts.

(** * Properties of the Whisper service *)

Module WhisperFacts.
Import PyFloat PyFloatFacts Whisper.

(** *** Strings and joins *)

Lemma append_cons c s t : String c s +:+ t = String c (s +:+ t).
Proof. reflexivity. Qed.

Lemma append_nil_l s : "" +:+ s = s.
Proof. reflexivity. Qed.

Lemma append_assoc s t u : (s +:+ t) +:+ u = s +:+ (t +:+ u).
Proof.
  induction s as [|c s IH]; [reflexivity|].
  rewrite !append_cons, IH. reflexivity.
Qed.

Lemma length_append s t :
  String.length (s +:+ t) = (String.length s + String.length t)%nat.
Proof.
  induction s as [|c s IH]; [reflexivity|].
  rewrite append_cons. cbn [String.length]. rewrite IH. reflexivity.
Qed.

Lemma join_from_space acc texts :
  join_from " " acc texts =
  match texts with
  | [] => acc
  | _ => acc +:+ " " +:+ space_joined texts
  end.
Proof.
  revert acc. induction texts as [|t rest IH]; intros acc; [reflexivity|].
  cbn [join_from]. rewrite IH. destruct rest as [|t' rest']; [reflexivity|].
  change (space_joined (t :: t' :: rest'))
    with (t +:+ " " +:+ space_joined (t' :: rest')).
  rewrite !append_assoc. reflexivity.
Qed.

Lemma join_space texts : join " " texts = space_joined texts.
Proof.
  destruct texts as [|t rest]; [reflexivity|].
  cbn [join]. rewrite join_from_space. destruct rest; reflexivity.
Qed.

(** *** The shape of a timestamp *)

Local Open Scope Q_scope.

Lemma holds_below_spec P n z :
  holds_below P n = true -> (0 <= z < Z.of_nat n)%Z -> P z = true.
Proof.
  intros H Hz. unfold holds_below in H. rewrite forallb_forall in H. apply H.
  apply in_map_iff. exists (Z.to_nat z). split; [lia|]. apply in_seq. lia.
Qed.

Lemma format_0d_two_digits z : (0 <= z < 100)%Z -> two_digits (format_0d 2 z) = true.
Proof.
  intros H. apply (holds_below_spec (fun z => two_digits (format_0d 2 z)) 100); [|lia].
  vm_compute. reflexivity.
Qed.

Lemma format_0d_three_digits z : (0 <= z < 1000)%Z -> three_digits (format_0d 3 z) = true.
Proof.
  intros H. apply (holds_below_spec (fun z => three_digits (format_0d 3 z)) 1000); [|lia].
  vm_compute. reflexivity.
Qed.

Lemma format_thousandths_split r :
  (0 <= r)%Z ->
  format_thousandths 6 false r =
  format_0d 2 (r / 1000) +:+ "." +:+ format_0d 3 (r mod 1000).
Proof.
  intros H. unfold format_thousandths.
  assert (0 <= r / 1000)%Z as Hq by (apply Z.div_pos; lia).
  assert (0 <= r mod 1000 < 1000)%Z as Hm by (apply Z.mod_pos_bound; lia).
  unfold format_0d at 3.
  assert ((r / 1000 <? 0)%Z = false) as -> by (apply Z.ltb_ge; lia).
  rewrite append_assoc. f_equal.
  rewrite !length_append.
  pose proof (format_0d_three_digits _ Hm) as H3.
  destruct (format_0d 3 (r mod 1000)) as [|a [|b [|c [|? ?]]]]; try discriminate.
  cbn [String.length]. f_equal. lia.
Qed.

Ltac digits_known :=
  repeat match goal with
         | H : (_ && _) = true |- _ => apply andb_true_iff in H as [? ?]
         end;
  repeat match goal with
         | H : _ = true |- _ => rewrite H; clear H
         end.

Lemma seconds_field_parts sep s ms :
  two_digits s = true -> three_digits ms = true ->
  seconds_field sep (s +:+ String sep "" +:+ ms) = true.
Proof.
  destruct s as [|a [|b [|? ?]]]; try discriminate.
  destruct ms as [|c [|d [|e [|? ?]]]]; try discriminate.
  cbv beta iota fix delta [String.append seconds_field two_digits three_digits].
  intros H1 H2. digits_known. rewrite Ascii.eqb_refl. reflexivity.
Qed.

Lemma is_timestamp_assemble sep h m s :
  two_digits h = true -> two_digits m = true -> seconds_field sep s = true ->
  is_timestamp sep (h +:+ ":" +:+ m +:+ ":" +:+ s) = true.
Proof.
  destruct h as [|h1 [|h2 [|? ?]]]; try discriminate.
  destruct m as [|m1 [|m2 [|? ?]]]; try discriminate.
  destruct s as [|a [|b [|p [|c [|d [|e [|? ?]]]]]]]; try discriminate.
  cbv beta iota fix delta [String.append seconds_field two_digits is_timestamp].
  intros H1 H2 H3. digits_known. reflexivity.
Qed.

Lemma vtt_time_shape seconds :
  0 <= seconds -> seconds < 360000 ->
  is_timestamp "." (_seconds_to_vtt_time seconds) = true.
Proof.
  intros L U. unfold _seconds_to_vtt_time.
  destruct (divmod_by_unit seconds 3600 100 L U) as (Hh & Eh & Em & M0 & M1); try lia.
  change (inject_Z 3600) with 3600 in *.
  destruct (divmod_by_unit (modulo seconds 3600) 60 60 M0 M1) as (Hm & Emi & _); try lia.
  change (inject_Z 60) with 60 in *.
  assert (seconds < inject_Z (60 * 6000)) as U' by exact U.
  destruct (divmod_by_unit seconds 60 6000 L U') as (_ & _ & Es & S0 & S1); try lia.
  change (inject_Z 60) with 60 in *.
  rewrite Eh, Emi.
  apply is_timestamp_assemble.
  - apply format_0d_two_digits. lia.
  - apply format_0d_two_digits. lia.
  - unfold format_03f. rewrite (negative_false _ S0).
    set (r := round_half_even (Qabs (modulo seconds 60) * 1000)).
    assert (Qabs (modulo seconds 60) == modulo seconds 60) as Ha by (apply Qabs_pos; exact S0).
    assert (0 <= r)%Z as R0 by (apply rhe_nonneg; rewrite Ha; lra).
    assert (r <= 60000)%Z as R1.
    { pose proof (rhe_between (Qabs (modulo seconds 60) * 1000)) as [_ B]. fold r in B.
      assert (Qfloor (Qabs (modulo seconds 60) * 1000) < 60000)%Z
        by (apply Qfloor_lt_int; rewrite Ha; change (inject_Z 60000) with 60000; lra).
      lia. }
    rewrite (format_thousandths_split r R0).
    apply (seconds_field_parts ".").
    + apply format_0d_two_digits. split; [apply Z.div_pos; lia|].
      apply Z.div_lt_upper_bound; lia.
    + apply format_0d_three_digits. apply Z.mod_pos_bound. lia.
Qed.

Lemma srt_time_shape seconds :
  is_binary64 seconds = true -> 0 <= seconds -> seconds < 360000 ->
  is_timestamp "," (_seconds_to_srt_time seconds) = true.
Proof.
  intros R L U. unfold _seconds_to_srt_time.
  destruct (divmod_by_unit seconds 3600 100 L U) as (Hh & Eh & Em & M0 & M1); try lia.
  change (inject_Z 3600) with 3600 in *.
  destruct (divmod_by_unit (modulo seconds 3600) 60 60 M0 M1) as (Hm & Emi & _); try lia.
  change (inject_Z 60) with 60 in *.
  assert (seconds < inject_Z (60 * 6000)) as U' by exact U.
  destruct (divmod_by_unit seconds 60 6000 L U') as (Hj & _ & Es & S0 & S1); try lia.
  change (inject_Z 60) with 60 in *.
  set (j := Qfloor (seconds / 60)) in *.
  set (S := modulo seconds 60) in *.
  assert (S < inject_Z (1 * 60)) as S1' by exact S1.
  destruct (divmod_by_unit S 1 60 S0 S1') as (Hf & _ & Ef & F0 & F1); try lia.
  change (inject_Z 1) with 1 in *.
  assert (Qfloor (S / 1) = Qfloor S) as Hdiv1 by (apply Qfloor_comp; field).
  rewrite Hdiv1 in Hf, Ef.
  rewrite Eh, Emi, (int_nonneg _ S0).
  (* the fraction of the second is the fraction of the time *)
  assert (modulo S 1 == seconds - inject_Z (Qfloor seconds)) as Hfrac.
  { rewrite Ef.
    assert (Qfloor S = Qfloor seconds - 60 * j)%Z as ->.
    { rewrite <- Qfloor_sub_int. apply Qfloor_comp. rewrite Es, inject_Z_mult. reflexivity. }
    unfold Zminus. rewrite inject_Z_plus, inject_Z_opp, inject_Z_mult, Es.
    change (inject_Z 60) with 60. ring. }
  pose proof (binary64_fraction seconds R L) as Hb.
  assert (0 <= mul (modulo S 1) 1000 /\ mul (modulo S 1) 1000 < 1000) as [Ms0 Ms1].
  { unfold mul. apply round64_below_1000.
    - apply Qmult_le_0_compat; [exact F0 | discriminate].
    - rewrite Hfrac. lra. }
  rewrite (int_nonneg _ Ms0).
  apply is_timestamp_assemble.
  - apply format_0d_two_digits. lia.
  - apply format_0d_two_digits. lia.
  - apply (seconds_field_parts ",").
    + apply format_0d_two_digits. lia.
    + apply format_0d_three_digits. split; [apply Qfloor_nonneg; exact Ms0|].
      apply Qfloor_lt_int. exact Ms1.
Qed.

(** The fields of both renderings, by the whole seconds of the time. *)
Lemma timestamp_fields s :
  0 <= s -> s < 60000000 ->
  _seconds_to_srt_time s =
    format_0d 2 (Qfloor s / 3600) +:+ ":" +:+ format_0d 2 ((Qfloor s / 60) mod 60)
      +:+ ":" +:+ format_0d 2 (Qfloor s mod 60)
      +:+ "," +:+ format_0d 3 (int (mul (s - inject_Z (Qfloor s)) 1000)) /\
  _seconds_to_vtt_time s =
    format_0d 2 (Qfloor s / 3600) +:+ ":" +:+ format_0d 2 ((Qfloor s / 60) mod 60)
      +:+ ":" +:+ format_thousandths 6 false
                    (round_half_even ((s - inject_Z (60 * (Qfloor s / 60))) * 1000)).
Proof.
  intros L U. destruct (time_fields s L U) as (Eh & Emi & Es & S0 & S1).
  unfold _seconds_to_srt_time, _seconds_to_vtt_time. rewrite Eh, Emi. split.
  - set (S := modulo s 60) in *.
    assert (Qfloor S = (Qfloor s mod 60)%Z) as HS.
    { assert (Qfloor S = (Qfloor s - 60 * (Qfloor s / 60))%Z) as ->.
      { rewrite <- Qfloor_sub_int. apply Qfloor_comp. exact Es. }
      pose proof (Z.div_mod (Qfloor s) 60 ltac:(lia)). lia. }
    assert (S < inject_Z (1 * 60)) as S1' by exact S1.
    destruct (divmod_by_unit S 1 60 S0 S1') as (_ & _ & Ef & _); try lia.
    change (inject_Z 1) with 1 in *.
    assert (Qfloor (S / 1) = Qfloor S) as Hdiv1 by (apply Qfloor_comp; field).
    rewrite Hdiv1 in Ef.
    assert (modulo S 1 == s - inject_Z (Qfloor s)) as Hfrac.
    { rewrite Ef, HS, Es.
      pose proof (Z.div_mod (Qfloor s) 60 ltac:(lia)) as Hdm.
      assert (inject_Z (Qfloor s) ==
              inject_Z (60 * (Qfloor s / 60)) + inject_Z (Qfloor s mod 60)) as Ht.
      { rewrite <- inject_Z_plus. rewrite <- Hdm. reflexivity. }
      rewrite Ht. ring. }
    rewrite (int_nonneg _ S0), HS. unfold mul.
    assert (modulo S 1 * 1000 == (s - inject_Z (Qfloor s)) * 1000) as Hp
      by (rewrite Hfrac; reflexivity).
    rewrite (round64_comp _ _ Hp). reflexivity.
  - unfold format_03f. rewrite (negative_false _ S0).
    assert (Qabs (modulo s 60) * 1000 == (s - inject_Z (60 * (Qfloor s / 60))) * 1000) as Hp.
    { rewrite Qabs_pos by exact S0. rewrite Es. reflexivity. }
    rewrite (rhe_comp _ _ Hp). reflexivity.
Qed.

Lemma vtt_rounded_fields s :
  0 <= s -> s < 60000000 ->
  let rounded := round_half_even (s * 1000) in
  (rounded / 60000 = Qfloor s / 60)%Z ->
  _seconds_to_vtt_time s =
    format_0d 2 (rounded / 3600000) +:+ ":" +:+ format_0d 2 ((rounded / 60000) mod 60)
      +:+ ":" +:+ format_0d 2 ((rounded / 1000) mod 60)
      +:+ "." +:+ format_0d 3 (rounded mod 1000).
Proof.
  intros L U rounded Hminute.
  destruct (timestamp_fields s L U) as [_ ->].
  set (j := (Qfloor s / 60)%Z) in *.
  set (r := round_half_even ((s - inject_Z (60 * j)) * 1000)).
  assert (rounded = r + 60000 * j)%Z as HR.
  { unfold rounded, r. rewrite <- rhe_shift_even.
    - apply rhe_comp. rewrite !inject_Z_mult.
      change (inject_Z 60000) with 60000. change (inject_Z 60) with 60. ring.
    - rewrite Z.even_mul. reflexivity. }
  assert (0 <= r)%Z as R0.
  { apply rhe_nonneg. pose proof (Qfloor_le s) as F.
    assert (inject_Z (60 * j) <= inject_Z (Qfloor s)) as G.
    { rewrite <- Zle_Qle. unfold j. pose proof (Z.mul_div_le (Qfloor s) 60). lia. }
    apply Qmult_le_0_compat; lra. }
  rewrite (format_thousandths_split r R0).
  assert (r < 60000)%Z as R1.
  { assert ((r + 60000 * j) / 60000 = j)%Z as H by (rewrite <- HR; exact Hminute).
    pose proof (Z.div_mod (r + 60000 * j) 60000 ltac:(lia)) as Hdm.
    pose proof (Z.mod_pos_bound (r + 60000 * j) 60000 ltac:(lia)). lia. }
  assert (rounded / 3600000 = Qfloor s / 3600)%Z as ->.
  { change 3600000%Z with (60000 * 60)%Z. rewrite <- Z.div_div by lia.
    rewrite Hminute. unfold j. rewrite Z.div_div by lia. reflexivity. }
  rewrite Hminute.
  assert ((rounded / 1000) mod 60 = r / 1000)%Z as ->.
  { rewrite HR. replace (r + 60000 * j)%Z with (r + (60 * j) * 1000)%Z by lia.
    rewrite Z.div_add by lia. rewrite Z.add_mod by lia.
    replace (60 * j)%Z with (j * 60)%Z by lia. rewrite Z.mod_mul by lia.
    rewrite Z.add_0_r, Z.mod_mod by lia. apply Z.mod_small.
    split; [apply Z.div_pos; lia | apply Z.div_lt_upper_bound; lia]. }
  assert (rounded mod 1000 = r mod 1000)%Z as ->.
  { rewrite HR. replace (r + 60000 * j)%Z with (r + (60 * j) * 1000)%Z by lia.
    apply Z.mod_add. lia. }
  reflexivity.
Qed.

Local Close Scope Q_scope.

(** *** One run of [transcribe_audio] and of [detect_language] *)

Section Runs.
Context (env : Env).

Lemma transcribe_audio_run audio task language initial_prompt output_format w :
  let temp_path := temp_name env (trace w) in
  let options := transcribe_options task language initial_prompt output_format in
  let staged := TempFileWritten temp_path audio :: trace w in
  transcribe_audio env audio task language initial_prompt output_format w =
  match stage_outcome env (trace w) audio with
  | Staged =>
      let returned := model_transcribe env staged temp_path options in
      (match returned with
       | Ok r => Ok (rendered output_format r)
       | Raise e => Raise (HTTPException 500 ("Transcription failed: " +:+ str e))
       end,
       after_cleanup env temp_path audio
         (Transcribe temp_path options (returned_of returned) :: staged) w)
  | StagingFailed remains e => (Raise e, after_failed_staging temp_path remains w)
  end.
Proof.
  cbv zeta.
  unfold transcribe_audio, bind, stage_upload, try_finally, try_except, transcribe_call,
    remove_temp_file, try_except_of, os_unlink, record, rendered, transcribe_options,
    after_cleanup, after_failed_staging, returned_of.
  cbn [fs trace get_whisper_config wc_beam_size wc_temperature wc_no_speech_threshold
       wc_condition_on_previous_text].
  destruct (stage_outcome env (trace w) audio) as [|remains e0]; [|reflexivity].
  destruct (model_transcribe env _ _ _) as [r|e]; cbn [fs trace fst snd].
  - repeat (destruct (String.eqb output_format _)); unfold ret;
      cbn [fs trace]; rewrite lookup_insert_eq;
      destruct (unlink_error env _ _); reflexivity.
  - unfold raise. cbn [fs trace]. rewrite lookup_insert_eq.
    destruct (unlink_error env _ _); reflexivity.
Qed.

Lemma detect_language_run audio w :
  let temp_path := temp_name env (trace w) in
  let staged := TempFileWritten temp_path audio :: trace w in
  detect_language env audio w =
  match stage_outcome env (trace w) audio with
  | Staged =>
      let returned := model_transcribe env staged temp_path detect_options in
      (match returned with
       | Ok r => Ok (info_language (snd r), language_probability (snd r))
       | Raise e => Raise (HTTPException 500 ("Language detection failed: " +:+ str e))
       end,
       after_cleanup env temp_path audio
         (Transcribe temp_path detect_options (returned_of returned) :: staged) w)
  | StagingFailed remains e => (Raise e, after_failed_staging temp_path remains w)
  end.
Proof.
  cbv zeta.
  unfold detect_language, bind, stage_upload, try_finally, try_except, transcribe_call,
    remove_temp_file, try_except_of, os_unlink, record, detect_options,
    after_cleanup, after_failed_staging, returned_of.
  cbn [fs trace].
  destruct (stage_outcome env (trace w) audio) as [|remains e0]; [|reflexivity].
  destruct (model_transcribe env _ _ _) as [r|e]; cbn [fs trace fst snd];
    unfold ret, raise; cbn [fs trace]; rewrite lookup_insert_eq;
    destruct (unlink_error env _ _); reflexivity.
Qed.

End Runs.

(** *** The cues of the SRT output *)

Lemma srt_lines_from segments i acc :
  fold_left
    (fun lines '(i, segment) =>
       let start_time := _seconds_to_srt_time (seg_start segment) in
       let end_time := _seconds_to_srt_time (seg_end segment) in
       lines ++ [str_Z i] ++ [start_time +:+ " --> " +:+ end_time]
             ++ [seg_text segment] ++ [""])
    (enumerate i segments) acc =
  acc ++ concat (map (fun p => srt_cue (fst p) (snd p)) (enumerate i segments)).
Proof.
  revert i acc. induction segments as [|segment rest IH]; intros i acc.
  - cbn. rewrite app_nil_r. reflexivity.
  - cbn [enumerate fold_left map concat fst snd]. rewrite IH.
    rewrite <- app_assoc. reflexivity.
Qed.

Lemma srt_lines_cues segments :
  srt_lines segments = concat (map (fun p => srt_cue (fst p) (snd p)) (enumerate 1 segments)).
Proof. unfold srt_lines. rewrite srt_lines_from. reflexivity. Qed.

Lemma cue_lookup segments i k segment j :
  segments !! k = Some segment -> (j < 4)%nat ->
  concat (map (fun p => srt_cue (fst p) (snd p)) (enumerate i segments)) !! (4 * k + j)%nat =
  srt_cue (i + Z.of_nat k) segment !! j.
Proof.
  revert i k. induction segments as [|first rest IH]; intros i k Hk Hj; [discriminate|].
  cbn [enumerate map concat fst snd]. destruct k as [|k].
  - injection Hk as ->. rewrite lookup_app_l by (cbn; lia).
    replace (i + Z.of_nat 0)%Z with i by lia. reflexivity.
  - rewrite lookup_app_r by (cbn; lia).
    replace (4 * S k + j - length (srt_cue i first))%nat with (4 * k + j)%nat by (cbn; lia).
    rewrite (IH (i + 1)%Z k Hk Hj).
    replace (i + 1 + Z.of_nat k)%Z with (i + Z.of_nat (S k))%Z by lia. reflexivity.
Qed.

(** C6, as claimed, fails outside the first hundred hours: the hours are
    printed with two digits at least, not at most, so a time of a hundred
    hours reads with three, and a time before zero with a minus sign. *)
Lemma hours_field_overflows_at_a_hundred_hours :
  is_binary64 360000 = true ∧
  _seconds_to_vtt_time 360000 = "100:00:00.000" ∧
  _seconds_to_srt_time 360000 = "100:00:00,000" ∧
  is_timestamp "." (_seconds_to_vtt_time 360000) = false ∧
  is_timestamp "," (_seconds_to_srt_time 360000) = false ∧
  is_binary64 (-1) = true ∧
  _seconds_to_vtt_time (-1) = "-1:59:59.000" ∧
  _seconds_to_srt_time (-1) = "-1:59:59,000".
Proof. vm_compute. repeat split; reflexivity. Qed.

(** C6: 3661.5 seconds reads [01:01:01.500] in VTT and [01:01:01,500] in SRT.
    Every time a float can hold, from zero up to a hundred hours, reads
    HH:MM:SS.mmm in VTT and HH:MM:SS,mmm in SRT.  In SRT the fields are the
    hours, the minutes and the seconds of the whole seconds of the time, and
    the milliseconds are the thousandths of its fraction, cut off, or one
    more where the float product of the fraction and 1000 rounds up to the
    next whole number; they stay below 1000.  In VTT the fields are those of
    the time rounded to the nearest millisecond, for a time that this
    rounding leaves within its minute.  The cue of the segment at position
    [k], counted from zero, is numbered [k + 1] and followed by its times,
    its text and an empty line, in the order of the segments. *)
Theorem timestamps_and_cue_numbers :
  _seconds_to_vtt_time 3661.5 = "01:01:01.500" ∧
  _seconds_to_srt_time 3661.5 = "01:01:01,500" ∧
  (forall seconds : float,
      is_binary64 seconds = true -> Qle 0 seconds -> Qlt seconds 360000 ->
      let whole := Qfloor seconds in
      let fraction := Qminus seconds (inject_Z whole) in
      let rounded := round_half_even (Qmult seconds 1000) in
      is_timestamp "." (_seconds_to_vtt_time seconds) = true ∧
      is_timestamp "," (_seconds_to_srt_time seconds) = true ∧
      (∃ milliseconds,
          milliseconds = int (mul fraction 1000) ∧
          Qfloor (Qmult fraction 1000) <= milliseconds <= Qfloor (Qmult fraction 1000) + 1 ∧
          milliseconds < 1000 ∧
          _seconds_to_srt_time seconds =
            format_0d 2 (whole / 3600) +:+ ":" +:+ format_0d 2 ((whole / 60) mod 60)
              +:+ ":" +:+ format_0d 2 (whole mod 60)
              +:+ "," +:+ format_0d 3 milliseconds) ∧
      (rounded / 60000 = whole / 60 ->
       _seconds_to_vtt_time seconds =
         format_0d 2 (rounded / 3600000) +:+ ":" +:+ format_0d 2 ((rounded / 60000) mod 60)
           +:+ ":" +:+ format_0d 2 ((rounded / 1000) mod 60)
           +:+ "." +:+ format_0d 3 (rounded mod 1000))) ∧
  (forall segments (k : nat) segment,
      segments !! k = Some segment ->
      _format_srt_output segments = join newline (srt_lines segments) ∧
      srt_lines segments !! (4 * k)%nat = Some (str_Z (Z.of_nat k + 1)) ∧
      srt_lines segments !! (4 * k + 1)%nat =
        Some (_seconds_to_srt_time (seg_start segment) +:+ " --> "
              +:+ _seconds_to_srt_time (seg_end segment)) ∧
      srt_lines segments !! (4 * k + 2)%nat = Some (seg_text segment) ∧
      srt_lines segments !! (4 * k + 3)%nat = Some "").
Proof.
  split; [vm_compute; reflexivity|]. split; [vm_compute; reflexivity|]. split.
  - intros seconds R L U. cbv zeta.
    assert (Qlt seconds 60000000) as U' by (apply (Qlt_trans _ 360000); [exact U | reflexivity]).
    split; [apply vtt_time_shape; assumption|].
    split; [apply srt_time_shape; assumption|]. split.
    + destruct (timestamp_fields seconds L U') as [Hsrt _].
      pose proof (binary64_fraction seconds R L) as Hb.
      assert (Qle 0 (seconds - inject_Z (Qfloor seconds))) as F0
        by (pose proof (Qfloor_le seconds); lra).
      destruct (milliseconds_of_fraction _ F0 Hb) as [Hms Hlt].
      eexists. split; [reflexivity|]. split; [exact Hms|]. split; [exact Hlt|]. exact Hsrt.
    + apply vtt_rounded_fields; assumption.
  - intros segments k segment Hk. split; [reflexivity|].
    rewrite srt_lines_cues.
    replace (4 * k)%nat with (4 * k + 0)%nat at 1 by lia.
    rewrite !(cue_lookup segments 1 k segment) by (exact Hk || lia).
    replace (1 + Z.of_nat k)%Z with (Z.of_nat k + 1)%Z by lia.
    repeat split; reflexivity.
Qed.

Lemma timestamps_and_cue_numbers_witness :
  _seconds_to_srt_time 7200 = "02:00:00,000" ∧
  _seconds_to_vtt_time (7323 # 2) = "01:01:01.500" ∧
  srt_lines two_segments !! 4%nat = Some "2".
Proof.
  destruct timestamps_and_cue_numbers as (_ & _ & Hfields & Hcues). split; [|split].
  - destruct (Hfields 7200%Q eq_refl ltac:(discriminate) eq_refl)
      as (_ & _ & (ms & -> & _ & _ & ->) & _).
    vm_compute. reflexivity.
  - destruct (Hfields (7323 # 2)%Q eq_refl ltac:(discriminate) eq_refl) as (_ & _ & _ & H).
    rewrite H by (vm_compute; reflexivity). vm_compute. reflexivity.
  - destruct (Hcues two_segments 1%nat
                {| seg_start := 5 # 2; seg_end := 7323 # 2;
                   seg_text := "General Kenobi."; seg_words := None |} eq_refl)
      as (_ & H & _).
    exact H.
Defined.

(** C7: when the recognizer returns a list of segments and the output format
    is [txt], [transcribe_audio] returns the texts of the segments, in their
    order, with one space between neighbours. *)
Theorem txt_output_is_space_joined env audio task language initial_prompt w segments info :
  recognized env audio task language initial_prompt "txt" w = Ok (segments, info) ->
  (transcribe_audio env audio task language initial_prompt "txt" w).1 =
  Ok (text_of (space_joined (map seg_text segments))).
Proof.
  intros H. rewrite transcribe_audio_run. cbv zeta. unfold recognized in H.
  destruct (stage_outcome env (trace w) audio) as [|remains e]; [|discriminate].
  rewrite H. cbn [fst]. unfold rendered. cbn [String.eqb Ascii.eqb Bool.eqb fst].
  rewrite join_space. reflexivity.
Qed.

Lemma txt_output_is_space_joined_witness :
  (transcribe_audio hears_two_segments [] "transcribe" None None "txt" empty_world).1 =
  Ok (text_of "Hello there. General Kenobi.").
Proof.
  apply (txt_output_is_space_joined hears_two_segments [] "transcribe" None None
           empty_world two_segments english).
  reflexivity.
Defined.

(** C8, as claimed, fails where [os.unlink] fails: on a machine that denies the
    unlink, a transcription and a language detection both return what the
    recognizer heard, and the temporary file is still on disk with the
    upload in it. *)
Lemma failed_unlink_leaves_the_temp_file :
  ¬ (forall env audio task language initial_prompt output_format w,
        fs (transcribe_audio env audio task language initial_prompt output_format w).2
           !! temp_name env (trace w) = None ∧
        fs (detect_language env audio w).2 !! temp_name env (trace w) = None) ∧
  (transcribe_audio unlink_denied [] "transcribe" None None "txt" empty_world).1 =
    Ok (text_of "Hello there. General Kenobi.") ∧
  fs (transcribe_audio unlink_denied [] "transcribe" None None "txt" empty_world).2
     !! "/tmp/tmpa1b2c3.wav" = Some [] ∧
  (detect_language unlink_denied [] empty_world).1 =
    Ok (info_language english, language_probability english) ∧
  fs (detect_language unlink_denied [] empty_world).2 !! "/tmp/tmpa1b2c3.wav" = Some [].
Proof.
  split; [|vm_compute; repeat split; reflexivity].
  intros H.
  destruct (H unlink_denied [] "transcribe" None None "txt" empty_world) as [H1 _].
  vm_compute in H1. discriminate.
Qed.

(** C8: for an upload that was staged, [transcribe_audio] and
    [detect_language] call the recognizer on the temporary file and then
    unlink it, whether the recognizer returned or raised: the trace shows the
    file written, handed to the recognizer and unlinked, and the file is not
    on disk afterwards.  Only when [os.unlink] itself fails is the file still
    there, holding the upload; the failure is swallowed, and the call ends as
    the recognizer's result alone decides. *)
Theorem staged_temp_file_is_unlinked env audio task language initial_prompt output_format w :
  stage_outcome env (trace w) audio = Staged ->
  let temp_path := temp_name env (trace w) in
  let staged := TempFileWritten temp_path audio :: trace w in
  let cleaned (after : world) (called : list event) :=
    match unlink_error env called temp_path with
    | None => fs after !! temp_path = None ∧ trace after = Unlink temp_path :: called
    | Some _ =>
        fs after !! temp_path = Some audio ∧ trace after = UnlinkFailed temp_path :: called
    end in
  (let options := transcribe_options task language initial_prompt output_format in
   let returned := model_transcribe env staged temp_path options in
   let run := transcribe_audio env audio task language initial_prompt output_format w in
   cleaned run.2 (Transcribe temp_path options (returned_of returned) :: staged) ∧
   run.1 = match returned with
           | Ok r => Ok (rendered output_format r)
           | Raise e => Raise (HTTPException 500 ("Transcription failed: " +:+ str e))
           end) ∧
  (let returned := model_transcribe env staged temp_path detect_options in
   let run := detect_language env audio w in
   cleaned run.2 (Transcribe temp_path detect_options (returned_of returned) :: staged) ∧
   run.1 = match returned with
           | Ok r => Ok (info_language (snd r), language_probability (snd r))
           | Raise e => Raise (HTTPException 500 ("Language detection failed: " +:+ str e))
           end).
Proof.
  intros Hstaged. cbv zeta.
  rewrite transcribe_audio_run, detect_language_run. cbv zeta. rewrite Hstaged.
  unfold after_cleanup. cbn [fst snd].
  split; (split; [|reflexivity]);
    destruct (unlink_error env _ _); cbn [fs trace];
    rewrite ?lookup_delete_eq, ?lookup_insert_eq; split; reflexivity.
Qed.

Lemma staged_temp_file_is_unlinked_witness :
  fs (transcribe_audio hears_nothing [] "transcribe" None None "txt" empty_world).2
     !! "/tmp/tmpa1b2c3.wav" = None ∧
  fs (detect_language unlink_denied [] empty_world).2 !! "/tmp/tmpa1b2c3.wav" = Some [].
Proof.
  split.
  - destruct (staged_temp_file_is_unlinked hears_nothing [] "transcribe" None None "txt"
                empty_world eq_refl) as [[[H _] _] _].
    exact H.
  - destruct (staged_temp_file_is_unlinked unlink_denied [] "transcribe" None None "txt"
                empty_world eq_refl) as [_ [[H _] _]].
    exact H.
Defined.

(** The two ends of a transcription, run. *)
Example temp_file_removed_after_success :
  transcribe_audio hears_two_segments [] "transcribe" None None "srt" empty_world =
  (Ok (srt_of (join newline
                 ["1"; "00:00:00,000 --> 00:00:02,500"; "Hello there."; "";
                  "2"; "00:00:02,500 --> 01:01:01,500"; "General Kenobi."; ""])),
   World ∅ [Unlink "/tmp/tmpa1b2c3.wav";
            Transcribe "/tmp/tmpa1b2c3.wav"
              (transcribe_options "transcribe" None None "srt")
              (Some (two_segments, english));
            TempFileWritten "/tmp/tmpa1b2c3.wav" []]).
Proof. vm_compute. reflexivity. Qed.

Example temp_file_removed_after_failure :
  transcribe_audio hears_nothing [] "transcribe" None None "txt" empty_world =
  (Raise (HTTPException 500 "Transcription failed: decoder failed"),
   World ∅ [Unlink "/tmp/tmpa1b2c3.wav";
            Transcribe "/tmp/tmpa1b2c3.wav"
              (transcribe_options "transcribe" None None "txt") None;
            TempFileWritten "/tmp/tmpa1b2c3.wav" []]).
Proof. vm_compute. reflexivity. Qed.

(** A staging that fails leaves what had been written, and the recognizer is
    not called. *)
Example temp_file_left_by_failed_staging :
  transcribe_audio disk_full [] "transcribe" None None "txt" empty_world =
  (Raise (PyError "OSError" "[Errno 28] No space left on device"),
   World {["/tmp/tmpa1b2c3.wav" := []]}
         [TempFileFailed "/tmp/tmpa1b2c3.wav" (Some [])]).
Proof. vm_compute. reflexivity. Qed.

End WhisperFacts.

(** * More properties of the Whisper service *)

Module WhisperServiceFacts.
Import PyFloat Whisper PyFloatFacts WhisperFacts.

(** *** Output formats *)

Lemma other_format_eqb output_format :
  output_format ∉ ["json"; "txt"; "vtt"; "srt"] ->
  String.eqb output_format "json" = false ∧ String.eqb output_format "txt" = false ∧
  String.eqb output_format "vtt" = false ∧ String.eqb output_format "srt" = false.
Proof.
  intros H. repeat split; apply String.eqb_neq; intros ->; apply H;
    repeat first [ apply list_elem_of_here | apply list_elem_of_further ].
Qed.

(** X15: an output format other than [json], [txt], [vtt] and [srt] is
    treated as [txt] throughout: the recognizer is called with the same
    arguments, and the result, the disk and the trace are those of the same
    call with [txt]. *)
Theorem unknown_format_is_rendered_as_text env audio task language initial_prompt
    output_format w :
  output_format ∉ ["json"; "txt"; "vtt"; "srt"] ->
  transcribe_audio env audio task language initial_prompt output_format w =
  transcribe_audio env audio task language initial_prompt "txt" w.
Proof.
  intros H. destruct (other_format_eqb _ H) as (Ej & Et & Ev & Es).
  rewrite !transcribe_audio_run. cbv zeta.
  unfold transcribe_options, rendered. rewrite Ej, Et, Ev, Es. reflexivity.
Qed.

Lemma vtt_lines_from segments acc :
  fold_left
    (fun lines segment =>
       let start_time := _seconds_to_vtt_time (seg_start segment) in
       let end_time := _seconds_to_vtt_time (seg_end segment) in
       lines ++ [start_time +:+ " --> " +:+ end_time] ++ [seg_text segment] ++ [""])
    segments acc =
  acc ++ concat (map (fun segment =>
                        [ _seconds_to_vtt_time (seg_start segment) +:+ " --> "
                            +:+ _seconds_to_vtt_time (seg_end segment);
                          seg_text segment; "" ]) segments).
Proof.
  revert acc. induction segments as [|segment rest IH]; intros acc.
  - cbn. rewrite app_nil_r. reflexivity.
  - cbn [fold_left map concat]. rewrite IH. rewrite <- app_assoc. reflexivity.
Qed.

Lemma vtt_cue_lookup segments k segment j :
  segments !! k = Some segment -> (j < 3)%nat ->
  concat (map (fun segment =>
                 [ _seconds_to_vtt_time (seg_start segment) +:+ " --> "
                     +:+ _seconds_to_vtt_time (seg_end segment);
                   seg_text segment; "" ]) segments) !! (3 * k + j)%nat =
  [ _seconds_to_vtt_time (seg_start segment) +:+ " --> "
      +:+ _seconds_to_vtt_time (seg_end segment);
    seg_text segment; "" ] !! j.
Proof.
  revert k. induction segments as [|first rest IH]; intros k Hk Hj; [discriminate|].
  cbn [map concat]. destruct k as [|k].
  - injection Hk as ->. rewrite lookup_app_l by (cbn; lia). reflexivity.
  - rewrite lookup_app_r by (cbn; lia).
    replace (3 * S k + j - length [ _seconds_to_vtt_time (seg_start first) +:+ " --> "
      +:+ _seconds_to_vtt_time (seg_end first); seg_text first; "" ])%nat
      with (3 * k + j)%nat by (cbn; lia).
    exact (IH k Hk Hj).
Qed.

(** X16: the lines of the WebVTT output are the header [WEBVTT], an empty
    line, and then three lines for each segment, in the order of the
    segments: its two times, its text and an empty line.  With no segments
    the output is the header and the empty line. *)
Theorem vtt_output_has_a_header_and_three_lines_per_cue segments :
  vtt_lines segments !! 0%nat = Some "WEBVTT" ∧
  vtt_lines segments !! 1%nat = Some "" ∧
  length (vtt_lines segments) = (2 + 3 * length segments)%nat ∧
  forall (k : nat) segment,
    segments !! k = Some segment ->
    vtt_lines segments !! (2 + 3 * k)%nat =
      Some (_seconds_to_vtt_time (seg_start segment) +:+ " --> "
            +:+ _seconds_to_vtt_time (seg_end segment)) ∧
    vtt_lines segments !! (2 + 3 * k + 1)%nat = Some (seg_text segment) ∧
    vtt_lines segments !! (2 + 3 * k + 2)%nat = Some "".
Proof.
  unfold vtt_lines. rewrite vtt_lines_from.
  split; [reflexivity|]. split; [reflexivity|]. split.
  - rewrite length_app. cbn [length]. f_equal.
    induction segments as [|s rest IH]; [reflexivity|].
    cbn [map concat]. rewrite length_app, IH. cbn. lia.
  - intros k segment Hk.
    assert (forall j, (j < 3)%nat ->
              (["WEBVTT"; ""] ++ concat (map (fun segment =>
                 [ _seconds_to_vtt_time (seg_start segment) +:+ " --> "
                     +:+ _seconds_to_vtt_time (seg_end segment);
                   seg_text segment; "" ]) segments)) !! (2 + 3 * k + j)%nat =
              [ _seconds_to_vtt_time (seg_start segment) +:+ " --> "
                  +:+ _seconds_to_vtt_time (seg_end segment);
                seg_text segment; "" ] !! j) as H.
    { intros j Hj. rewrite lookup_app_r by (cbn; lia).
      replace (2 + 3 * k + j - length ["WEBVTT"; ""])%nat with (3 * k + j)%nat
        by (cbn; lia).
      exact (vtt_cue_lookup segments k segment j Hk Hj). }
    replace (2 + 3 * k)%nat with (2 + 3 * k + 0)%nat at 1 by lia.
    rewrite !H by lia. repeat split; reflexivity.
Qed.

(** X17: [transcribe_audio] and [detect_language] change the disk at the
    temporary path and nowhere else, and what they leave there is decided by
    the staging and by the unlink: nothing, when the staging failed before
    the file was created or when the file was unlinked; the upload, when the
    unlink failed; what had been written, when the staging failed after the
    file was created.  When the temporary path was free before a call and is
    free after it, the disk is exactly as it was. *)
Theorem transcription_touches_only_the_temp_path env audio task language initial_prompt
    output_format w :
  let temp_path := temp_name env (trace w) in
  let staged := TempFileWritten temp_path audio :: trace w in
  let disk_after (options : TranscribeOptions) :=
    match stage_outcome env (trace w) audio with
    | Staged =>
        let returned := model_transcribe env staged temp_path options in
        match unlink_error env (Transcribe temp_path options (returned_of returned) :: staged)
                temp_path with
        | None => delete temp_path (fs w)
        | Some _ => <[temp_path := audio]> (fs w)
        end
    | StagingFailed (Some written) _ => <[temp_path := written]> (fs w)
    | StagingFailed None _ => fs w
    end in
  let after_transcription :=
    (transcribe_audio env audio task language initial_prompt output_format w).2 in
  let after_detection := (detect_language env audio w).2 in
  fs after_transcription =
    disk_after (transcribe_options task language initial_prompt output_format) ∧
  fs after_detection = disk_after detect_options ∧
  (forall path, path ≠ temp_path ->
     fs after_transcription !! path = fs w !! path ∧
     fs after_detection !! path = fs w !! path) ∧
  (fs w !! temp_path = None ->
   (fs after_transcription !! temp_path = None -> fs after_transcription = fs w) ∧
   (fs after_detection !! temp_path = None -> fs after_detection = fs w)).
Proof.
  cbv zeta.
  assert (forall disk : gmap string (list Byte.byte),
            (forall path, path ≠ temp_name env (trace w) -> disk !! path = fs w !! path) ->
            fs w !! temp_name env (trace w) = None ->
            disk !! temp_name env (trace w) = None -> disk = fs w) as Hsame.
  { intros disk Hothers Hbefore Hafter. apply map_eq. intros path.
    destruct (decide (path = temp_name env (trace w))) as [->|Hne].
    - rewrite Hbefore, Hafter. reflexivity.
    - apply Hothers, Hne. }
  assert (forall (disk : gmap string (list Byte.byte)) content path,
            path ≠ temp_name env (trace w) ->
            delete (temp_name env (trace w)) disk !! path = disk !! path ∧
            <[temp_name env (trace w) := content]> disk !! path = disk !! path) as Hother.
  { intros disk content path Hne. split.
    - apply lookup_delete_ne. intros E. apply Hne. symmetry. exact E.
    - apply lookup_insert_ne. intros E. apply Hne. symmetry. exact E. }
  rewrite transcribe_audio_run, detect_language_run. cbv zeta.
  unfold after_cleanup, after_failed_staging.
  destruct (stage_outcome env (trace w) audio) as [|[written|] e]; cbn [snd fs].
  - destruct (unlink_error env _ _); destruct (unlink_error env _ _); cbn [fs];
      rewrite ?delete_insert_eq;
      (split; [reflexivity|]); (split; [reflexivity|]);
      (split; [intros path Hne; split; apply (Hother (fs w) audio path Hne)|]);
      intros Hfree; split; intros Hgone; apply Hsame;
      try assumption; intros path Hne; apply (Hother (fs w) audio path Hne).
  - (split; [reflexivity|]); (split; [reflexivity|]);
      (split; [intros path Hne; split; apply (Hother (fs w) written path Hne)|]);
      intros Hfree; split; intros Hgone; apply Hsame;
      try assumption; intros path Hne; apply (Hother (fs w) written path Hne).
  - repeat split; reflexivity.
Qed.

Lemma unknown_format_is_rendered_as_text_witness :
  transcribe_audio hears_two_segments [] "transcribe" None None "tsv" empty_world =
  transcribe_audio hears_two_segments [] "transcribe" None None "txt" empty_world.
Proof.
  apply (unknown_format_is_rendered_as_text hears_two_segments [] "transcribe" None None
           "tsv" empty_world).
  apply (bool_decide_unpack _). vm_compute. exact I.
Defined.

Lemma vtt_output_has_a_header_and_three_lines_per_cue_witness :
  vtt_lines two_segments !! 5%nat =
    Some (_seconds_to_vtt_time (5 # 2) +:+ " --> " +:+ _seconds_to_vtt_time (7323 # 2)) ∧
  vtt_lines two_segments !! 6%nat = Some "General Kenobi." ∧
  vtt_lines two_segments !! 7%nat = Some "".
Proof.
  destruct (vtt_output_has_a_header_and_three_lines_per_cue two_segments)
    as (_ & _ & _ & Hcue).
  exact (Hcue 1%nat
           {| seg_start := 5 # 2; seg_end := 7323 # 2; seg_text := "General Kenobi.";
              seg_words := None |} eq_refl).
Defined.

Lemma transcription_touches_only_the_temp_path_witness :
  fs (transcribe_audio hears_nothing [] "transcribe" None None "json" empty_world).2
    = fs empty_world ∧
  fs (detect_language disk_full [] empty_world).2 = {["/tmp/tmpa1b2c3.wav" := []]}.
Proof.
  split.
  - destruct (transcription_touches_only_the_temp_path hears_nothing [] "transcribe" None
                None "json" empty_world) as (_ & _ & _ & H).
    destruct (H eq_refl) as [H1 _]. apply H1. vm_compute. reflexivity.
  - destruct (transcription_touches_only_the_temp_path disk_full [] "transcribe" None
                None "json" empty_world) as (_ & H & _).
    exact H.
Defined.

(** *** The fields of a timestamp *)

Local Open Scope Q_scope.

(** X18: for a time from zero up to sixty million seconds, both renderings
    show the hours and the minutes of the whole number of seconds in it:
    [t / 3600] and [(t / 60) mod 60] for [t] whole seconds.  The SRT
    rendering then shows [t mod 60] and, as milliseconds, the float product
    of the fraction and 1000, truncated; the WebVTT rendering shows the
    seconds past the minute, rounded to the nearest thousandth. *)
Theorem timestamp_fields_are_those_of_the_whole_seconds s :
  0 <= s -> s < 60000000 ->
  _seconds_to_srt_time s =
    format_0d 2 (Qfloor s / 3600) +:+ ":" +:+ format_0d 2 ((Qfloor s / 60) mod 60)
      +:+ ":" +:+ format_0d 2 (Qfloor s mod 60)
      +:+ "," +:+ format_0d 3 (int (mul (s - inject_Z (Qfloor s)) 1000)) /\
  _seconds_to_vtt_time s =
    format_0d 2 (Qfloor s / 3600) +:+ ":" +:+ format_0d 2 ((Qfloor s / 60) mod 60)
      +:+ ":" +:+ format_thousandths 6 false
                    (round_half_even ((s - inject_Z (60 * (Qfloor s / 60))) * 1000)).
Proof. exact (timestamp_fields s). Qed.

(** X19: the WebVTT rendering rounds the seconds after the minutes are
    taken, and does not carry: a time in the last half millisecond of a
    minute reads [60.000] in the seconds field, under the minute it began
    in. *)
Theorem vtt_seconds_round_up_to_sixty s :
  0 <= s -> s < 60000000 ->
  (Qfloor s mod 60 = 59)%Z ->
  9995 # 10000 <= s - inject_Z (Qfloor s) ->
  _seconds_to_vtt_time s =
    format_0d 2 (Qfloor s / 3600) +:+ ":" +:+ format_0d 2 ((Qfloor s / 60) mod 60)
      +:+ ":60.000".
Proof.
  intros L U Hsec Hfrac.
  destruct (time_fields s L U) as (Eh & Emi & Es & S0 & S1).
  unfold _seconds_to_vtt_time. rewrite Eh, Emi. do 4 f_equal.
  unfold format_03f. rewrite (negative_false _ S0).
  assert (Qabs (modulo s 60) == s - inject_Z (Qfloor s) + 59) as Hx.
  { rewrite Qabs_pos by exact S0. rewrite Es.
    pose proof (Z.div_mod (Qfloor s) 60 ltac:(lia)) as Hdm.
    assert (inject_Z (Qfloor s) == inject_Z (60 * (Qfloor s / 60)) + 59) as Ht.
    { change 59 with (inject_Z 59). rewrite <- inject_Z_plus. rewrite <- Hsec, <- Hdm.
      reflexivity. }
    rewrite Ht. ring. }
  pose proof (Qlt_floor s) as F2. rewrite inject_Z_plus in F2.
  change (inject_Z 1) with 1 in F2.
  set (q := Qabs (modulo s 60) * 1000).
  assert (599995 # 10 <= q) as Q0 by (unfold q; rewrite Hx; lra).
  assert (q < 60000) as Q1 by (unfold q; rewrite Hx; lra).
  assert (Qfloor q = 59999%Z) as Hf.
  { apply Qfloor_unique; change (inject_Z 59999) with 59999; lra. }
  assert (round_half_even q = 60000%Z) as ->.
  { unfold round_half_even. rewrite Hf. change (inject_Z 59999) with 59999.
    destruct (Qcompare (q - 59999) (1 # 2)) eqn:C; [reflexivity| |reflexivity].
    apply Qlt_alt in C. lra. }
  reflexivity.
Qed.


Lemma timestamp_fields_are_those_of_the_whole_seconds_witness :
  _seconds_to_srt_time (7323 # 2) =
    format_0d 2 (Qfloor (7323 # 2) / 3600) +:+ ":"
      +:+ format_0d 2 ((Qfloor (7323 # 2) / 60) mod 60)
      +:+ ":" +:+ format_0d 2 (Qfloor (7323 # 2) mod 60)
      +:+ "," +:+ format_0d 3 (int (mul ((7323 # 2) - inject_Z (Qfloor (7323 # 2))) 1000)) /\
  _seconds_to_vtt_time (7323 # 2) =
    format_0d 2 (Qfloor (7323 # 2) / 3600) +:+ ":"
      +:+ format_0d 2 ((Qfloor (7323 # 2) / 60) mod 60)
      +:+ ":" +:+ format_thousandths 6 false
                    (round_half_even
                       (((7323 # 2) - inject_Z (60 * (Qfloor (7323 # 2) / 60))) * 1000)).
Proof.
  apply (timestamp_fields_are_those_of_the_whole_seconds (7323 # 2));
    [discriminate | reflexivity].
Defined.

Lemma vtt_seconds_round_up_to_sixty_witness :
  is_binary64 (122879 # 2048) = true /\
  _seconds_to_vtt_time (122879 # 2048) =
    format_0d 2 (Qfloor (122879 # 2048) / 3600) +:+ ":"
      +:+ format_0d 2 ((Qfloor (122879 # 2048) / 60) mod 60) +:+ ":60.000".
Proof.
  split; [vm_compute; reflexivity|].
  apply (vtt_seconds_round_up_to_sixty (122879 # 2048));
    [discriminate | reflexivity | reflexivity | discriminate].
Defined.

Local Close Scope Q_scope.

End WhisperServiceFacts.

(** * Properties of the Whisper routes *)

Module WhisperRoutesFacts.
Import Whisper WhisperRoutes WhisperFacts.
Local Open Scope py_scope.

(** X20: a [POST /asr] that fails is answered with 422, 400 or 500 and with
    no other status.  With a 422 or a 400 nothing has happened: no file was
    written and the recognizer was not called.  With a 500 one of three
    things has happened: nothing, the upload lacking the label the handler
    reads; or the staging of the upload failed, the recognizer was not
    called, and what the staging had written is left on disk; or the upload
    was staged, the recognizer was called and raised, and the temporary file
    was unlinked, or is still there if the unlink failed. *)
Theorem asr_fails_with_400_422_or_500 env audio_file task language initial_prompt
    output encode w e w' :
  post_asr env audio_file task language initial_prompt output encode w = (Raise e, w') ->
  let temp_path := temp_name env (trace w) in
  let staged := TempFileWritten temp_path (file audio_file) :: trace w in
  (status_of e = 422 ∨ status_of e = 400) ∧ w' = w ∨
  status_of e = 500 ∧
  (w' = w ∨
   (∃ remains e0,
      stage_outcome env (trace w) (file audio_file) = StagingFailed remains e0 ∧
      fs w' = match remains with
              | Some written => <[temp_path := written]> (fs w)
              | None => fs w
              end ∧
      trace w' = TempFileFailed temp_path remains :: trace w) ∨
   (stage_outcome env (trace w) (file audio_file) = Staged ∧
    ∃ options e0,
      model_transcribe env staged temp_path options = Raise e0 ∧
      match unlink_error env (Transcribe temp_path options None :: staged) temp_path with
      | None =>
          fs w' = delete temp_path (fs w) ∧
          trace w' = Unlink temp_path :: Transcribe temp_path options None :: staged
      | Some _ =>
          fs w' = <[temp_path := file audio_file]> (fs w) ∧
          trace w' = UnlinkFailed temp_path :: Transcribe temp_path options None :: staged
      end)).
Proof.
  cbv zeta. unfold post_asr.
  destruct (bool_decide (task ∈ task_values)); cbn [negb];
    [|intros [= <- <-]; left; split; [left; reflexivity | reflexivity]].
  destruct (bool_decide (output ∈ output_values)); cbn [negb];
    [|intros [= <- <-]; left; split; [left; reflexivity | reflexivity]].
  match goal with
  | |- _ -> _ ∨ _ ∧ (_ ∨ ?happened) =>
      assert (try_except
                (transcribe_audio env (file audio_file) task language initial_prompt output)
                (fun e0 => raise (HTTPException 500 (str e0))) w = (Raise e, w') ->
              status_of e = 500 ∧ happened) as Hrun
  end.
  { unfold try_except. rewrite transcribe_audio_run. cbv zeta.
    destruct (stage_outcome env (trace w) (file audio_file)) as [|remains e1].
    - destruct (model_transcribe env _ _ _) as [r|e0] eqn:Hheard; [discriminate|].
      unfold raise. intros [= <- <-]. split; [reflexivity|]. right.
      split; [reflexivity|]. eexists _, e0. split; [exact Hheard|].
      unfold after_cleanup, returned_of.
      destruct (unlink_error env _ _); cbn [fs trace];
        rewrite ?delete_insert_eq; split; reflexivity.
    - unfold raise. intros [= <- <-]. split; [reflexivity|]. left.
      exists remains, e1. split; [reflexivity|]. split; reflexivity. }
  unfold transcribe, bind, ret, raise.
  destruct (content_type audio_file) as [ct|];
    [|intros [= <- <-]; right; split; [reflexivity | left; reflexivity]].
  destruct (startswith ct "audio/"); cbn [negb].
  - intros H. right. destruct (Hrun H) as [? ?]. auto.
  - destruct (filename audio_file) as [name|];
      [|intros [= <- <-]; right; split; [reflexivity | left; reflexivity]].
    destruct (existsb _ allowed_extensions); cbn [negb].
    + intros H. right. destruct (Hrun H) as [? ?]. auto.
    + intros [= <- <-]. left. split; [right; reflexivity | reflexivity].
Qed.

(** X21: [POST /asr] returns a transcript only for a known task and output
    format and for an upload that is labelled as audio: its content type
    starts with [audio/], or its name, in lower case, ends with one of the
    six extensions.  The transcript is then the one [transcribe_audio]
    returns for the bytes of the upload. *)
Theorem asr_transcribes_only_labelled_audio env audio_file task language initial_prompt
    output encode w t w' :
  post_asr env audio_file task language initial_prompt output encode w = (Ok t, w') ->
  task ∈ task_values ∧ output ∈ output_values ∧
  (∃ ct, content_type audio_file = Some ct ∧
         (startswith ct "audio/" = true ∨
          ∃ name ext, filename audio_file = Some name ∧ ext ∈ allowed_extensions ∧
                      endswith (lower name) ext = true)) ∧
  (transcribe_audio env (file audio_file) task language initial_prompt output w).1 = Ok t.
Proof.
  unfold post_asr.
  case_bool_decide as Ht; cbn [negb]; [|discriminate].
  case_bool_decide as Ho; cbn [negb]; [|discriminate].
  intros Hrun. split; [exact Ht|]. split; [exact Ho|]. revert Hrun.
  assert (try_except
            (transcribe_audio env (file audio_file) task language initial_prompt output)
            (fun e0 => raise (HTTPException 500 (str e0))) w = (Ok t, w') ->
          (transcribe_audio env (file audio_file) task language initial_prompt output w).1
            = Ok t) as Hrun.
  { unfold try_except, raise.
    destruct (transcribe_audio env _ _ _ _ _ w) as [[t0|e0] w0]; [|discriminate].
    intros [= <- <-]. reflexivity. }
  unfold transcribe, bind, ret, raise.
  destruct (content_type audio_file) as [ct|]; [|discriminate].
  destruct (startswith ct "audio/") eqn:Hs; cbn [negb].
  - intros H. split; [eauto|]. exact (Hrun H).
  - destruct (filename audio_file) as [name|]; [|discriminate].
    destruct (existsb _ allowed_extensions) eqn:He; cbn [negb]; [|discriminate].
    intros H. split; [|exact (Hrun H)].
    apply existsb_exists in He as (ext & Hin & Hext).
    exists ct. split; [reflexivity|]. right. exists name, ext.
    split; [reflexivity|]. split; [|exact Hext].
    apply list_elem_of_In. exact Hin.
Qed.


Lemma asr_fails_with_400_422_or_500_witness :
  (post_asr hears_two_segments pdf_upload "transcribe" None None "txt" true empty_world).1
    = Raise (HTTPException 400 "Invalid audio file format") ∧
  ∃ e w',
    post_asr disk_full wav_upload "transcribe" None None "txt" true empty_world
      = (Raise e, w') ∧
    status_of e = 500 ∧ fs w' !! "/tmp/tmpa1b2c3.wav" = Some [].
Proof.
  split; [vm_compute; reflexivity|].
  eexists _, _. split; [vm_compute; reflexivity|].
  destruct (asr_fails_with_400_422_or_500 disk_full wav_upload "transcribe" None None
              "txt" true empty_world _ _ eq_refl)
    as [[[H|H] _]|[Hstatus [H|[(remains & e0 & Hout & Hfs & _)|[H _]]]]];
    try discriminate H.
  split; [exact Hstatus|].
  injection Hout as <- _.
  exact (eq_ind_r (fun disk => disk !! "/tmp/tmpa1b2c3.wav" = Some []) eq_refl Hfs).
Defined.

Lemma asr_transcribes_only_labelled_audio_witness :
  ∃ ct, content_type unlabelled_upload = Some ct ∧
        (startswith ct "audio/" = true ∨
         ∃ name ext, filename unlabelled_upload = Some name ∧
                     ext ∈ allowed_extensions ∧ endswith (lower name) ext = true).
Proof.
  destruct (asr_transcribes_only_labelled_audio hears_two_segments unlabelled_upload
              "transcribe" None None "txt" true empty_world
              (text_of "Hello there. General Kenobi.")
              (post_asr hears_two_segments unlabelled_upload "transcribe" None None
                        "txt" true empty_world).2) as (_ & _ & H & _).
  - vm_compute. reflexivity.
  - exact H.
Defined.

End WhisperRoutesFacts.

(** * Properties of the Whisper service object *)

Module WhisperStartupFacts.
Import PiperConfig WhisperStartup.
Local Open Scope py_scope.

Section Facts.
Context {Model : Type} (env : Env Model).
Implicit Types (w : world Model).

Ltac run_startup :=
  unfold WhisperService_init, _load_model, cleanup_cuda_memory, health_check,
    tensor_on_cuda, get_device_name, get_device_properties, empty_cache, synchronize,
    oracle_call, new_WhisperModel, is_available, get_self, set_model, set_model_size,
    set_device, set_compute_type, bind, try_except, ret, raise, record;
  cbn [self trace model model_size device compute_type fst snd];
  repeat
    (match goal with
     | |- context [cuda_is_available env ?t] =>
         destruct (cuda_is_available env t) eqn:?
     | |- context [match cuda_tensor env ?t with _ => _ end] =>
         destruct (cuda_tensor env t) as [[]|?] eqn:?
     | |- context [match cuda_get_device_name env ?t with _ => _ end] =>
         destruct (cuda_get_device_name env t) eqn:?
     | |- context [match cuda_get_device_properties env ?t with _ => _ end] =>
         destruct (cuda_get_device_properties env t) as [[]|?] eqn:?
     | |- context [match cuda_empty_cache env ?t with _ => _ end] =>
         destruct (cuda_empty_cache env t) as [[]|?] eqn:?
     | |- context [match cuda_synchronize env ?t with _ => _ end] =>
         destruct (cuda_synchronize env t) as [[]|?] eqn:?
     | |- context [match WhisperModel env ?t ?a with _ => _ end] =>
         destruct (WhisperModel env t a) eqn:?
     | |- context [match model (self ?w) with _ => _ end] =>
         destruct (model (self w)) eqn:?
     end;
     cbn [self trace model model_size device compute_type fst snd String.eqb Ascii.eqb
          Bool.eqb]).

Lemma startup_device w w' :
  WhisperService_init env w = (Ok tt, w') ->
  ∃ m args earlier,
    model (self w') = Some m ∧
    trace w' = LoadModel args (Some m) :: earlier ∧
    model_size (self w') = getenv (environ env) "WHISPER_MODEL_SIZE" "small" ∧
    la_model_size args = model_size (self w') ∧
    la_device args = device (self w') ∧
    la_compute_type args = compute_type (self w') ∧
    (device (self w') = "cuda" ∧ compute_type (self w') = "float16" ∧
       la_cpu_threads args = 1 ∨
     device (self w') = "cpu" ∧ compute_type (self w') = "float32" ∧
       la_cpu_threads args = 4).
Proof.
  run_startup; intros [= <-]; try discriminate;
    eexists _, _, _; cbn; repeat split; auto.
Qed.


(** X22: when [WhisperService.__init__] returns, the service holds a model,
    and the device, the precision and the model size it reports are the
    arguments that model was loaded with: [cuda] with [float16] and one CPU
    thread, or [cpu] with [float32] and four. *)
Theorem startup_reports_the_device_of_the_loaded_model w w' :
  WhisperService_init env w = (Ok tt, w') ->
  ∃ m args earlier,
    model (self w') = Some m ∧
    trace w' = LoadModel args (Some m) :: earlier ∧
    model_size (self w') = getenv (environ env) "WHISPER_MODEL_SIZE" "small" ∧
    la_model_size args = model_size (self w') ∧
    la_device args = device (self w') ∧
    la_compute_type args = compute_type (self w') ∧
    (device (self w') = "cuda" ∧ compute_type (self w') = "float16" ∧
       la_cpu_threads args = 1 ∨
     device (self w') = "cpu" ∧ compute_type (self w') = "float32" ∧
       la_cpu_threads args = 4).
Proof. exact (startup_device w w'). Qed.

(** X23: [WhisperService.__init__] raises only when a load on the CPU has
    failed: the service is then left on [cpu] with [float32] and without a
    model, and the exception is the loader's own when the CPU was the first
    choice, and the [RuntimeError] that names both devices when the load on
    the GPU had failed before. *)
Theorem startup_fails_only_when_the_cpu_load_fails w e w' :
  WhisperService_init env w = (Raise e, w') ->
  model (self w') = None ∧
  device (self w') = "cpu" ∧
  compute_type (self w') = "float32" ∧
  ∃ args earlier,
    trace w' = LoadModel args None :: earlier ∧
    la_device args = "cpu" ∧
    la_compute_type args = "float32" ∧
    la_cpu_threads args = 4 ∧
    (WhisperModel env earlier args = Raise e ∨
     e = both_failed ∧
     ∃ gpu_args before, earlier = LoadModel gpu_args None :: before ∧
                        la_device gpu_args = "cuda").
Proof.
  run_startup; intros [= <- <-]; cbn; do 3 (split; [reflexivity|]);
    eexists _, _; (split; [reflexivity|]); cbn; do 3 (split; [reflexivity|]);
    first [ left; assumption | right; split; [reflexivity|]; eexists _, _; split; reflexivity ].
Qed.

(** X24: [WhisperService.__init__] loads the model once, or twice when the
    first load was on the GPU and failed, the second being on the CPU; it
    never goes from the CPU to the GPU.  A load on the GPU is attempted only
    after CUDA was reported available and the test tensor and the two device
    queries went through. *)
Theorem gpu_fallback_is_one_way w :
  ∃ evs,
    trace (WhisperService_init env w).2 = evs ++ trace w ∧
    ((∃ only loaded, loads evs = [(only, loaded)]) ∨
     (∃ first second loaded,
         loads evs = [(first, false); (second, loaded)] ∧
         la_device first = "cuda" ∧ la_device second = "cpu")) ∧
    (forall args loaded,
        (args, loaded) ∈ loads evs -> la_device args = "cuda" ->
        evs !! (length evs - 1)%nat = Some (CudaIsAvailable true) ∧
        CudaTensor true ∈ evs ∧ CudaGetDeviceName true ∈ evs ∧
        CudaGetDeviceProperties true ∈ evs).
Proof.
  run_startup.
  all: first [ eexists [_;_;_;_;_;_]; split; [reflexivity|]
             | eexists [_;_;_;_;_]; split; [reflexivity|]
             | eexists [_;_;_;_]; split; [reflexivity|]
             | eexists [_;_;_]; split; [reflexivity|]
             | eexists [_;_]; split; [reflexivity|] ].
  all: split;
    [ first [ left; eexists _, _; reflexivity
            | right; eexists _, _, _; split; [reflexivity|]; split; reflexivity ]
    | ].
  all: intros args loaded Hin Hdev; cbn in Hin;
    repeat (apply elem_of_cons in Hin as [Hin|Hin];
            [injection Hin as -> ->; cbn in Hdev; try discriminate Hdev|]);
    try (by apply not_elem_of_nil in Hin).
  all: split; [reflexivity|];
    repeat split; repeat first [ apply list_elem_of_here | apply list_elem_of_further ].
Qed.

Lemma cleanup_never_fails_aux w :
  ∃ w',
    cleanup_cuda_memory env w = (Ok tt, w') ∧
    model (self w') = None ∧
    model_size (self w') = model_size (self w) ∧
    device (self w') = device (self w) ∧
    compute_type (self w') = compute_type (self w).
Proof.
  run_startup; eexists; (split; [reflexivity|]); cbn; auto.
Qed.

(** X25: [cleanup_cuda_memory] never raises, whatever torch does: it leaves
    the service without a model and with the model size, the device and the
    precision it had. *)
Theorem cleanup_never_fails w :
  ∃ w',
    cleanup_cuda_memory env w = (Ok tt, w') ∧
    model (self w') = None ∧
    model_size (self w') = model_size (self w) ∧
    device (self w') = device (self w) ∧
    compute_type (self w') = compute_type (self w).
Proof. exact (cleanup_never_fails_aux w). Qed.

(** X26: after a startup that returned, an answer of [GET /health] names the
    device and the model size the model was loaded with, whatever torch says
    of the GPU by then, and also after the cleanup of a shutdown. *)
Theorem health_reports_the_startup_device w w1 h w2 :
  WhisperService_init env w = (Ok tt, w1) ->
  health_check env (cleanup_cuda_memory env w1).2 = (Ok h, w2) ∨
  health_check env w1 = (Ok h, w2) ->
  ∃ m args earlier,
    trace w1 = LoadModel args (Some m) :: earlier ∧
    h_device h = la_device args ∧
    h_model_size h = la_model_size args.
Proof.
  intros Hinit Hh.
  destruct (startup_device w w1 Hinit) as (m & args & earlier & _ & Ht & _ & Hs & Hd & _).
  exists m, args, earlier. split; [exact Ht|].
  destruct (cleanup_never_fails_aux w1) as (w1' & Hc & _ & Hs' & Hd' & _).
  assert (h_device h = device (self w1) ∧ h_model_size h = model_size (self w1)) as [-> ->].
  { destruct Hh as [Hh|Hh].
    - rewrite Hc in Hh. cbn [snd] in Hh. rewrite <- Hs', <- Hd'. revert Hh.
      generalize w1'. clear. intros w. run_startup; intros [= <- <-]; split; reflexivity.
    - revert Hh. generalize w1. clear. intros w.
      run_startup; intros [= <- <-]; split; reflexivity. }
  auto.
Qed.

End Facts.

Lemma startup_reports_the_device_of_the_loaded_model_witness :
  ∃ m args earlier,
    model (self (WhisperService_init small_gpu unborn).2) = Some m ∧
    trace (WhisperService_init small_gpu unborn).2 = LoadModel args (Some m) :: earlier ∧
    model_size (self (WhisperService_init small_gpu unborn).2)
      = getenv (environ small_gpu) "WHISPER_MODEL_SIZE" "small" ∧
    la_model_size args = model_size (self (WhisperService_init small_gpu unborn).2) ∧
    la_device args = device (self (WhisperService_init small_gpu unborn).2) ∧
    la_compute_type args = compute_type (self (WhisperService_init small_gpu unborn).2) ∧
    (device (self (WhisperService_init small_gpu unborn).2) = "cuda" ∧
       compute_type (self (WhisperService_init small_gpu unborn).2) = "float16" ∧
       la_cpu_threads args = 1 ∨
     device (self (WhisperService_init small_gpu unborn).2) = "cpu" ∧
       compute_type (self (WhisperService_init small_gpu unborn).2) = "float32" ∧
       la_cpu_threads args = 4).
Proof.
  apply (startup_reports_the_device_of_the_loaded_model small_gpu unborn).
  vm_compute. reflexivity.
Defined.

Lemma startup_fails_only_when_the_cpu_load_fails_witness :
  device (self (WhisperService_init broken_loader unborn).2) = "cpu".
Proof.
  destruct (startup_fails_only_when_the_cpu_load_fails broken_loader unborn both_failed
              (WhisperService_init broken_loader unborn).2) as (_ & H & _).
  - vm_compute. reflexivity.
  - exact H.
Defined.

Lemma gpu_fallback_is_one_way_witness :
  CudaTensor true ∈ trace (WhisperService_init small_gpu unborn).2.
Proof.
  destruct (gpu_fallback_is_one_way small_gpu unborn) as (evs & Ht & _ & H).
  change (trace unborn) with (@nil (event string)) in Ht.
  rewrite app_nil_r in Ht. subst evs.
  destruct (H {| la_model_size := "small"; la_device := "cuda";
                 la_compute_type := "float16"; la_cpu_threads := 1;
                 la_num_workers := Some 1 |} false) as (_ & Ht & _).
  - vm_compute. apply list_elem_of_here.
  - reflexivity.
  - exact Ht.
Defined.

Lemma health_reports_the_startup_device_witness :
  ∃ m args earlier,
    trace (WhisperService_init no_gpu unborn).2 = LoadModel args (Some m) :: earlier ∧
    "cpu" = la_device args ∧ "tiny" = la_model_size args.
Proof.
  apply (health_reports_the_startup_device no_gpu unborn
           (WhisperService_init no_gpu unborn).2
           {| h_status := "healthy"; h_device := "cpu"; h_model_size := "tiny";
              h_gpu_available := false; h_gpu_name := None |}
           (health_check no_gpu
              (cleanup_cuda_memory no_gpu (WhisperService_init no_gpu unborn).2).2).2).
  - vm_compute. reflexivity.
  - left. vm_compute. reflexivity.
Defined.

End WhisperStartupFacts.

(** * Properties of the Piper logging setup *)

Module PiperLoggingFacts.
Import PiperConfig PiperLogging PiperConfigFacts.
Local Open Scope py_scope.

Lemma valid_level_has_a_number name :
  name ∈ valid_log_levels -> ∃ l, logging_level name = Ok l.
Proof.
  unfold valid_log_levels. intros H.
  repeat (apply elem_of_cons in H as [->|H]; [eexists; reflexivity|]).
  by apply not_elem_of_nil in H.
Qed.

(** X27: the first [setup_logging] with a validated configuration, on a
    logger without handlers and a log file that can be opened, returns the
    logger [piper-service] set to the configured level, which is then one
    the [logging] module knows, with two handlers, the file first and the
    console second, both with the service's format, and with propagation
    off.  No other logger is touched. *)
Theorem first_setup_installs_file_and_console_handlers env mkdir_outcome environ calls c
    calls' w :
  ServiceConfig_init mkdir_outcome environ calls = (Ok c, calls') ->
  handlers (the_logger "piper-service" w) = [] ->
  open_for_append env (trace w) (log_file c) = Ok tt ->
  ∃ l w',
    setup_logging env c w = (Ok "piper-service", w') ∧
    logging_level (log_level c) = Ok l ∧
    loggers w' !! "piper-service" =
      Some {| level := l;
              handlers := [ {| h_target := ToFile (log_file c);
                               h_formatter := Some log_format |};
                            {| h_target := ToConsole;
                               h_formatter := Some log_format |} ];
              propagate := false |} ∧
    forall other, other ≠ "piper-service" -> loggers w' !! other = loggers w !! other.
Proof.
  intros Hc Hh Ho.
  destruct (ServiceConfig_init_ok _ _ _ _ _ Hc)
    as (_ & _ & _ & _ & _ & _ & _ & _ & _ & Hv & _).
  destruct (_validate_bounds _ Hv) as (_ & _ & _ & _ & Hl).
  destruct (valid_level_has_a_number _ Hl) as [l El].
  exists l. unfold setup_logging, bind, getLogger, get_handlers, setLevel, addHandler,
    set_propagate, new_FileHandler, setFormatter, ret. revert Hh. unfold the_logger.
  destruct (loggers w !! "piper-service") as [logger|] eqn:E; cbn; intros Hh.
  all: repeat (progress (rewrite ?E, ?Hh, ?El, ?Ho, ?lookup_insert_eq; cbn)).
  all: eexists; split; [reflexivity|]; split; [reflexivity|]; cbn.
  all: rewrite lookup_insert_eq; split; [reflexivity|].
  all: intros other Hne; rewrite !lookup_insert_ne by (intros <-; contradiction);
    reflexivity.
Qed.

Lemma setup_leaves_handlers env c w name w' :
  setup_logging env c w = (Ok name, w') ->
  name = "piper-service" ∧
  ∃ logger h hs, loggers w' !! "piper-service" = Some logger ∧ handlers logger = h :: hs.
Proof.
  unfold setup_logging, bind, getLogger, get_handlers, setLevel, addHandler,
    set_propagate, new_FileHandler, setFormatter, ret, the_logger.
  destruct (loggers w !! "piper-service") as [logger|] eqn:E;
    [destruct (handlers logger) as [|h hs] eqn:Hh|]; cbn.
  all: repeat (progress (rewrite ?E, ?Hh, ?lookup_insert_eq; cbn)).
  2: { intros [= <- <-]. split; [reflexivity|]. eauto. }
  all: destruct (logging_level (log_level c)) as [l|]; cbn; [|discriminate].
  all: destruct (open_for_append env (trace w) (log_file c)); cbn; [|discriminate].
  all: repeat (progress (rewrite ?E, ?Hh, ?lookup_insert_eq; cbn)).
  all: intros [= <- <-]; split; [reflexivity|]; cbn.
  all: rewrite lookup_insert_eq; eexists _, _, _; split; reflexivity.
Qed.

(** X28: once [setup_logging] has returned, a further call returns the
    same logger and changes nothing, whatever configuration it is given and
    whether or not the log file can still be opened: the handlers are not
    added twice, and the first configuration stays. *)
Theorem second_setup_changes_nothing env c w name w' env2 c2 :
  setup_logging env c w = (Ok name, w') ->
  setup_logging env2 c2 w' = (Ok name, w').
Proof.
  intros H. destruct (setup_leaves_handlers _ _ _ _ _ H) as (-> & logger & h & hs & E & Hh).
  unfold setup_logging, bind, getLogger, get_handlers, the_logger, ret.
  rewrite E. cbn. rewrite E. cbn. rewrite Hh. reflexivity.
Qed.


Lemma first_setup_installs_file_and_console_handlers_witness :
  ∃ l w',
    setup_logging writable Piper.fallback_config no_loggers = (Ok "piper-service", w') ∧
    logging_level (log_level Piper.fallback_config) = Ok l ∧
    loggers w' !! "piper-service" =
      Some {| level := l;
              handlers := [ {| h_target := ToFile (log_file Piper.fallback_config);
                               h_formatter := Some log_format |};
                            {| h_target := ToConsole;
                               h_formatter := Some log_format |} ];
              propagate := false |} ∧
    forall other, other ≠ "piper-service" ->
                  loggers w' !! other = loggers no_loggers !! other.
Proof.
  apply (first_setup_installs_file_and_console_handlers writable mkdir_succeeds ∅ []
           Piper.fallback_config
           [Mkdir (ParentOf "logs/piper-service.log") true;
            Mkdir (PathOf "models/piper") true]
           no_loggers); reflexivity.
Defined.

Lemma second_setup_changes_nothing_witness :
  setup_logging read_only_disk Piper.fallback_config
    (setup_logging writable Piper.fallback_config no_loggers).2 =
  (Ok "piper-service", (setup_logging writable Piper.fallback_config no_loggers).2).
Proof.
  apply (second_setup_changes_nothing writable Piper.fallback_config no_loggers
           "piper-service" (setup_logging writable Piper.fallback_config no_loggers).2).
  vm_compute. reflexivity.
Defined.

End PiperLoggingFacts.
